(** * s3-upload-folders.js: a shallow embedding and its verification

    The script scans a fixed set of folders below the working directory,
    uploads every regular file to an S3 bucket in batches of [concurrency]
    files, retries a failed upload [retryAttempts] times with a pause of
    [retryDelay] milliseconds, and prints a summary.

    Layout of this development:
    - [Js]        completions ([return] / [throw]), the integer-or-[NaN]
                  values of [parseInt], and the Numbers a division can
                  produce;
    - [Path]      Node's [path] functions on resolved paths, [getContentType];
    - [Proc]      effect trees for the script's functions: synchronous
                  actions, [await] points, [try]/[catch];
    - the script: [scanDir], [getAllFiles], [uploadFile], [processBatch],
                  [main];
    - the event loop: a scheduler state machine that interleaves the
                  pending upload promises of one batch;
    - [Startup]   the settings read from the environment with [parseInt];
    - the theorems.

    What is taken from outside the script:
    - Node's [path.join], [path.relative] and [path.extname] act on resolved
      paths as their documentation says; a path is kept as the list of its
      names, and rendered with the separator of the platform;
    - the file system does not change during the scan; what a later
      [fs.readFileSync] returns, and how a request to S3 settles, is given
      by an [environment], for each file and each value of [retryCount];
    - what [fs], [path] and the AWS SDK throw are [Error] objects;
    - the console, the spinner and the progress bar do not throw; the lines
      printed by [console.log] are left out, the report keeps their
      numbers; the lines of [console.warn] and [console.error] are kept
      without the colour codes of [chalk], as they are printed when colours
      are off;
    - a Number is a binary64 value.  The counters and the clock readings
      are integers below [2^53], which Numbers hold exactly, and are kept
      as integers; a quotient is rounded to the nearest Number, halves to
      the even one, and stays far from the ends of the range of the
      exponent, which is left unbounded;
    - [config.concurrency] is an integer or [NaN], as [parseInt] leaves it;
      [config.retryAttempts] and [config.retryDelay] are integers. *)

From Stdlib Require Import ZArith List String Ascii Bool Lia QArith Qround.
From Stdlib Require Import DecimalString DecimalN Permutation.
Import ListNotations.

Local Open Scope string_scope.
Local Open Scope Z_scope.

(* ------------------------------------------------------------------ *)
(** ** JavaScript values the script manipulates *)

Module Js.

(** An [Error] object: everything [fs], [path] and the AWS SDK throw or
    reject with is one, so [error.message] is always defined. *)
Record jserror := JsError { err_name : string; message : string }.

(** The outcome of evaluating a piece of code. *)
Inductive completion (A : Type) : Type :=
| Normal (a : A)
| Throw (e : jserror).
Arguments Normal {A} a.
Arguments Throw {A} e.

(** An integer-valued Number or [NaN]: what [parseInt] returns, and what
    sums of such values are. *)
Inductive number :=
| Int (z : Z)
| Nan.

(** [a < b] *)
Definition js_lt (a b : number) : bool :=
  match a, b with
  | Int x, Int y => x <? y
  | _, _ => false
  end.

(** [a + b] *)
Definition js_add (a b : number) : number :=
  match a, b with
  | Int x, Int y => Int (x + y)
  | _, _ => Nan
  end.

(** The integer an index argument stands for: [NaN] counts as [0]. *)
Definition to_integer (a : number) : Z :=
  match a with
  | Int x => x
  | Nan => 0
  end.

(** The result of a division of two numbers: a finite value, or what
    IEEE 754 gives for a zero divisor.  A finite value is a binary64
    Number, written as the rational it is. *)
Inductive jsnum :=
| Finite (q : Q)
| PosInfinity
| NegInfinity
| NaN.

Definition is_finite (x : jsnum) : bool :=
  match x with Finite _ => true | _ => false end.

(** The integer nearest to [n / d] for a positive [d], a half going to the
    even neighbour. *)
Definition nearest_even (n d : Z) : Z :=
  let q := n / d in
  let r := n mod d in
  match 2 * r ?= d with
  | Lt => q
  | Gt => q + 1
  | Eq => if Z.even q then q else q + 1
  end.

(** [2^k * n / d] as a fraction. *)
Definition scale (k n d : Z) : Z * Z :=
  if 0 <=? k then (n * 2 ^ k, d) else (n, d * 2 ^ (- k)).

(** The binary exponent of [n / d] for positive [n] and [d]: the [e] with
    [2^e <= n / d < 2^(e+1)]. *)
Definition exponent (n d : Z) : Z :=
  let e := Z.log2 n - Z.log2 d in
  let '(n', d') := scale (- e) n d in
  if d' <=? n' then e else e - 1.

(** The Number nearest to [n / d] for positive [n] and [d]: a multiple
    [m * 2^(e-52)] with [2^52 <= m <= 2^53]. *)
Definition nearest_double (n d : Z) : Q :=
  let e := exponent n d in
  let '(n', d') := scale (52 - e) n d in
  let m := nearest_even n' d' in
  let '(num, den) := scale (e - 52) m 1 in
  Qred (Qmake num (Z.to_pos den)).

(** The Number nearest to a rational. *)
Definition to_double (q : Q) : Q :=
  match Qnum q with
  | 0 => 0 # 1
  | Zpos n => nearest_double (Zpos n) (Zpos (Qden q))
  | Zneg n => Qopp (nearest_double (Zpos n) (Zpos (Qden q)))
  end.

(** [a / b] for finite [a] and [b]. *)
Definition js_div (a b : Q) : jsnum :=
  if Qeq_bool b 0 then
    if Qeq_bool a 0 then NaN
    else if Qle_bool 0 a then PosInfinity else NegInfinity
  else Finite (to_double (a / b)).

(** [Math.round]: the nearest integer, halves going up; infinities and NaN
    are returned unchanged. *)
Definition math_round (x : jsnum) : jsnum :=
  match x with
  | Finite q => Finite (inject_Z (Qfloor (q + (1 # 2))))
  | other => other
  end.

(** [Array.prototype.slice(start, end)] on a list, with JavaScript's
    treatment of negative and out-of-range indices, for integer indices. *)
Definition clamp_index (len k : Z) : Z :=
  if k <? 0 then Z.max (len + k) 0 else Z.min k len.

Definition slice {A : Type} (l : list A) (start stop : Z) : list A :=
  let len := Z.of_nat (List.length l) in
  let k := clamp_index len start in
  let final := clamp_index len stop in
  firstn (Z.to_nat (final - k)) (skipn (Z.to_nat k) l).

End Js.
Export Js.

(* ------------------------------------------------------------------ *)
(** ** Paths *)

Module Path.

Inductive platform := Posix | Win32.

Definition backslash : ascii := ascii_of_nat 92.
Definition line_feed : ascii := ascii_of_nat 10.

(** [path.sep] *)
Definition sep (os : platform) : string :=
  match os with Posix => "/" | Win32 => String backslash EmptyString end.

(** The root of a POSIX path has no drive. *)
Definition no_drive : string := EmptyString.

(** A resolved absolute path: its root (a drive letter on Windows, empty
    on POSIX) and the names below the root.  Names are plain directory
    entries: they hold no [path.sep]. *)
Record abspath := AbsPath { drive : string; segs : list string }.

Definition render (os : platform) (p : abspath) : string :=
  match os with
  | Posix => "/" ++ String.concat "/" (segs p)
  | Win32 => drive p ++ ":" ++ sep Win32 ++ String.concat (sep Win32) (segs p)
  end.

(** [path.join(dir, name)] for a plain name. *)
Definition join (dir : abspath) (name : string) : abspath :=
  {| drive := drive dir; segs := segs dir ++ [name] |}.

(** [String.prototype.toLowerCase] on ASCII. *)
Definition lower_ascii (c : ascii) : ascii :=
  let n := nat_of_ascii c in
  if (65 <=? n)%nat && (n <=? 90)%nat then ascii_of_nat (n + 32) else c.

Fixpoint toLowerCase (s : string) : string :=
  match s with
  | EmptyString => EmptyString
  | String c rest => String (lower_ascii c) (toLowerCase rest)
  end.

(** Path components are compared exactly on POSIX and without case on
    Windows. *)
Definition seg_eqb (os : platform) (a b : string) : bool :=
  match os with
  | Posix => String.eqb a b
  | Win32 => String.eqb (toLowerCase a) (toLowerCase b)
  end.

(** Drop the longest common prefix of two name lists. *)
Fixpoint strip_common (os : platform) (from to : list string)
  : list string * list string :=
  match from, to with
  | f :: from', t :: to' =>
      if seg_eqb os f t then strip_common os from' to' else (from, to)
  | _, _ => (from, to)
  end.

(** [path.relative(from, to)]: one [..] for every component of [from]
    below the common prefix, then what is left of [to]; on Windows a path
    on another drive is returned as it is.  The function has no failure
    case. *)
Definition relative (os : platform) (from to : abspath) : string :=
  if seg_eqb os (drive from) (drive to) then
    let '(up, down) := strip_common os (segs from) (segs to) in
    String.concat (sep os) (repeat ".." (List.length up) ++ down)
  else render os to.

(** [s.replace(/\\/g, '/')] *)
Fixpoint replace_backslashes (s : string) : string :=
  match s with
  | EmptyString => EmptyString
  | String c rest =>
      String (if Ascii.eqb c backslash then "/"%char else c)
             (replace_backslashes rest)
  end.

(** The suffix of [s] that starts at its last dot, if it has one. *)
Fixpoint from_last_dot (s : string) : option string :=
  match s with
  | EmptyString => None
  | String c rest =>
      match from_last_dot rest with
      | Some e => Some e
      | None => if Ascii.eqb c "." then Some s else None
      end
  end.

(** [path.extname] of a file name: from the last dot on, empty when there
    is no dot, when the only dot is the first character, or for [..]. *)
Definition extname (name : string) : string :=
  match name with
  | EmptyString => EmptyString
  | String _ rest =>
      match from_last_dot rest with
      | Some e => if String.eqb name ".." then EmptyString else e
      | None => EmptyString
      end
  end.

Definition basename (p : abspath) : string := last (segs p) EmptyString.

Definition contentTypes : list (string * string) :=
  [ (".jpg", "image/jpeg"); (".jpeg", "image/jpeg"); (".png", "image/png");
    (".gif", "image/gif"); (".webp", "image/webp"); (".svg", "image/svg+xml");
    (".html", "text/html"); (".css", "text/css");
    (".js", "application/javascript"); (".json", "application/json");
    (".pdf", "application/pdf"); (".txt", "text/plain");
    (".md", "text/markdown"); (".xml", "application/xml");
    (".zip", "application/zip"); (".mp3", "audio/mpeg"); (".mp4", "video/mp4");
    (".webm", "video/webm"); (".ico", "image/x-icon"); (".ttf", "font/ttf");
    (".woff", "font/woff"); (".woff2", "font/woff2") ].

Fixpoint lookup (key : string) (table : list (string * string)) : option string :=
  match table with
  | [] => None
  | (k, v) :: rest => if String.eqb k key then Some v else lookup key rest
  end.

(** [getContentType(filePath)] *)
Definition getContentType (filePath : abspath) : string :=
  let ext := toLowerCase (extname (basename filePath)) in
  match lookup ext contentTypes with
  | Some t => t
  | None => "application/octet-stream"
  end.

(** Lines 140-141 of the script: the object key of a file. *)
Definition resolveKey (os : platform) (baseDir filePath : abspath)
  : completion string :=
  let relativeFilePath := relative os baseDir filePath in
  Normal (replace_backslashes relativeFilePath).

End Path.
Export Path.

(* ------------------------------------------------------------------ *)
(** ** Effect trees *)

Module Proc.

(** The parameters of a [PutObjectCommand]. *)
Record putObject := PutObject {
  Bucket : string;
  Key : string;
  Body : string;
  ContentType : string;
  ACL : string
}.

(** What an [await] waits for. *)
Inductive wait :=
| Send (params : putObject)   (* s3Client.send(new PutObjectCommand(params)) *)
| Sleep (ms : Z).             (* new Promise(resolve => setTimeout(resolve, ms)) *)

(** The synchronous effects of the script. *)
Inductive action :=
| Push (fullPath : abspath)         (* allFiles.push(fullPath) *)
| ConsoleWarn (line : string)
| ConsoleError (line : string)
| ReadFileSync (filePath : abspath)
| IncUploaded                       (* uploadedFiles++ *)
| IncFailed                         (* failedFiles++ *)
| ProgressIncrement.                (* progressBar.increment(...) *)

(** The body of an [async function]: a sequence of actions and [await]
    points that ends by returning, by throwing, or never ([Hang]). *)
Inductive proc (A : Type) : Type :=
| Ret (a : A)
| Raise (e : jserror)
| Act (a : action) (k : proc A)
| Await (w : wait) (k : proc A)
| Hang.
Arguments Ret {A} a.
Arguments Raise {A} e.
Arguments Act {A} a k.
Arguments Await {A} w k.
Arguments Hang {A}.

Fixpoint bind {A B : Type} (p : proc A) (f : A -> proc B) : proc B :=
  match p with
  | Ret a => f a
  | Raise e => Raise e
  | Act a k => Act a (bind k f)
  | Await w k => Await w (bind k f)
  | Hang => Hang
  end.

(** [try { body } catch (error) { handler error }] *)
Fixpoint try_catch {A : Type} (body : proc A) (handler : jserror -> proc A)
  : proc A :=
  match body with
  | Ret a => Ret a
  | Raise e => handler e
  | Act a k => Act a (try_catch k handler)
  | Await w k => Await w (try_catch k handler)
  | Hang => Hang
  end.

(** A call that returns or throws at once. *)
Definition lift {A : Type} (c : completion A) : proc A :=
  match c with
  | Normal a => Ret a
  | Throw e => Raise e
  end.

Definition act (a : action) : proc unit := Act a (Ret tt).
Definition await (w : wait) (c : completion unit) : proc unit :=
  Await w (lift c).

Declare Scope proc_scope.
Delimit Scope proc_scope with proc.
Notation "x <- p ;; q" := (bind p (fun x => q))
  (at level 61, p at next level, right associativity) : proc_scope.
Notation "p ;; q" := (bind p (fun _ => q))
  (at level 61, right associativity) : proc_scope.

(** *** The state the effects act on *)

Inductive event :=
| Did (a : action)
| Awaited (w : wait).

Record world := World {
  allFiles : list abspath;
  uploadedFiles : Z;
  failedFiles : Z;
  trace : list event      (* oldest first *)
}.

Definition world0 : world :=
  {| allFiles := []; uploadedFiles := 0; failedFiles := 0; trace := [] |}.

Definition record (e : event) (w : world) : world :=
  {| allFiles := allFiles w; uploadedFiles := uploadedFiles w;
     failedFiles := failedFiles w; trace := trace w ++ [e] |}.

Definition perform (a : action) (w : world) : world :=
  let w' := record (Did a) w in
  match a with
  | Push fullPath =>
      {| allFiles := allFiles w' ++ [fullPath]; uploadedFiles := uploadedFiles w';
         failedFiles := failedFiles w'; trace := trace w' |}
  | IncUploaded =>
      {| allFiles := allFiles w'; uploadedFiles := uploadedFiles w' + 1;
         failedFiles := failedFiles w'; trace := trace w' |}
  | IncFailed =>
      {| allFiles := allFiles w'; uploadedFiles := uploadedFiles w';
         failedFiles := failedFiles w' + 1; trace := trace w' |}
  | _ => w'
  end.

(** Run a body alone to its end, every [await] resuming in turn.
    [None] stands for a body that never ends. *)
Fixpoint run {A : Type} (p : proc A) (w : world) : option (completion A) * world :=
  match p with
  | Ret a => (Some (Normal a), w)
  | Raise e => (Some (Throw e), w)
  | Act a k => run k (perform a w)
  | Await wt k => run k (record (Awaited wt) w)
  | Hang => (None, w)
  end.

(** Run a body up to its next [await] (or to its end): what happens in one
    turn of the event loop. *)
Fixpoint advance {A : Type} (p : proc A) (w : world) : proc A * world :=
  match p with
  | Act a k => advance k (perform a w)
  | Await wt k => (Await wt k, record (Awaited wt) w)
  | other => (other, w)
  end.

(** The promise of a body: pending, fulfilled or rejected. *)
Definition fulfilled {A : Type} (p : proc A) : bool :=
  match p with Ret _ => true | _ => false end.
Definition rejected {A : Type} (p : proc A) : option jserror :=
  match p with Raise e => Some e | _ => None end.
Definition settled {A : Type} (p : proc A) : bool :=
  match p with Ret _ | Raise _ => true | _ => false end.
Definition in_flight {A : Type} (p : proc A) : bool :=
  match p with Await (Send _) _ => true | _ => false end.

(** What a body does and how it ends when it is run alone. *)
Fixpoint events {A : Type} (p : proc A) : list event :=
  match p with
  | Act a k => Did a :: events k
  | Await wt k => Awaited wt :: events k
  | _ => []
  end.

Fixpoint ending {A : Type} (p : proc A) : option (completion A) :=
  match p with
  | Ret a => Some (Normal a)
  | Raise e => Some (Throw e)
  | Act _ k | Await _ k => ending k
  | Hang => None
  end.

Definition apply_event (w : world) (e : event) : world :=
  match e with
  | Did a => perform a w
  | Awaited _ => record e w
  end.

Definition replay (es : list event) (w : world) : world :=
  fold_left apply_event es w.

(** The counter increments a body still has to make. *)
Fixpoint owed {A : Type} (p : proc A) : Z :=
  match p with
  | Act IncUploaded k | Act IncFailed k => 1 + owed k
  | Act _ k | Await _ k => owed k
  | _ => 0
  end.

(** The body ends by returning: it neither throws nor hangs. *)
Fixpoint returns {A : Type} (p : proc A) : bool :=
  match p with
  | Ret _ => true
  | Act _ k | Await _ k => returns k
  | Raise _ | Hang => false
  end.

Definition is_act {A : Type} (p : proc A) : bool :=
  match p with Act _ _ => true | _ => false end.

(** The [await] points a body still has to pass. *)
Fixpoint waits_left {A : Type} (p : proc A) : nat :=
  match p with
  | Await _ k => S (waits_left k)
  | Act _ k => waits_left k
  | _ => O
  end.

(** Readings of a trace. *)
Definition sink_calls (t : list event) : list putObject :=
  flat_map (fun e => match e with Awaited (Send params) => [params] | _ => [] end) t.
Definition sleeps (t : list event) : list Z :=
  flat_map (fun e => match e with Awaited (Sleep ms) => [ms] | _ => [] end) t.
Definition reads (t : list event) : list abspath :=
  flat_map (fun e => match e with Did (ReadFileSync f) => [f] | _ => [] end) t.
Definition warnings (t : list event) : list string :=
  flat_map (fun e => match e with Did (ConsoleWarn l) => [l] | _ => [] end) t.
Definition errors (t : list event) : list string :=
  flat_map (fun e => match e with Did (ConsoleError l) => [l] | _ => [] end) t.

End Proc.
Export Proc.

(* ------------------------------------------------------------------ *)
(** ** The script *)

Module Script.

(** The [config] object (lines 17-24).  The three numbers come from
    [parseInt] of an environment variable; [concurrency] is kept as
    [parseInt] returns it, [NaN] included. *)
Record config := Config {
  bucketName : string;
  region : string;
  baseDir : abspath;
  concurrency : number;
  retryAttempts : Z;
  retryDelay : Z
}.

Definition FOLDERS_TO_UPLOAD : list string := ["ExamGenrator"; "Grand"; "Keylinks"].

(** What [fs] finds below [baseDir].  [Denied] is a directory whose listing
    fails; [Other] is an entry that is neither a directory nor a regular
    file (a symbolic link, a device, a socket). *)
#[local] Unset Elimination Schemes.
Inductive node :=
| File
| Dir (entries : list (string * node))
| Denied (e : jserror)
| Other.
#[local] Set Elimination Schemes.

(** The entries of [baseDir]. *)
Definition filesystem := list (string * node).

Fixpoint find_entry (name : string) (entries : list (string * node)) : option node :=
  match entries with
  | [] => None
  | (n, e) :: rest => if String.eqb n name then Some e else find_entry name rest
  end.

(** What the outside world answers to the call [uploadFile(filePath,
    retryCount)]: the result of its [fs.readFileSync] and the settlement of
    the request it sends. *)
Record environment := Environment {
  readResult : abspath -> Z -> completion string;
  sendResult : abspath -> Z -> completion unit
}.

(** [entry.isDirectory()], [entry.isFile()] *)
Definition isDirectory (n : node) : bool :=
  match n with Dir _ | Denied _ => true | _ => false end.
Definition isFile (n : node) : bool :=
  match n with File => true | _ => false end.

Section Run.

Variable os : platform.
Variable cfg : config.
Variable disk : filesystem.
Variable env : environment.

Local Open Scope proc_scope.

(** [fs.existsSync(path.join(config.baseDir, folder))] *)
Definition existsSync (folder : string) : bool :=
  match find_entry folder disk with Some _ => true | None => false end.

Definition skip_warning (folder : string) : string :=
  "Warning: Folder '" ++ folder ++ "' does not exist and will be skipped.".

Definition scan_error (currentDir : abspath) (error : jserror) : string :=
  "Error scanning directory " ++ render os currentDir ++ ": " ++ message error.

(** The line of [console.error] in [uploadFile]: it starts with a line
    feed. *)
Definition upload_error (filePath : abspath) (error : jserror) : string :=
  String line_feed
    ("Failed to upload " ++ render os filePath ++ ": " ++ message error).

Definition putParams (s3Key fileContent : string) (filePath : abspath) : putObject :=
  {| Bucket := bucketName cfg;
     Key := s3Key;
     Body := fileContent;
     ContentType := getContentType filePath;
     ACL := "public-read" |}.

Definition enotdir (dir : abspath) : jserror :=
  JsError "Error" ("ENOTDIR: not a directory, scandir '" ++ render os dir ++ "'").

(** [scanDir(currentDir)] (lines 71-87); [n] is what [currentDir] names.
    [fs.readdirSync] returns the entries of a directory and throws on
    anything else. *)
Fixpoint scanDir (n : node) (currentDir : abspath) : proc unit :=
  try_catch
    (match n with
     | Dir entries =>
         (fix each (entries : list (string * node)) : proc unit :=
            match entries with
            | [] => Ret tt
            | (name, entry) :: rest =>
                let fullPath := join currentDir name in
                (if isDirectory entry then scanDir entry fullPath
                 else if isFile entry then act (Push fullPath)
                 else Ret tt) ;;
                each rest
            end) entries
     | Denied e => Raise e
     | File | Other => Raise (enotdir currentDir)
     end)
    (fun error => act (ConsoleError (scan_error currentDir error))).

(** [getAllFiles(folders)] (lines 67-101).  The files are left in
    [allFiles]. *)
Fixpoint getAllFiles (folders : list string) : proc unit :=
  match folders with
  | [] => Ret tt
  | folder :: rest =>
      let folderPath := join (baseDir cfg) folder in
      match find_entry folder disk with
      | Some n => scanDir n folderPath
      | None => act (ConsoleWarn (skip_warning folder))
      end ;;
      getAllFiles rest
  end.

(** [uploadFile(filePath, retryCount)] (lines 136-167).  [budget] bounds
    the depth of the recursion; [uploadFile] below gives it the number of
    retries that are left. *)
Fixpoint uploadFile_from (budget : nat) (filePath : abspath) (retryCount : Z)
  : proc bool :=
  try_catch
    (act (ReadFileSync filePath) ;;
     fileContent <- lift (readResult env filePath retryCount) ;;
     s3Key <- lift (resolveKey os (baseDir cfg) filePath) ;;
     let uploadParams := putParams s3Key fileContent filePath in
     await (Send uploadParams) (sendResult env filePath retryCount) ;;
     act IncUploaded ;;
     act ProgressIncrement ;;
     Ret true)
    (fun error =>
       if retryCount <? retryAttempts cfg then
         match budget with
         | S budget' =>
             await (Sleep (retryDelay cfg)) (Normal tt) ;;
             uploadFile_from budget' filePath (retryCount + 1)
         | O => Hang
         end
       else
         act IncFailed ;;
         act ProgressIncrement ;;
         act (ConsoleError (upload_error filePath error)) ;;
         Ret false).

Definition uploadFile (filePath : abspath) (retryCount : Z) : proc bool :=
  uploadFile_from (Z.to_nat (retryAttempts cfg - retryCount)) filePath retryCount.

(** The first loop of [processBatch] (lines 172-177).  [fuel] bounds the
    number of iterations; [None] stands for a loop that does not end. *)
Fixpoint batches_loop {A : Type} (fuel : nat) (files : list A)
    (batchSize i : number) (batches : list (list A)) : option (list (list A)) :=
  if js_lt i (Int (Z.of_nat (List.length files))) then
    match fuel with
    | O => None
    | S fuel' =>
        batches_loop fuel' files batchSize (js_add i batchSize)
                     (batches ++ [slice files (to_integer i)
                                        (to_integer (js_add i batchSize))])
    end
  else Some batches.

Definition make_batches {A : Type} (files : list A) : option (list (list A)) :=
  batches_loop (List.length files) files (concurrency cfg) (Int 0) [].

(** *** The event loop below [processBatch]

    [processBatch] hands the promises of one batch to [Promise.all] and
    awaits it (lines 179-182).  While it waits, the event loop resumes the
    pending bodies one at a time, in any order. *)

Inductive mark :=
| Started (batch slot : nat)    (* uploadFile(file) was called *)
| Settled (batch slot : nat).   (* its promise was fulfilled or rejected *)

Inductive phase :=
| Looping                       (* inside [for (const batch of batches)] *)
| Returned                      (* processBatch returned *)
| Threw (e : jserror).          (* Promise.all rejected: processBatch threw *)

Record sched := Sched {
  now : world;
  launched : nat;               (* batches started so far *)
  running : list (proc bool);   (* the promises given to Promise.all *)
  queue : list (list abspath);  (* the batches not started yet *)
  stage : phase;
  marks : list mark             (* oldest first *)
}.

(** [batch.map(file => uploadFile(file))]: every call runs up to its first
    [await] before the next one is made. *)
Fixpoint launch (b slot : nat) (files : list abspath) (w : world) (ms : list mark)
  : list (proc bool) * world * list mark :=
  match files with
  | [] => ([], w, ms)
  | file :: rest =>
      let '(p, w1) := advance (uploadFile file 0) w in
      let ms1 :=
        (ms ++ Started b slot :: (if settled p then [Settled b slot] else []))%list in
      let '(ps, w2, ms2) := launch b (S slot) rest w1 ms1 in
      (p :: ps, w2, ms2)
  end.

Fixpoint replace_nth {A : Type} (i : nat) (x : A) (l : list A) : list A :=
  match l, i with
  | [], _ => []
  | _ :: l', O => x :: l'
  | y :: l', S i' => y :: replace_nth i' x l'
  end.

Fixpoint first_rejection (ps : list (proc bool)) : option jserror :=
  match ps with
  | [] => None
  | p :: rest =>
      match rejected p with
      | Some e => Some e
      | None => first_rejection rest
      end
  end.

(** A turn of the event loop. *)
Inductive label :=
| Wake (slot : nat)   (* what the body in this slot awaits has settled *)
| Next.               (* the awaited Promise.all has settled *)

Definition step (st : sched) (l : label) : option sched :=
  match stage st with
  | Looping =>
      match l with
      | Wake i =>
          match nth_error (running st) i with
          | Some (Await _ k) =>
              let '(p, w) := advance k (now st) in
              Some {| now := w; launched := launched st;
                      running := replace_nth i p (running st);
                      queue := queue st; stage := Looping;
                      marks := marks st ++
                        (if settled p then [Settled (pred (launched st)) i] else []) |}
          | _ => None
          end
      | Next =>
          match first_rejection (running st) with
          | Some e =>
              Some {| now := now st; launched := launched st;
                      running := running st; queue := queue st;
                      stage := Threw e; marks := marks st |}
          | None =>
              if forallb fulfilled (running st) then
                match queue st with
                | [] =>
                    Some {| now := now st; launched := launched st;
                            running := running st; queue := [];
                            stage := Returned; marks := marks st |}
                | batch :: rest =>
                    let '(ps, w, ms) :=
                      launch (launched st) 0 batch (now st) (marks st) in
                    Some {| now := w; launched := S (launched st);
                            running := ps; queue := rest;
                            stage := Looping; marks := ms |}
                end
              else None
          end
      end
  | _ => None
  end.

Fixpoint exec (st : sched) (turns : list label) : option sched :=
  match turns with
  | [] => Some st
  | l :: rest =>
      match step st l with
      | Some st' => exec st' rest
      | None => None
      end
  end.

(** [processBatch(files)] entered in world [w]: the batches are built, and
    the [for] loop is about to start. *)
Definition processBatch (files : list abspath) (w : world) : option sched :=
  match make_batches files with
  | Some batches =>
      Some {| now := w; launched := 0; running := []; queue := batches;
              stage := Looping; marks := [] |}
  | None => None
  end.

(** *** [main] *)

Record report := Report {
  totalFiles : Z;
  uploaded : Z;
  failed : Z;
  durationSeconds : jsnum;           (* Math.round(duration) *)
  averageSpeed : jsnum               (* Math.round(uploadedFiles / duration) *)
}.

(** [(Date.now() - startTime) / 1000] *)
Definition duration (elapsedMs : Z) : Q :=
  to_double (inject_Z elapsedMs / inject_Z 1000).

Definition summary (total : Z) (w : world) (elapsedMs : Z) : report :=
  {| totalFiles := total;
     uploaded := uploadedFiles w;
     failed := failedFiles w;
     durationSeconds := math_round (Finite (duration elapsedMs));
     averageSpeed :=
       math_round (js_div (inject_Z (uploadedFiles w)) (duration elapsedMs)) |}.

Inductive outcome :=
| Exit (code : Z) (w : world)          (* process.exit(code) *)
| Completed (r : report) (w : world)   (* main ran to its end *)
| Unending                             (* a loop of the script never ends *)
| Unfinished.                          (* the turns given are not a whole run *)

(** [main()] (lines 186-255), for the turns the event loop takes while
    [processBatch] is awaited and the milliseconds between the two readings
    of [Date.now()]. *)
Definition main (turns : list label) (elapsedMs : Z) : outcome :=
  let existingFolders := filter existsSync FOLDERS_TO_UPLOAD in
  if (List.length existingFolders =? 0)%nat then
    Exit 1 (perform (ConsoleError "Error: None of the specified folders exist") world0)
  else
    match run (getAllFiles FOLDERS_TO_UPLOAD) world0 with
    | (None, _) => Unending
    | (Some (Throw error), w) =>
        Exit 1 (perform (ConsoleError ("Error: " ++ message error)) w)
    | (Some (Normal _), w) =>
        let total := Z.of_nat (List.length (allFiles w)) in
        if total =? 0 then Exit 0 w
        else
          match processBatch (allFiles w) w with
          | None => Unending
          | Some st0 =>
              match exec st0 turns with
              | None => Unfinished
              | Some st =>
                  match stage st with
                  | Looping => Unfinished
                  | Threw error =>
                      Exit 1 (perform (ConsoleError ("Error: " ++ message error)) (now st))
                  | Returned => Completed (summary total (now st) elapsedMs) (now st)
                  end
              end
          end
    end.

End Run.

End Script.
Export Script.

(* ------------------------------------------------------------------ *)
(** ** Reference definitions

    What the results of the script are compared with. *)

Module Expect.

(** The regular files below [n], depth first and in listing order; a
    directory that cannot be listed has none. *)
Fixpoint files_below (n : node) (dir : abspath) : list abspath :=
  match n with
  | Dir entries =>
      (fix each (entries : list (string * node)) : list abspath :=
         match entries with
         | [] => []
         | (name, entry) :: rest =>
             ((if isDirectory entry then files_below entry (join dir name)
               else if isFile entry then [join dir name]
               else []) ++ each rest)%list
         end) entries
  | _ => []
  end.

(** One line for every directory below [n] (or [n] itself) that cannot be
    listed. *)
Fixpoint scan_errors (os : platform) (n : node) (dir : abspath) : list string :=
  match n with
  | Dir entries =>
      (fix each (entries : list (string * node)) : list string :=
         match entries with
         | [] => []
         | (name, entry) :: rest =>
             ((if isDirectory entry then scan_errors os entry (join dir name)
               else []) ++ each rest)%list
         end) entries
  | Denied e => [scan_error os dir e]
  | File | Other => [scan_error os dir (enotdir os dir)]
  end.

(** The files [getAllFiles] is to return for a list of folders. *)
Definition files_of (cfg : config) (disk : filesystem) (folder : string)
  : list abspath :=
  match find_entry folder disk with
  | Some n => files_below n (join (baseDir cfg) folder)
  | None => []
  end.

(** Consecutive groups of [c] elements, the last one possibly shorter. *)
Fixpoint chunks {A : Type} (fuel c : nat) (l : list A) : list (list A) :=
  match fuel with
  | O => []
  | S fuel' =>
      match l with
      | [] => []
      | _ => firstn c l :: chunks fuel' c (skipn c l)
      end
  end.

(** [x] between every two neighbours of [l]. *)
Fixpoint intersperse {A : Type} (x : A) (l : list A) : list A :=
  match l with
  | [] => []
  | [a] => [a]
  | a :: rest => a :: x :: intersperse x rest
  end.

(** [p] is [base] or lies below it. *)
Definition under (os : platform) (base p : abspath) : bool :=
  seg_eqb os (drive base) (drive p) &&
  match fst (strip_common os (segs base) (segs p)) with
  | [] => true
  | _ => false
  end.

(** Further readings of a trace. *)
Definition pushes (t : list event) : list abspath :=
  flat_map (fun e => match e with Did (Push f) => [f] | _ => [] end) t.
Definition gains (t : list event) : list bool :=
  flat_map (fun e => match e with
                     | Did IncUploaded => [true]
                     | Did IncFailed => [false]
                     | _ => []
                     end) t.
Definition waits (t : list event) : list wait :=
  flat_map (fun e => match e with Awaited w => [w] | _ => [] end) t.

(** What [scanDir] does with one entry of a listing. *)
Definition visit (os : platform) (dir : abspath) (ne : string * node) : proc unit :=
  let fullPath := join dir (fst ne) in
  if isDirectory (snd ne) then scanDir os (snd ne) fullPath
  else if isFile (snd ne) then act (Push fullPath)
  else Ret tt.

(** The lines [getAllFiles] is to log for folders that cannot be listed. *)
Definition errors_of (os : platform) (cfg : config) (disk : filesystem)
    (folder : string) : list string :=
  match find_entry folder disk with
  | Some n => scan_errors os n (join (baseDir cfg) folder)
  | None => []
  end.

(** How many of the counted outcomes are [b]. *)
Definition tally (b : bool) (l : list bool) : Z :=
  Z.of_nat (List.length (filter (Bool.eqb b) l)).

(** What a scan of [n] does: it returns, pushes the regular files below
    [n], logs one line for every directory it cannot list, and does nothing
    else. *)
Definition scan_ok (os : platform) (n : node) : Prop :=
  forall dir,
    returns (scanDir os n dir) = true
    /\ pushes (events (scanDir os n dir)) = files_below n dir
    /\ errors (events (scanDir os n dir)) = scan_errors os n dir
    /\ warnings (events (scanDir os n dir)) = []
    /\ gains (events (scanDir os n dir)) = [].

(** *** Invariants of the event loop *)

Definition sum_owed (ps : list (proc bool)) : Z :=
  fold_right (fun p acc => owed p + acc) 0 ps.

Definition sum_waits (ps : list (proc bool)) : nat :=
  fold_right (fun p acc => (waits_left p + acc)%nat) 0%nat ps.

(** A body as the event loop holds it: it has run up to an [await] or to
    its end, and it will return. *)
Definition calm (p : proc bool) : Prop :=
  returns p = true /\ is_act p = false.

(** The counters account for every file: a file is counted, or its call is
    running and still owes its increment, or its batch has not started. *)
Definition balanced (total : Z) (st : sched) : Prop :=
  uploadedFiles (now st) + failedFiles (now st) + sum_owed (running st)
  + Z.of_nat (List.length (List.concat (queue st))) = total
  /\ Forall calm (running st)
  /\ match stage st with
     | Looping => True
     | Returned => queue st = [] /\ forallb fulfilled (running st) = true
     | Threw _ => False
     end.

(** The turns a state is away from the end of [processBatch], at most. *)
Definition todo (os : platform) (cfg : config) (env : environment) (st : sched) : nat :=
  (sum_waits (running st)
   + fold_right
       (fun batch acc =>
          S (sum_waits (map (fun file => uploadFile os cfg env file 0) batch)) + acc)
       0 (queue st)
   + match stage st with Looping => 1 | _ => 0 end)%nat.

(** No call of a batch is made before every call of the batches before it
    has settled. *)
Definition barrier_ok (batches : list (list abspath)) (ms : list mark) : Prop :=
  forall pre post b slot,
    ms = (pre ++ Started b slot :: post)%list ->
    forall b' slot',
      (b' < b)%nat -> (slot' < List.length (nth b' batches []))%nat ->
      In (Settled b' slot') pre.

Definition all_settled (batches : list (list abspath)) (upto : nat) (ms : list mark)
  : Prop :=
  forall b slot,
    (b < upto)%nat -> (slot < List.length (nth b batches []))%nat ->
    In (Settled b slot) ms.

(** The state follows the list of batches. *)
Definition aligned (batches : list (list abspath)) (st : sched) : Prop :=
  queue st = skipn (launched st) batches
  /\ (launched st <= List.length batches)%nat
  /\ all_settled batches (pred (launched st)) (marks st)
  /\ List.length (running st)
     = match launched st with
       | O => O
       | S b => List.length (nth b batches [])
       end
  /\ (forall slot p,
        nth_error (running st) slot = Some p -> settled p = true ->
        In (Settled (pred (launched st)) slot) (marks st))
  /\ barrier_ok batches (marks st).

Definition in_flight_count (ps : list (proc bool)) : nat :=
  List.length (filter in_flight ps).

(** A name that holds a backslash. *)
Fixpoint has_backslash (s : string) : bool :=
  match s with
  | EmptyString => false
  | String c rest => Ascii.eqb c backslash || has_backslash rest
  end.

(** Structural induction on a tree of directory entries. *)
Section NodeInduction.

Variable P : node -> Prop.
Hypothesis P_File : P File.
Hypothesis P_Dir :
  forall entries, Forall (fun ne => P (snd ne)) entries -> P (Dir entries).
Hypothesis P_Denied : forall e, P (Denied e).
Hypothesis P_Other : P Other.

Fixpoint node_induction (n : node) : P n :=
  match n with
  | File => P_File
  | Dir entries =>
      P_Dir entries
        ((fix all (l : list (string * node)) : Forall (fun ne => P (snd ne)) l :=
            match l with
            | [] => Forall_nil _
            | ne :: rest => Forall_cons ne (node_induction (snd ne)) (all rest)
            end) entries)
  | Denied e => P_Denied e
  | Other => P_Other
  end.

End NodeInduction.

End Expect.
Export Expect.

(** *** The calls of [uploadFile] for one file *)

Module Attempts.
Section Attempts.

Variable os : platform.
Variable cfg : config.
Variable env : environment.

(** What the [catch] block does for a call made with [retryCount]. *)
Definition on_error (filePath : abspath) (retryCount : Z) (error : jserror)
  : proc bool :=
  if retryCount <? retryAttempts cfg then
    Await (Sleep (retryDelay cfg)) (uploadFile os cfg env filePath (retryCount + 1))
  else
    Act IncFailed
      (Act ProgressIncrement
         (Act (ConsoleError (upload_error os filePath error)) (Ret false))).

(** The key the script computes for a file. *)
Definition key_of (filePath : abspath) : string :=
  replace_backslashes (relative os (baseDir cfg) filePath).

(** The error that ends the call made with [retryCount], if it fails:
    the one thrown by the read, or else the one the request is rejected
    with. *)
Definition attempt_error (filePath : abspath) (retryCount : Z) : option jserror :=
  match readResult env filePath retryCount with
  | Throw error => Some error
  | Normal _ =>
      match sendResult env filePath retryCount with
      | Throw error => Some error
      | Normal _ => None
      end
  end.

(** What that call does before its outcome is known: it reads the file
    and, when the read succeeds, sends the request. *)
Definition attempt_events (filePath : abspath) (retryCount : Z) : list event :=
  Did (ReadFileSync filePath) ::
  match readResult env filePath retryCount with
  | Throw _ => []
  | Normal fileContent =>
      [Awaited (Send (putParams cfg (key_of filePath) fileContent filePath))]
  end.

(** [n] failing calls in a row, each followed by the pause. *)
Fixpoint failed_attempts (n : nat) (filePath : abspath) (retryCount : Z)
  : list event :=
  match n with
  | O => []
  | S n' =>
      (attempt_events filePath retryCount ++
       Awaited (Sleep (retryDelay cfg)) ::
       failed_attempts n' filePath (retryCount + 1))%list
  end.

Definition failure_events (filePath : abspath) (error : jserror) : list event :=
  [Did IncFailed; Did ProgressIncrement;
   Did (ConsoleError (upload_error os filePath error))].

Definition success_events : list event :=
  [Did IncUploaded; Did ProgressIncrement].

End Attempts.
End Attempts.
Export Attempts.

(* ------------------------------------------------------------------ *)
(** ** Sample runs *)

Module Samples.

Definition site : abspath := AbsPath no_drive ["srv"; "site"].

Definition sample_cfg : config :=
  {| bucketName := "assets"; region := "us-east-1"; baseDir := site;
     concurrency := Int 2; retryAttempts := 3; retryDelay := 1000 |}.

(** [ExamGenrator] is missing. *)
Definition sample_disk : filesystem :=
  [ ("Grand", Dir [("a.txt", File); ("img", Dir [("b.png", File)])]);
    ("Keylinks", Dir [("k.json", File)]) ].

Definition sample_file : abspath := AbsPath no_drive ["srv"; "site"; "Grand"; "a.txt"].

Definition always_ok : environment :=
  {| readResult := fun _ _ => Normal "contents";
     sendResult := fun _ _ => Normal tt |}.

Definition sink_down : environment :=
  {| readResult := fun _ _ => Normal "contents";
     sendResult := fun _ _ => Throw (JsError "Error" "socket hang up") |}.

Definition unreadable : environment :=
  {| readResult := fun _ _ => Throw (JsError "Error" "EACCES: permission denied");
     sendResult := fun _ _ => Normal tt |}.

(** The read of the first call fails; the second call goes through. *)
Definition late_read : environment :=
  {| readResult := fun _ retryCount =>
       if retryCount <? 1 then Throw (JsError "Error" "EBUSY: resource busy")
       else Normal "contents";
     sendResult := fun _ _ => Normal tt |}.

(** Two batches, [a.txt; b.png] and [k.json], each call resumed once. *)
Definition sample_turns : list label :=
  [Next; Wake 0; Wake 1; Next; Wake 0; Next].

(** A folder of a POSIX system with a file whose name holds a backslash. *)
Definition odd_disk : filesystem :=
  [ ("Grand", Dir [("a\b.txt", File); ("a", Dir [("b.txt", File)])]) ].

Definition odd_file : abspath := AbsPath no_drive ["srv"; "site"; "Grand"; "a\b.txt"].

(** A file that is not below [site]. *)
Definition outside_file : abspath := AbsPath no_drive ["etc"; "passwd"].
Definition plain_file : abspath := AbsPath no_drive ["srv"; "site"; "Grand"; "a"; "b.txt"].

(** A single file that cannot be read, and no retry. *)
Definition hasty_cfg : config :=
  {| bucketName := "assets"; region := "us-east-1"; baseDir := site;
     concurrency := Int 20; retryAttempts := 0; retryDelay := 1000 |}.

End Samples.
Export Samples.

(* ------------------------------------------------------------------ *)
(** ** Further readings and measures *)

Module Further.

(** The calls of [progressBar.increment] in a trace. *)
Definition progress_steps (t : list event) : list unit :=
  flat_map (fun e => match e with Did ProgressIncrement => [tt] | _ => [] end) t.

(** An event of the scan: a file found, or a line on the console. *)
Definition scan_event (e : event) : bool :=
  match e with
  | Did (Push _) | Did (ConsoleWarn _) | Did (ConsoleError _) => true
  | _ => false
  end.

(** The [uploadedFiles++] a body still has to make. *)
Fixpoint wins {A : Type} (p : proc A) : Z :=
  match p with
  | Act IncUploaded k => 1 + wins k
  | Act _ k | Await _ k => wins k
  | _ => 0
  end.

Definition sum_wins (ps : list (proc bool)) : Z :=
  fold_right (fun p acc => wins p + acc) 0 ps.

(** The file is uploaded in the end, when its calls are run alone. *)
Definition succeeds (os : platform) (cfg : config) (env : environment)
    (filePath : abspath) : bool :=
  match ending (uploadFile os cfg env filePath 0) with
  | Some (Normal true) => true
  | _ => false
  end.

(** The files of a list that are uploaded in the end. *)
Definition successes (os : platform) (cfg : config) (env : environment)
    (files : list abspath) : Z :=
  Z.of_nat (List.length (filter (succeeds os cfg env) files)).

(** The events a body held by the event loop has not made yet: those after
    the [await] it is waiting at. *)
Definition remaining {A : Type} (p : proc A) : list event :=
  match p with
  | Await _ k => events k
  | other => events other
  end.

(** What the calls for a list of files do when they are run alone, one
    after the other. *)
Definition alone (os : platform) (cfg : config) (env : environment)
    (files : list abspath) : list event :=
  flat_map (fun file => events (uploadFile os cfg env file 0)) files.

(** The reads the calls for a file make when they are run alone. *)
Definition attempts (os : platform) (cfg : config) (env : environment)
    (filePath : abspath) : nat :=
  List.length (reads (events (uploadFile os cfg env filePath 0))).

Definition abspath_eq_dec (a b : abspath) : {a = b} + {a <> b}.
Proof. decide equality; [apply (list_eq_dec string_dec) | apply string_dec]. Defined.

Definition putObject_eq_dec (a b : putObject) : {a = b} + {a <> b}.
Proof. decide equality; apply string_dec. Defined.

(** For a count [c] of events: what is in the trace, what the running
    calls will add and what the batches not started will add. *)
Definition accounted (os : platform) (cfg : config) (env : environment)
    (c : list event -> nat) (total : nat) (st : sched) : Prop :=
  (c (trace (now st))
   + c (flat_map remaining (running st))
   + c (alone os cfg env (List.concat (queue st))) = total)%nat.

(** Every file is accounted for in [uploadedFiles]: it is counted, or its
    call is running and will count it, or its batch has not started. *)
Definition won (os : platform) (cfg : config) (env : environment)
    (total : Z) (st : sched) : Prop :=
  uploadedFiles (now st) + sum_wins (running st)
  + successes os cfg env (List.concat (queue st)) = total.

End Further.
Export Further.

(* ------------------------------------------------------------------ *)
(** ** The settings read from the environment (lines 17-24) *)

Module Startup.

(** [process.env]: a variable is undefined or holds a string (kept as its
    UTF-8 bytes). *)
Definition getenv := string -> option string.

(** [!value] for such a value: undefined and the empty string are falsy. *)
Definition falsy (value : option string) : bool :=
  match value with
  | Some (String _ _) => false
  | _ => true
  end.

(** [value || fallback] *)
Definition or_else (value : option string) (fallback : string) : string :=
  match value with
  | Some (String c rest) => String c rest
  | _ => fallback
  end.

(** What [parseInt] returns: [NaN], an integer that a Number holds exactly,
    or the Number nearest to an integer beyond [2^53]. *)
Inductive parsed :=
| NotANumber
| Integer (z : Z)
| Rounded.

(** The text after the white space a string starts with: the ASCII white
    space and line ends, and the UTF-8 bytes of U+00A0, U+1680,
    U+2000..U+200A, U+2028, U+2029, U+202F, U+205F, U+3000 and U+FEFF. *)
Fixpoint trimStart (s : string) : string :=
  match s with
  | String c rest =>
      let n := nat_of_ascii c in
      if ((9 <=? n) && (n <=? 13) || (n =? 32))%nat then trimStart rest
      else
        match rest with
        | String c2 rest2 =>
            let n2 := nat_of_ascii c2 in
            if ((n =? 194) && (n2 =? 160))%nat then trimStart rest2
            else
              match rest2 with
              | String c3 rest3 =>
                  let n3 := nat_of_ascii c3 in
                  if ((n =? 225) && (n2 =? 154) && (n3 =? 128)
                      || (n =? 226) && (n2 =? 128)
                         && ((128 <=? n3) && (n3 <=? 138) || (n3 =? 168)
                             || (n3 =? 169) || (n3 =? 175))
                      || (n =? 226) && (n2 =? 129) && (n3 =? 159)
                      || (n =? 227) && (n2 =? 128) && (n3 =? 128)
                      || (n =? 239) && (n2 =? 187) && (n3 =? 191))%nat
                  then trimStart rest3
                  else s
              | EmptyString => s
              end
        | EmptyString => s
        end
  | EmptyString => s
  end.

Definition digit_of (c : ascii) : option Z :=
  let n := nat_of_ascii c in
  if ((48 <=? n) && (n <=? 57))%nat then Some (Z.of_nat (n - 48)) else None.

(** The value of the decimal digits a string starts with, after [acc];
    [seen] tells whether a digit was read already. *)
Fixpoint leading_digits (s : string) (acc : Z) (seen : bool) : option Z :=
  match s with
  | String c rest =>
      match digit_of c with
      | Some d => leading_digits rest (10 * acc + d) true
      | None => if seen then Some acc else None
      end
  | EmptyString => if seen then Some acc else None
  end.

(** [parseInt(s, 10)] *)
Definition parseInt (s : string) : parsed :=
  let trimmed := trimStart s in
  let '(negative, digits) :=
    match trimmed with
    | String c rest =>
        if Ascii.eqb c "-" then (true, rest)
        else if Ascii.eqb c "+" then (false, rest)
        else (false, trimmed)
    | EmptyString => (false, trimmed)
    end in
  match leading_digits digits 0 false with
  | None => NotANumber
  | Some m =>
      if m <=? 2 ^ 53 then Integer (if negative then - m else m) else Rounded
  end.

(** The fields of [config] that come from the environment. *)
Record settings := Settings {
  env_bucketName : string;
  env_region : string;
  env_concurrency : parsed;
  env_retryAttempts : parsed;
  env_retryDelay : parsed
}.

Definition loadConfig (env : getenv) : settings :=
  {| env_bucketName := or_else (env "AWS_S3_BUCKET_NAME") EmptyString;
     env_region := or_else (env "AWS_REGION") "us-east-1";
     env_concurrency := parseInt (or_else (env "CONCURRENCY") "20");
     env_retryAttempts := parseInt (or_else (env "RETRY_ATTEMPTS") "3");
     env_retryDelay := parseInt (or_else (env "RETRY_DELAY") "1000") |}.

(** [config.concurrency] for what [parseInt] returned, when that is [NaN]
    or an integer that a Number holds exactly. *)
Definition to_number (p : parsed) : option number :=
  match p with
  | NotANumber => Some Nan
  | Integer z => Some (Int z)
  | Rounded => None
  end.

(** The [config] object, when [retryAttempts] and [retryDelay] are integers
    and [concurrency] is one or [NaN]. *)
Definition to_config (s : settings) (cwd : abspath) : option config :=
  match to_number (env_concurrency s), env_retryAttempts s, env_retryDelay s with
  | Some c, Integer r, Integer d =>
      Some {| bucketName := env_bucketName s; region := env_region s;
              baseDir := cwd; concurrency := c; retryAttempts := r;
              retryDelay := d |}
  | _, _, _ => None
  end.

(** The decimal writing of a natural number. *)
Definition decimal (n : N) : string := NilZero.string_of_uint (N.to_uint n).

(** A text that does not go on with a digit. *)
Definition no_digit_ahead (tail : string) : Prop :=
  match tail with
  | String c _ => digit_of c = None
  | EmptyString => True
  end.

End Startup.
Export Startup.

(* ------------------------------------------------------------------ *)
(** ** Effect trees: general facts *)

Section ProcFacts.

Context {A : Type}.

Lemma trace_record e w : trace (record e w) = (trace w ++ [e])%list.
Proof. reflexivity. Qed.

Lemma trace_perform a w : trace (perform a w) = (trace w ++ [Did a])%list.
Proof. destruct a; reflexivity. Qed.

Lemma trace_apply_event w e : trace (apply_event w e) = (trace w ++ [e])%list.
Proof. destruct e; [apply trace_perform | reflexivity]. Qed.

Lemma replay_app es1 es2 w : replay (es1 ++ es2) w = replay es2 (replay es1 w).
Proof. apply fold_left_app. Qed.

Lemma trace_replay es : forall w, trace (replay es w) = (trace w ++ es)%list.
Proof.
  induction es as [|e es IH]; intros w; simpl.
  - now rewrite app_nil_r.
  - rewrite IH, trace_apply_event, <- app_assoc. reflexivity.
Qed.

Lemma run_replay (p : proc A) : forall w, run p w = (ending p, replay (events p) w).
Proof.
  induction p as [a|e|a k IH|wt k IH|]; intros w; simpl; try reflexivity; apply IH.
Qed.

Lemma try_catch_returns (p : proc A) h : returns p = true -> try_catch p h = p.
Proof.
  induction p as [a|e|a k IH|wt k IH|]; simpl; intros H;
    try reflexivity; try discriminate; now rewrite IH.
Qed.

Lemma returns_ending (p : proc A) :
  returns p = true <-> exists a, ending p = Some (Normal a).
Proof.
  induction p as [a|e|a k IH|wt k IH|]; simpl; try exact IH.
  - split; [now exists a | reflexivity].
  - split; [discriminate | intros [a H]; discriminate].
  - split; [discriminate | intros [a H]; discriminate].
Qed.

Lemma owed_nonneg (p : proc A) : 0 <= owed p.
Proof.
  induction p as [a|e|a k IH|wt k IH|]; cbn [owed]; try lia.
  destruct a; lia.
Qed.

Lemma owed_settled (p : proc A) : settled p = true -> owed p = 0.
Proof. destruct p; simpl; intros H; try discriminate; reflexivity. Qed.

Lemma uploadedFiles_replay es :
  forall w, uploadedFiles (replay es w) = uploadedFiles w + tally true (gains es).
Proof.
  unfold tally, gains.
  induction es as [|e es IH]; intros w; cbn [replay fold_left].
  - cbn. lia.
  - fold (replay es (apply_event w e)). rewrite IH.
    destruct e as [[]|];
      cbn [apply_event perform record uploadedFiles flat_map app filter
           Bool.eqb List.length]; lia.
Qed.

Lemma failedFiles_replay es :
  forall w, failedFiles (replay es w) = failedFiles w + tally false (gains es).
Proof.
  unfold tally, gains.
  induction es as [|e es IH]; intros w; cbn [replay fold_left].
  - cbn. lia.
  - fold (replay es (apply_event w e)). rewrite IH.
    destruct e as [[]|];
      cbn [apply_event perform record failedFiles flat_map app filter
           Bool.eqb List.length]; lia.
Qed.

Lemma allFiles_replay es :
  forall w, allFiles (replay es w) = (allFiles w ++ pushes es)%list.
Proof.
  unfold pushes.
  induction es as [|e es IH]; intros w; cbn [replay fold_left].
  - cbn. now rewrite app_nil_r.
  - fold (replay es (apply_event w e)). rewrite IH.
    destruct e as [[]|]; cbn; rewrite <- ?app_assoc; reflexivity.
Qed.

End ProcFacts.

(* ------------------------------------------------------------------ *)
(** ** [uploadFile]: one call, seen from the outside *)

Section UploadFacts.

Variable os : platform.
Variable cfg : config.
Variable env : environment.

(** The body of [uploadFile] with its [try]/[catch] resolved. *)
Lemma uploadFile_equation filePath retryCount :
  uploadFile os cfg env filePath retryCount =
  Act (ReadFileSync filePath)
    match readResult env filePath retryCount with
    | Throw error => on_error os cfg env filePath retryCount error
    | Normal fileContent =>
        Await (Send (putParams cfg (key_of os cfg filePath) fileContent filePath))
          match sendResult env filePath retryCount with
          | Throw error => on_error os cfg env filePath retryCount error
          | Normal _ => Act IncUploaded (Act ProgressIncrement (Ret true))
          end
    end.
Proof.
  unfold uploadFile, on_error.
  destruct (retryCount <? retryAttempts cfg) eqn:E.
  - apply Z.ltb_lt in E.
    replace (Z.to_nat (retryAttempts cfg - retryCount))
      with (S (Z.to_nat (retryAttempts cfg - (retryCount + 1)))) by lia.
    cbn [uploadFile_from].
    apply Z.ltb_lt in E. rewrite E.
    destruct (readResult env filePath retryCount); cbn; [|reflexivity].
    destruct (sendResult env filePath retryCount) as [[]|]; reflexivity.
  - destruct (Z.to_nat (retryAttempts cfg - retryCount));
      cbn [uploadFile_from]; rewrite E;
      (destruct (readResult env filePath retryCount); cbn; [|reflexivity]);
      destruct (sendResult env filePath retryCount) as [[]|]; reflexivity.
Qed.

Lemma events_uploadFile filePath retryCount :
  events (uploadFile os cfg env filePath retryCount) =
  (attempt_events os cfg env filePath retryCount ++
   match attempt_error env filePath retryCount with
   | None => success_events
   | Some error =>
       if retryCount <? retryAttempts cfg then
         Awaited (Sleep (retryDelay cfg)) ::
         events (uploadFile os cfg env filePath (retryCount + 1))
       else failure_events os filePath error
   end)%list.
Proof.
  rewrite (uploadFile_equation filePath retryCount).
  unfold attempt_events, attempt_error, on_error.
  destruct (readResult env filePath retryCount);
    [destruct (sendResult env filePath retryCount)|];
    try reflexivity;
    destruct (retryCount <? retryAttempts cfg); reflexivity.
Qed.

Lemma ending_uploadFile filePath retryCount :
  ending (uploadFile os cfg env filePath retryCount) =
  match attempt_error env filePath retryCount with
  | None => Some (Normal true)
  | Some _ =>
      if retryCount <? retryAttempts cfg then
        ending (uploadFile os cfg env filePath (retryCount + 1))
      else Some (Normal false)
  end.
Proof.
  rewrite (uploadFile_equation filePath retryCount).
  unfold attempt_error, on_error.
  destruct (readResult env filePath retryCount);
    [destruct (sendResult env filePath retryCount)|];
    try reflexivity;
    destruct (retryCount <? retryAttempts cfg); reflexivity.
Qed.

(** A call returns, whatever the outside world answers, and makes one
    counter increment on the way. *)
Lemma uploadFile_sound filePath :
  forall n retryCount,
    Z.to_nat (retryAttempts cfg - retryCount) = n ->
    returns (uploadFile os cfg env filePath retryCount) = true
    /\ owed (uploadFile os cfg env filePath retryCount) = 1.
Proof.
  induction n as [|n IH]; intros retryCount Hn;
    rewrite (uploadFile_equation filePath retryCount); unfold on_error;
    destruct (retryCount <? retryAttempts cfg) eqn:E;
    try (apply Z.ltb_lt in E; lia).
  - destruct (readResult env filePath retryCount);
      [destruct (sendResult env filePath retryCount)|]; split; reflexivity.
  - destruct (IH (retryCount + 1)) as [Hr Ho]; [apply Z.ltb_lt in E; lia|].
    destruct (readResult env filePath retryCount);
      [destruct (sendResult env filePath retryCount)|]; cbn;
      rewrite ?Hr, ?Ho; split; reflexivity.
  - destruct (readResult env filePath retryCount);
      [destruct (sendResult env filePath retryCount)|]; split; reflexivity.
Qed.

Lemma uploadFile_returns filePath retryCount :
  returns (uploadFile os cfg env filePath retryCount) = true.
Proof. now apply (uploadFile_sound filePath _ retryCount eq_refl). Qed.

Lemma uploadFile_owed filePath retryCount :
  owed (uploadFile os cfg env filePath retryCount) = 1.
Proof. now apply (uploadFile_sound filePath _ retryCount eq_refl). Qed.

(** [n] failing calls from [retryCount] on, all within the retry limit,
    lead to the call with [retryCount + n]. *)
Lemma uploadFile_after_failures filePath :
  forall n retryCount,
    (forall i, retryCount <= i < retryCount + Z.of_nat n ->
               attempt_error env filePath i <> None) ->
    retryCount + Z.of_nat n <= retryAttempts cfg ->
    events (uploadFile os cfg env filePath retryCount) =
      (failed_attempts os cfg env n filePath retryCount ++
       events (uploadFile os cfg env filePath (retryCount + Z.of_nat n)))%list
    /\ ending (uploadFile os cfg env filePath retryCount) =
       ending (uploadFile os cfg env filePath (retryCount + Z.of_nat n)).
Proof.
  induction n as [|n IH]; intros retryCount Hfail Hle.
  - rewrite Z.add_0_r. split; reflexivity.
  - destruct (IH (retryCount + 1)) as [IHe IHr]; [intros i Hi; apply Hfail; lia | lia |].
    replace (retryCount + 1 + Z.of_nat n) with (retryCount + Z.of_nat (S n)) in * by lia.
    rewrite (events_uploadFile filePath retryCount),
            (ending_uploadFile filePath retryCount).
    destruct (attempt_error env filePath retryCount) eqn:Herr;
      [|exfalso; apply (Hfail retryCount); [lia | exact Herr]].
    replace (retryCount <? retryAttempts cfg) with true
      by (symmetry; apply Z.ltb_lt; lia).
    rewrite IHe, IHr. cbn [failed_attempts].
    rewrite <- app_assoc. split; reflexivity.
Qed.

(** Every call fails: the last one, made with [retryCount = retryAttempts],
    counts the file as failed. *)
Lemma uploadFile_exhausted filePath :
  0 <= retryAttempts cfg ->
  (forall i, 0 <= i <= retryAttempts cfg -> attempt_error env filePath i <> None) ->
  exists error,
    attempt_error env filePath (retryAttempts cfg) = Some error
    /\ events (uploadFile os cfg env filePath 0) =
       (failed_attempts os cfg env (Z.to_nat (retryAttempts cfg)) filePath 0 ++
        attempt_events os cfg env filePath (retryAttempts cfg) ++
        failure_events os filePath error)%list
    /\ ending (uploadFile os cfg env filePath 0) = Some (Normal false).
Proof.
  intros Hr Hfail.
  destruct (uploadFile_after_failures filePath (Z.to_nat (retryAttempts cfg)) 0)
    as [He Hend]; [intros i Hi; apply Hfail; lia | lia |].
  replace (0 + Z.of_nat (Z.to_nat (retryAttempts cfg))) with (retryAttempts cfg)
    in * by lia.
  rewrite He, Hend, events_uploadFile, ending_uploadFile.
  destruct (attempt_error env filePath (retryAttempts cfg)) as [error|] eqn:Herr;
    [|exfalso; apply (Hfail (retryAttempts cfg)); [lia | exact Herr]].
  rewrite Z.ltb_irrefl. exists error. repeat split; reflexivity.
Qed.

(** The calls made with [0 .. k-1] fail and the call made with [k]
    succeeds. *)
Lemma uploadFile_succeeds filePath k :
  0 <= k <= retryAttempts cfg ->
  (forall i, 0 <= i < k -> attempt_error env filePath i <> None) ->
  attempt_error env filePath k = None ->
  events (uploadFile os cfg env filePath 0) =
    (failed_attempts os cfg env (Z.to_nat k) filePath 0 ++
     attempt_events os cfg env filePath k ++ success_events)%list
  /\ ending (uploadFile os cfg env filePath 0) = Some (Normal true).
Proof.
  intros Hk Hfail Hok.
  destruct (uploadFile_after_failures filePath (Z.to_nat k) 0)
    as [He Hend]; [intros i Hi; apply Hfail; lia | lia |].
  replace (0 + Z.of_nat (Z.to_nat k)) with k in * by lia.
  rewrite He, Hend, events_uploadFile, ending_uploadFile, Hok.
  split; reflexivity.
Qed.

End UploadFacts.

(* ------------------------------------------------------------------ *)
(** ** Readings of the calls made for one file *)

Section AttemptReadings.

Variable os : platform.
Variable cfg : config.
Variable env : environment.
Variable filePath : abspath.

Lemma sleeps_failed_attempts n :
  forall rc, sleeps (failed_attempts os cfg env n filePath rc)
             = repeat (retryDelay cfg) n.
Proof.
  unfold sleeps.
  induction n as [|n IH]; intros rc; [reflexivity|].
  cbn [failed_attempts]. rewrite flat_map_app. cbn [flat_map].
  rewrite IH. unfold attempt_events.
  destruct (readResult env filePath rc); reflexivity.
Qed.

Lemma reads_failed_attempts n :
  forall rc, reads (failed_attempts os cfg env n filePath rc) = repeat filePath n.
Proof.
  unfold reads.
  induction n as [|n IH]; intros rc; [reflexivity|].
  cbn [failed_attempts]. rewrite flat_map_app. cbn [flat_map].
  rewrite IH. unfold attempt_events.
  destruct (readResult env filePath rc); reflexivity.
Qed.

Lemma gains_failed_attempts n :
  forall rc, gains (failed_attempts os cfg env n filePath rc) = [].
Proof.
  unfold gains.
  induction n as [|n IH]; intros rc; [reflexivity|].
  cbn [failed_attempts]. rewrite flat_map_app. cbn [flat_map].
  rewrite IH. unfold attempt_events.
  destruct (readResult env filePath rc); reflexivity.
Qed.

(** When the reads fail, nothing is sent. *)
Lemma sink_calls_unread n :
  forall rc,
    (forall i, rc <= i < rc + Z.of_nat n ->
               exists error, readResult env filePath i = Throw error) ->
    sink_calls (failed_attempts os cfg env n filePath rc) = [].
Proof.
  unfold sink_calls.
  induction n as [|n IH]; intros rc Hread; [reflexivity|].
  cbn [failed_attempts]. rewrite flat_map_app. cbn [flat_map].
  rewrite IH by (intros i Hi; apply Hread; lia).
  unfold attempt_events.
  destruct (Hread rc) as [error ->]; [lia|]. reflexivity.
Qed.

(** When the reads succeed, every call sends one request, and the pauses
    lie between the requests. *)
Lemma sink_calls_read n :
  forall rc,
    (forall i, rc <= i < rc + Z.of_nat n ->
               exists content, readResult env filePath i = Normal content) ->
    List.length (sink_calls (failed_attempts os cfg env n filePath rc)) = n.
Proof.
  unfold sink_calls.
  induction n as [|n IH]; intros rc Hread; [reflexivity|].
  cbn [failed_attempts]. rewrite flat_map_app, length_app. cbn [flat_map app].
  rewrite IH by (intros i Hi; apply Hread; lia).
  unfold attempt_events.
  destruct (Hread rc) as [content ->]; [lia|]. reflexivity.
Qed.

Lemma waits_read n :
  forall rc rest,
    (forall i, rc <= i < rc + Z.of_nat n ->
               exists content, readResult env filePath i = Normal content) ->
    sink_calls rest <> [] ->
    waits rest = intersperse (Sleep (retryDelay cfg)) (map Send (sink_calls rest)) ->
    waits (failed_attempts os cfg env n filePath rc ++ rest) =
    intersperse (Sleep (retryDelay cfg))
      (map Send (sink_calls (failed_attempts os cfg env n filePath rc ++ rest))).
Proof.
  induction n as [|n IH]; intros rc rest Hread Hne Hrest; [exact Hrest|].
  cbn [failed_attempts]. unfold attempt_events.
  destruct (Hread rc) as [content ->]; [lia|].
  specialize (IH (rc + 1) rest).
  unfold waits, sink_calls in *.
  cbn [app flat_map map].
  rewrite IH; [| intros i Hi; apply Hread; lia | exact Hne | exact Hrest].
  rewrite flat_map_app.
  destruct (flat_map _ (failed_attempts os cfg env n filePath (rc + 1)) ++ flat_map _ rest)%list
    as [|p l] eqn:E.
  - apply app_eq_nil in E. destruct E as [_ E]. contradiction.
  - reflexivity.
Qed.

End AttemptReadings.

(* ------------------------------------------------------------------ *)
(** ** The retry bound *)

Section RetryBound.

Variable os : platform.
Variable cfg : config.
Variable env : environment.
Variable filePath : abspath.

Lemma read_and_rejected i :
  (exists content, readResult env filePath i = Normal content) ->
  (exists error, sendResult env filePath i = Throw error) ->
  attempt_error env filePath i <> None.
Proof.
  intros [content Hc] [error He]. unfold attempt_error.
  rewrite Hc, He. discriminate.
Qed.

Lemma unread i :
  (exists error, readResult env filePath i = Throw error) ->
  attempt_error env filePath i <> None.
Proof.
  intros [error He]. unfold attempt_error. rewrite He. discriminate.
Qed.

Lemma tail_readings_read i (tail : list event) :
  (exists content, readResult env filePath i = Normal content) ->
  sleeps tail = [] -> sink_calls tail = [] -> waits tail = [] ->
  let rest := (attempt_events os cfg env filePath i ++ tail)%list in
  List.length (sink_calls rest) = 1%nat
  /\ sleeps rest = []
  /\ waits rest = intersperse (Sleep (retryDelay cfg)) (map Send (sink_calls rest)).
Proof.
  intros [content Hc] Hs Hk Hw. unfold attempt_events. rewrite Hc.
  unfold sink_calls, sleeps, waits in *. cbn [app flat_map].
  rewrite Hs, Hk, Hw. repeat split; reflexivity.
Qed.

Lemma sink_calls_app t1 t2 : sink_calls (t1 ++ t2) = (sink_calls t1 ++ sink_calls t2)%list.
Proof. apply flat_map_app. Qed.
Lemma sleeps_app t1 t2 : sleeps (t1 ++ t2) = (sleeps t1 ++ sleeps t2)%list.
Proof. apply flat_map_app. Qed.
Lemma reads_app t1 t2 : reads (t1 ++ t2) = (reads t1 ++ reads t2)%list.
Proof. apply flat_map_app. Qed.
Lemma gains_app t1 t2 : gains (t1 ++ t2) = (gains t1 ++ gains t2)%list.
Proof. apply flat_map_app. Qed.

Lemma gains_attempt_events i : gains (attempt_events os cfg env filePath i) = [].
Proof. unfold attempt_events. destruct (readResult env filePath i); reflexivity. Qed.

(** The readings of a run that ends with the call made with [last], after
    [last] failing calls whose reads succeeded. *)
Lemma readings_read last (tail : list event) :
  0 <= last ->
  (forall i, 0 <= i <= last ->
             exists content, readResult env filePath i = Normal content) ->
  sleeps tail = [] -> sink_calls tail = [] -> waits tail = [] ->
  let t := (failed_attempts os cfg env (Z.to_nat last) filePath 0 ++
            attempt_events os cfg env filePath last ++ tail)%list in
  Z.of_nat (List.length (sink_calls t)) = last + 1
  /\ sleeps t = repeat (retryDelay cfg) (Z.to_nat last)
  /\ waits t = intersperse (Sleep (retryDelay cfg)) (map Send (sink_calls t))
  /\ gains t = gains tail.
Proof.
  intros Hlast Hread Hs Hk Hw t.
  destruct (tail_readings_read last tail) as (Hlen & Hsl & Hwt);
    [apply Hread; lia | assumption..|].
  repeat split.
  - unfold t. rewrite sink_calls_app, length_app, Hlen, sink_calls_read; [lia|].
    intros i Hi. apply Hread. lia.
  - unfold t. rewrite sleeps_app, Hsl, sleeps_failed_attempts, app_nil_r. reflexivity.
  - unfold t. apply waits_read; [intros i Hi; apply Hread; lia | | exact Hwt].
    intros E. rewrite E in Hlen. discriminate.
  - unfold t. rewrite !gains_app, gains_failed_attempts, gains_attempt_events.
    reflexivity.
Qed.

End RetryBound.

(** C2, amended.  For a file that is read successfully by every call:
    when every request is rejected, the file is sent [retryAttempts + 1]
    times, with a pause of [retryDelay] between two requests, and is counted
    as failed once; when the request of the [k]-th call is the first one to
    succeed, the file is sent [k] times and is counted as uploaded once. *)
Theorem retry_bound (os : platform) (cfg : config) (env : environment)
    (filePath : abspath) (w : world) :
  0 <= retryAttempts cfg ->
  (forall i, 0 <= i <= retryAttempts cfg ->
             exists content, readResult env filePath i = Normal content) ->
  let result := run (uploadFile os cfg env filePath 0) w in
  ((forall i, 0 <= i <= retryAttempts cfg ->
              exists error, sendResult env filePath i = Throw error) ->
   exists t,
     fst result = Some (Normal false)
     /\ trace (snd result) = (trace w ++ t)%list
     /\ Z.of_nat (List.length (sink_calls t)) = retryAttempts cfg + 1
     /\ sleeps t = repeat (retryDelay cfg) (Z.to_nat (retryAttempts cfg))
     /\ waits t = intersperse (Sleep (retryDelay cfg)) (map Send (sink_calls t))
     /\ gains t = [false]
     /\ failedFiles (snd result) = failedFiles w + 1
     /\ uploadedFiles (snd result) = uploadedFiles w)
  /\
  (forall k, 1 <= k <= retryAttempts cfg + 1 ->
     (forall i, 0 <= i < k - 1 ->
                exists error, sendResult env filePath i = Throw error) ->
     sendResult env filePath (k - 1) = Normal tt ->
     exists t,
       fst result = Some (Normal true)
       /\ trace (snd result) = (trace w ++ t)%list
       /\ Z.of_nat (List.length (sink_calls t)) = k
       /\ sleeps t = repeat (retryDelay cfg) (Z.to_nat (k - 1))
       /\ waits t = intersperse (Sleep (retryDelay cfg)) (map Send (sink_calls t))
       /\ gains t = [true]
       /\ uploadedFiles (snd result) = uploadedFiles w + 1
       /\ failedFiles (snd result) = failedFiles w).
Proof.
  intros Hr Hread result. unfold result. rewrite run_replay.
  cbn [fst snd]. split.
  - intros Hsend.
    destruct (uploadFile_exhausted os cfg env filePath Hr) as (error & _ & He & Hend).
    { intros i Hi. apply read_and_rejected; auto. }
    destruct (readings_read os cfg env filePath (retryAttempts cfg)
                (failure_events os filePath error) Hr Hread eq_refl eq_refl eq_refl)
      as (Hlen & Hsl & Hwt & Hg).
    exists (events (uploadFile os cfg env filePath 0)).
    rewrite trace_replay, failedFiles_replay, uploadedFiles_replay, Hend, He, Hg.
    repeat split; try assumption; try reflexivity; unfold tally; cbn; lia.
  - intros k Hk Hsend Hok.
    destruct (uploadFile_succeeds os cfg env filePath (k - 1)) as (He & Hend).
    { lia. }
    { intros i Hi. apply read_and_rejected; [apply Hread; lia | apply Hsend; lia]. }
    { unfold attempt_error. destruct (Hread (k - 1)) as [content ->]; [lia|].
      now rewrite Hok. }
    destruct (readings_read os cfg env filePath (k - 1) success_events)
      as (Hlen & Hsl & Hwt & Hg); try reflexivity; [lia | intros i Hi; apply Hread; lia |].
    exists (events (uploadFile os cfg env filePath 0)).
    rewrite trace_replay, failedFiles_replay, uploadedFiles_replay, Hend, He, Hg.
    repeat split; try assumption; try reflexivity; try lia; unfold tally; cbn; lia.
Qed.

(** C10.  A read that throws is caught by the same [catch] block as a
    rejected request: the call has sent nothing, pauses for [retryDelay] and
    calls [uploadFile] again, which reads the file again and builds the
    request from what it has just read; when no retry is left the file is
    counted as failed, once. *)
Theorem read_failure_retried (os : platform) (cfg : config) (env : environment)
    (filePath : abspath) (w : world) :
  0 <= retryAttempts cfg ->
  (forall rc error,
     readResult env filePath rc = Throw error ->
     uploadFile os cfg env filePath rc =
     Act (ReadFileSync filePath) (on_error os cfg env filePath rc error))
  /\ (forall rc content,
        readResult env filePath rc = Normal content ->
        uploadFile os cfg env filePath rc =
        Act (ReadFileSync filePath)
          (Await (Send {| Bucket := bucketName cfg;
                          Key := key_of os cfg filePath;
                          Body := content;
                          ContentType := getContentType filePath;
                          ACL := "public-read" |})
             match sendResult env filePath rc with
             | Throw error => on_error os cfg env filePath rc error
             | Normal _ => Act IncUploaded (Act ProgressIncrement (Ret true))
             end))
  /\ (forall rc error,
        rc < retryAttempts cfg ->
        on_error os cfg env filePath rc error =
        Await (Sleep (retryDelay cfg)) (uploadFile os cfg env filePath (rc + 1)))
  /\ (forall rc, exists rest,
        uploadFile os cfg env filePath rc = Act (ReadFileSync filePath) rest)
  /\ ((forall i, 0 <= i <= retryAttempts cfg ->
                 exists error, readResult env filePath i = Throw error) ->
      let result := run (uploadFile os cfg env filePath 0) w in
      exists t,
        fst result = Some (Normal false)
        /\ trace (snd result) = (trace w ++ t)%list
        /\ reads t = repeat filePath (Z.to_nat (retryAttempts cfg + 1))
        /\ sink_calls t = []
        /\ sleeps t = repeat (retryDelay cfg) (Z.to_nat (retryAttempts cfg))
        /\ gains t = [false]
        /\ failedFiles (snd result) = failedFiles w + 1
        /\ uploadedFiles (snd result) = uploadedFiles w).
Proof.
  intros Hr. repeat split.
  - intros rc error Hread. rewrite uploadFile_equation, Hread. reflexivity.
  - intros rc content Hread.
    rewrite uploadFile_equation, Hread. reflexivity.
  - intros rc error Hrc. unfold on_error.
    apply Z.ltb_lt in Hrc. now rewrite Hrc.
  - intros rc. rewrite uploadFile_equation. eexists. reflexivity.
  - intros Hread result. unfold result. rewrite run_replay. cbn [fst snd].
    destruct (uploadFile_exhausted os cfg env filePath Hr) as (error & _ & He & Hend).
    { intros i Hi. apply unread. auto. }
    exists (events (uploadFile os cfg env filePath 0)).
    rewrite trace_replay, failedFiles_replay, uploadedFiles_replay, Hend, He.
    rewrite !reads_app, !sink_calls_app, !sleeps_app, !gains_app.
    rewrite reads_failed_attempts, sleeps_failed_attempts, gains_failed_attempts,
      gains_attempt_events.
    rewrite sink_calls_unread by (intros i Hi; apply Hread; lia).
    unfold attempt_events.
    destruct (Hread (retryAttempts cfg)) as [error' ->]; [lia|].
    replace (Z.to_nat (retryAttempts cfg + 1))
      with (S (Z.to_nat (retryAttempts cfg))) by lia.
    cbn [repeat]. rewrite repeat_cons.
    repeat split; try reflexivity; unfold tally; cbn; try lia.
    apply app_nil_r.
Qed.

(* ------------------------------------------------------------------ *)
(** ** The scan *)

Section BindFacts.

Context {A B : Type}.

Lemma returns_bind (p : proc A) (f : A -> proc B) :
  returns p = true -> (forall a, returns (f a) = true) -> returns (bind p f) = true.
Proof.
  intros Hp Hf.
  induction p as [a|e|a k IH|wt k IH|]; cbn in *; auto; discriminate.
Qed.

Lemma events_bind (p : proc A) (f : A -> proc B) a :
  ending p = Some (Normal a) ->
  events (bind p f) = (events p ++ events (f a))%list.
Proof.
  induction p as [a'|e|a' k IH|wt k IH|]; cbn; intros H;
    try discriminate; try (now rewrite IH).
  now inversion H.
Qed.

End BindFacts.

Lemma ending_unit (p : proc unit) :
  returns p = true -> ending p = Some (Normal tt).
Proof.
  intros H. apply returns_ending in H. destruct H as [[] H]. exact H.
Qed.

Section ScanFacts.

Variable os : platform.

Lemma scanDir_Dir entries dir :
  scanDir os (Dir entries) dir =
  try_catch
    (fold_right (fun ne rest => bind (visit os dir ne) (fun _ => rest)) (Ret tt) entries)
    (fun error => act (ConsoleError (scan_error os dir error))).
Proof.
  cbn [scanDir]. f_equal.
  induction entries as [|[name entry] rest IH]; [reflexivity|].
  cbn [fold_right]. rewrite <- IH. reflexivity.
Qed.

Lemma files_below_Dir entries dir :
  files_below (Dir entries) dir =
  flat_map (fun ne =>
              if isDirectory (snd ne) then files_below (snd ne) (join dir (fst ne))
              else if isFile (snd ne) then [join dir (fst ne)]
              else []) entries.
Proof.
  cbn [files_below].
  induction entries as [|[name entry] rest IH]; [reflexivity|].
  cbn [flat_map fst snd]. rewrite <- IH. reflexivity.
Qed.

Lemma scan_errors_Dir entries dir :
  scan_errors os (Dir entries) dir =
  flat_map (fun ne =>
              if isDirectory (snd ne) then scan_errors os (snd ne) (join dir (fst ne))
              else []) entries.
Proof.
  cbn [scan_errors].
  induction entries as [|[name entry] rest IH]; [reflexivity|].
  cbn [flat_map fst snd]. rewrite <- IH. reflexivity.
Qed.

Lemma scanDir_facts n : scan_ok os n.
Proof.
  induction n as [|entries IH|e|] using node_induction; intros dir;
    try (repeat split; reflexivity).
  rewrite scanDir_Dir, files_below_Dir, scan_errors_Dir.
  set (body := fold_right _ _ entries).
  assert (H : returns body = true
              /\ pushes (events body) =
                 flat_map (fun ne =>
                   if isDirectory (snd ne) then files_below (snd ne) (join dir (fst ne))
                   else if isFile (snd ne) then [join dir (fst ne)] else []) entries
              /\ errors (events body) =
                 flat_map (fun ne =>
                   if isDirectory (snd ne) then scan_errors os (snd ne) (join dir (fst ne))
                   else []) entries
              /\ warnings (events body) = []
              /\ gains (events body) = []).
  { subst body.
    induction IH as [|[name entry] rest Hentry _ IHrest].
    - repeat split; reflexivity.
    - destruct IHrest as (Hr & Hp & He & Hw & Hg).
      assert (Hv : returns (visit os dir (name, entry)) = true
                   /\ pushes (events (visit os dir (name, entry))) =
                      (if isDirectory entry then files_below entry (join dir name)
                       else if isFile entry then [join dir name] else [])
                   /\ errors (events (visit os dir (name, entry))) =
                      (if isDirectory entry then scan_errors os entry (join dir name)
                       else [])
                   /\ warnings (events (visit os dir (name, entry))) = []
                   /\ gains (events (visit os dir (name, entry))) = []).
      { unfold visit. cbn [fst snd].
        destruct (isDirectory entry); [apply Hentry|].
        destruct (isFile entry); repeat split; reflexivity. }
      destruct Hv as (Hvr & Hvp & Hve & Hvw & Hvg).
      cbn [fold_right flat_map fst snd].
      rewrite (events_bind _ _ tt) by (now apply ending_unit).
      unfold pushes, errors, warnings, gains in *.
      rewrite !flat_map_app, Hvp, Hve, Hvw, Hvg, Hp, He, Hw, Hg.
      repeat split; try reflexivity.
      apply returns_bind; auto. }
  destruct H as (Hr & Hp & He & Hw & Hg).
  rewrite try_catch_returns by exact Hr.
  repeat split; assumption.
Qed.

End ScanFacts.

Section GetAllFilesFacts.

Variable os : platform.
Variable cfg : config.
Variable disk : filesystem.

Lemma getAllFiles_facts folders :
  returns (getAllFiles os cfg disk folders) = true
  /\ pushes (events (getAllFiles os cfg disk folders)) = flat_map (files_of cfg disk) folders
  /\ errors (events (getAllFiles os cfg disk folders)) = flat_map (errors_of os cfg disk) folders
  /\ warnings (events (getAllFiles os cfg disk folders)) =
     map skip_warning (filter (fun folder => negb (existsSync disk folder)) folders)
  /\ gains (events (getAllFiles os cfg disk folders)) = [].
Proof.
  induction folders as [|folder rest (Hr & Hp & He & Hw & Hg)];
    [repeat split; reflexivity|].
  cbn [getAllFiles flat_map filter map].
  unfold files_of at 1, errors_of at 1, existsSync at 1.
  destruct (find_entry folder disk) as [n|].
  - destruct (scanDir_facts os n (join (baseDir cfg) folder))
      as (Hnr & Hnp & Hne & Hnw & Hng).
    rewrite (events_bind _ _ tt) by (now apply ending_unit).
    unfold pushes, errors, warnings, gains in *.
    rewrite !flat_map_app, Hnp, Hne, Hnw, Hng, Hp, He, Hw, Hg.
    repeat split; try reflexivity. apply returns_bind; auto.
  - cbn [negb map]. unfold pushes, errors, warnings, gains in *.
    cbn. rewrite Hp, He, Hw, Hg. repeat split; try reflexivity. exact Hr.
Qed.

(** The world [main] finds after the scan. *)
Lemma run_getAllFiles folders :
  exists w,
    run (getAllFiles os cfg disk folders) world0 = (Some (Normal tt), w)
    /\ allFiles w = flat_map (files_of cfg disk) folders
    /\ uploadedFiles w = 0
    /\ failedFiles w = 0
    /\ trace w = events (getAllFiles os cfg disk folders).
Proof.
  destruct (getAllFiles_facts folders) as (Hr & Hp & _ & _ & Hg).
  rewrite run_replay, (ending_unit _ Hr).
  eexists. split; [reflexivity|].
  rewrite allFiles_replay, uploadedFiles_replay, failedFiles_replay, trace_replay,
    Hp, Hg.
  repeat split; reflexivity.
Qed.

End GetAllFilesFacts.

(* ------------------------------------------------------------------ *)
(** ** The batches *)

Section BatchFacts.

Context {A : Type}.

Lemma firstn_min n (l : list A) : firstn (Nat.min n (List.length l)) l = firstn n l.
Proof.
  destruct (Nat.le_ge_cases n (List.length l)) as [H|H].
  - now rewrite Nat.min_l.
  - rewrite Nat.min_r by exact H. now rewrite firstn_all, firstn_all2.
Qed.

Lemma slice_chunk (l : list A) i c :
  0 <= i < Z.of_nat (List.length l) -> 0 < c ->
  slice l i (i + c) = firstn (Z.to_nat c) (skipn (Z.to_nat i) l).
Proof.
  intros Hi Hc. unfold slice, clamp_index.
  replace (i <? 0) with false by (symmetry; apply Z.ltb_ge; lia).
  replace (i + c <? 0) with false by (symmetry; apply Z.ltb_ge; lia).
  rewrite (Z.min_l i) by lia.
  rewrite <- (firstn_min (Z.to_nat c)).
  f_equal. rewrite length_skipn. lia.
Qed.

Lemma batches_loop_chunks (files : list A) c :
  0 < c ->
  forall fuel i acc,
    0 <= i ->
    Z.of_nat (List.length files) - i <= Z.of_nat fuel ->
    batches_loop fuel files (Int c) (Int i) acc =
    Some (acc ++ chunks fuel (Z.to_nat c) (skipn (Z.to_nat i) files))%list.
Proof.
  intros Hc. induction fuel as [|fuel IH]; intros i acc Hi Hfuel.
  - cbn [batches_loop chunks js_lt js_add to_integer].
    replace (i <? Z.of_nat (List.length files)) with false
      by (symmetry; apply Z.ltb_ge; lia).
    now rewrite app_nil_r.
  - cbn [batches_loop chunks js_lt js_add to_integer].
    destruct (i <? Z.of_nat (List.length files)) eqn:E.
    + apply Z.ltb_lt in E.
      rewrite IH by lia. rewrite slice_chunk by lia.
      rewrite <- app_assoc. cbn [app].
      destruct (skipn (Z.to_nat i) files) as [|x rest] eqn:Hs.
      * exfalso. apply (f_equal (@List.length A)) in Hs.
        rewrite length_skipn in Hs. cbn in Hs. lia.
      * rewrite <- Hs, skipn_skipn.
        replace (Z.to_nat (i + c)) with (Z.to_nat c + Z.to_nat i)%nat by lia.
        reflexivity.
    + apply Z.ltb_ge in E.
      rewrite skipn_all2 by lia. now rewrite app_nil_r.
Qed.

Lemma batches_loop_stuck (files : list A) c :
  c <= 0 ->
  forall fuel i acc,
    i <= 0 -> files <> [] -> batches_loop fuel files (Int c) (Int i) acc = None.
Proof.
  intros Hc. induction fuel as [|fuel IH]; intros i acc Hi Hne;
    cbn [batches_loop js_lt js_add to_integer];
    (replace (i <? Z.of_nat (List.length files)) with true
      by (symmetry; apply Z.ltb_lt; destruct files; [congruence | cbn; lia])).
  - reflexivity.
  - apply IH; [lia | exact Hne].
Qed.

Lemma slice_nothing (l : list A) : slice l 0 0 = [].
Proof.
  unfold slice, clamp_index. cbn [Z.ltb Z.compare].
  rewrite Z.min_l by lia. reflexivity.
Qed.

(** With [NaN] as the size the loop is left after its first round, which
    has cut an empty piece. *)
Lemma batches_loop_nan (files : list A) fuel acc :
  files <> [] ->
  batches_loop (S fuel) files Nan (Int 0) acc = Some (acc ++ [[]])%list.
Proof.
  intros Hne. cbn [batches_loop js_lt js_add to_integer].
  replace (0 <? Z.of_nat (List.length files)) with true
    by (symmetry; apply Z.ltb_lt; destruct files; [congruence | cbn; lia]).
  rewrite slice_nothing. destruct fuel; reflexivity.
Qed.

Lemma concat_chunks c :
  (1 <= c)%nat ->
  forall fuel (l : list A), (List.length l <= fuel)%nat -> List.concat (chunks fuel c l) = l.
Proof.
  intros Hc. induction fuel as [|fuel IH]; intros l Hl.
  - destruct l; [reflexivity | cbn in Hl; lia].
  - destruct l as [|x l']; [reflexivity|].
    cbn [chunks List.concat]. rewrite IH.
    + apply firstn_skipn.
    + rewrite length_skipn. cbn [List.length] in *. lia.
Qed.

Lemma chunks_sizes c :
  (1 <= c)%nat ->
  forall fuel (l : list A),
    Forall (fun g => (1 <= List.length g <= c)%nat) (chunks fuel c l).
Proof.
  intros Hc. induction fuel as [|fuel IH]; intros l; [constructor|].
  destruct l as [|x l']; [constructor|].
  cbn [chunks]. constructor; [|apply IH].
  rewrite length_firstn. cbn [List.length]. lia.
Qed.

Lemma chunks_full c :
  forall fuel (l : list A) i,
    (S i < List.length (chunks fuel c l))%nat ->
    List.length (nth i (chunks fuel c l) []) = c.
Proof.
  induction fuel as [|fuel IH]; intros l i Hi; [cbn in Hi; lia|].
  destruct l as [|x l']; [cbn in Hi; lia|].
  cbn [chunks] in *. cbn [List.length] in Hi.
  destruct i as [|i].
  - cbn [nth]. rewrite length_firstn.
    destruct fuel as [|fuel]; [cbn in Hi; lia|].
    destruct (skipn c (x :: l')) as [|y rest] eqn:Hs; [cbn in Hi; lia|].
    apply (f_equal (@List.length A)) in Hs. rewrite length_skipn in Hs.
    cbn [List.length] in *. lia.
  - cbn [nth]. apply IH. lia.
Qed.

End BatchFacts.

Section MakeBatches.

Variable cfg : config.

(** The groups [processBatch] makes are consecutive pieces of the list. *)
Lemma make_batches_chunks {A : Type} (files : list A) c :
  concurrency cfg = Int c -> 0 < c ->
  make_batches cfg files =
  Some (chunks (List.length files) (Z.to_nat c) files).
Proof.
  intros Hcfg Hc. unfold make_batches. rewrite Hcfg.
  rewrite batches_loop_chunks by lia. reflexivity.
Qed.

Lemma make_batches_concat {A : Type} (files : list A) c batches :
  concurrency cfg = Int c ->
  make_batches cfg files = Some batches -> List.concat batches = files.
Proof.
  intros Hcfg.
  destruct (Z.lt_ge_cases 0 c) as [Hc|Hc].
  - rewrite (make_batches_chunks _ c) by assumption. intros H. inversion H.
    apply concat_chunks; lia.
  - destruct files as [|x files].
    + cbn. intros H. now inversion H.
    + unfold make_batches. rewrite Hcfg.
      rewrite batches_loop_stuck; [discriminate | lia.. | discriminate].
Qed.

(** With [NaN] in [concurrency] there is one batch, and it is empty. *)
Lemma make_batches_nan {A : Type} (files : list A) :
  concurrency cfg = Nan -> files <> [] -> make_batches cfg files = Some [[]].
Proof.
  intros Hcfg Hne. unfold make_batches. rewrite Hcfg.
  destruct files as [|x files]; [congruence|].
  cbn [List.length]. now rewrite batches_loop_nan.
Qed.

Lemma make_batches_nan_concat {A : Type} (files : list A) batches :
  concurrency cfg = Nan ->
  make_batches cfg files = Some batches -> List.concat batches = [].
Proof.
  intros Hcfg. destruct files as [|x files].
  - cbn. intros H. now injection H as <-.
  - rewrite make_batches_nan by (assumption || discriminate).
    intros H. now injection H as <-.
Qed.

(** The batches never hold more than the files. *)
Lemma make_batches_within {A : Type} (files : list A) batches :
  make_batches cfg files = Some batches ->
  (List.length (List.concat batches) <= List.length files)%nat.
Proof.
  destruct (concurrency cfg) as [c|] eqn:Hcfg.
  - intros H. now rewrite (make_batches_concat _ c _ Hcfg H).
  - destruct files as [|x files].
    + cbn. intros H. injection H as <-. cbn. lia.
    + rewrite make_batches_nan by (assumption || discriminate).
      intros H. injection H as <-. cbn. lia.
Qed.

End MakeBatches.

(* ------------------------------------------------------------------ *)
(** ** The event loop *)

Section AdvanceFacts.

Context {A : Type}.

Lemma advance_returns (p : proc A) :
  forall w, returns (fst (advance p w)) = returns p.
Proof. induction p as [a|e|a k IH|wt k IH|]; intros w; cbn; auto. Qed.

Lemma advance_not_act (p : proc A) :
  forall w, is_act (fst (advance p w)) = false.
Proof. induction p as [a|e|a k IH|wt k IH|]; intros w; cbn; auto. Qed.

Lemma advance_waits (p : proc A) :
  forall w, waits_left (fst (advance p w)) = waits_left p.
Proof. induction p as [a|e|a k IH|wt k IH|]; intros w; cbn; auto. Qed.

Lemma advance_counters (p : proc A) :
  forall w,
    uploadedFiles w <= uploadedFiles (snd (advance p w))
    /\ failedFiles w <= failedFiles (snd (advance p w))
    /\ uploadedFiles (snd (advance p w)) + failedFiles (snd (advance p w))
       + owed (fst (advance p w))
       = uploadedFiles w + failedFiles w + owed p.
Proof.
  induction p as [a|e|a k IH|wt k IH|]; intros w;
    try (cbn [advance fst snd owed record uploadedFiles failedFiles]; lia).
  specialize (IH (perform a w)).
  destruct a;
    cbn [advance fst snd owed perform record uploadedFiles failedFiles] in *; lia.
Qed.

End AdvanceFacts.

Section ReplaceFacts.

Context {A : Type}.

Lemma length_replace_nth (l : list A) : forall i x,
  List.length (replace_nth i x l) = List.length l.
Proof.
  induction l as [|y l IH]; intros [|i] x; cbn; auto.
Qed.

Lemma nth_error_replace_same (l : list A) : forall i x y,
  nth_error l i = Some y -> nth_error (replace_nth i x l) i = Some x.
Proof.
  induction l as [|z l IH]; intros [|i] x y H; cbn in *; try discriminate; eauto.
Qed.

Lemma nth_error_replace_other (l : list A) : forall i j x,
  i <> j -> nth_error (replace_nth i x l) j = nth_error l j.
Proof.
  induction l as [|z l IH]; intros [|i] [|j] x H; cbn; auto; try congruence.
Qed.

Lemma Forall_replace_nth (P : A -> Prop) (l : list A) : forall i x,
  Forall P l -> P x -> Forall P (replace_nth i x l).
Proof.
  induction l as [|z l IH]; intros [|i] x Hl Hx; cbn; auto;
    inversion Hl; subst; constructor; auto.
Qed.

End ReplaceFacts.

Lemma sum_owed_replace (l : list (proc bool)) : forall i x y,
  nth_error l i = Some y ->
  sum_owed (replace_nth i x l) = sum_owed l - owed y + owed x.
Proof.
  unfold sum_owed.
  induction l as [|z l IH]; intros [|i] x y H; cbn in *; try discriminate.
  - inversion H; subst. lia.
  - rewrite (IH i x y H). lia.
Qed.

Lemma sum_waits_replace (l : list (proc bool)) : forall i x y,
  nth_error l i = Some y ->
  (sum_waits (replace_nth i x l) + waits_left y = sum_waits l + waits_left x)%nat.
Proof.
  unfold sum_waits.
  induction l as [|z l IH]; intros [|i] x y H; cbn in *; try discriminate.
  - inversion H; subst. lia.
  - specialize (IH i x y H). lia.
Qed.

Lemma sum_owed_nonneg (l : list (proc bool)) : 0 <= sum_owed l.
Proof.
  unfold sum_owed.
  induction l as [|p l IH]; cbn; [lia|]. pose proof (owed_nonneg p). lia.
Qed.

Lemma sum_owed_fulfilled (l : list (proc bool)) :
  forallb fulfilled l = true -> sum_owed l = 0.
Proof.
  unfold sum_owed.
  induction l as [|p l IH]; cbn; [reflexivity|].
  intros H. apply andb_prop in H. destruct H as [Hp Hl].
  rewrite (IH Hl). destruct p; try discriminate. reflexivity.
Qed.

Lemma sum_waits_fulfilled (l : list (proc bool)) :
  forallb fulfilled l = true -> sum_waits l = 0%nat.
Proof.
  unfold sum_waits.
  induction l as [|p l IH]; cbn; [reflexivity|].
  intros H. apply andb_prop in H. destruct H as [Hp Hl].
  rewrite (IH Hl). destruct p; try discriminate. reflexivity.
Qed.

Lemma first_rejection_calm (l : list (proc bool)) :
  Forall calm l -> first_rejection l = None.
Proof.
  induction 1 as [|p l [Hp _] _ IH]; cbn; [reflexivity|].
  destruct p; cbn in *; try discriminate; exact IH.
Qed.

Section LaunchFacts.

Variable os : platform.
Variable cfg : config.
Variable env : environment.

Lemma launch_facts files :
  forall b slot w ms ps w' ms',
    launch os cfg env b slot files w ms = (ps, w', ms') ->
    List.length ps = List.length files
    /\ Forall calm ps
    /\ uploadedFiles w <= uploadedFiles w'
    /\ failedFiles w <= failedFiles w'
    /\ uploadedFiles w' + failedFiles w' + sum_owed ps
       = uploadedFiles w + failedFiles w + Z.of_nat (List.length files)
    /\ sum_waits ps = sum_waits (map (fun file => uploadFile os cfg env file 0) files).
Proof.
  induction files as [|file rest IH]; intros b slot w ms ps w' ms' H.
  - cbn in H. inversion H; subst. cbn. repeat split; try lia. constructor.
  - cbn [launch] in H.
    pose proof (advance_counters (uploadFile os cfg env file 0) w) as Hc.
    pose proof (advance_returns (uploadFile os cfg env file 0) w) as Hr.
    pose proof (advance_not_act (uploadFile os cfg env file 0) w) as Ha.
    pose proof (advance_waits (uploadFile os cfg env file 0) w) as Hw.
    destruct (advance (uploadFile os cfg env file 0) w) as [p w1].
    cbn [fst snd] in *.
    destruct (launch os cfg env b (S slot) rest w1 _) as [[ps2 w2] ms2] eqn:E.
    inversion H; subst. clear H.
    destruct (IH _ _ _ _ _ _ _ E) as (Hl & Hf & Hu & Hfa & Hsum & Hwaits).
    rewrite uploadFile_returns in Hr. rewrite uploadFile_owed in Hc.
    cbn [List.length sum_owed sum_waits fold_right map].
    fold (sum_owed ps2). fold (sum_waits ps2).
    fold (sum_waits (map (fun file => uploadFile os cfg env file 0) rest)).
    repeat split; try lia.
    constructor; [split; assumption | exact Hf].
Qed.

Lemma step_balanced total st l st' :
  balanced total st -> step os cfg env st l = Some st' -> balanced total st'.
Proof.
  intros (Hsum & Hcalm & Hstage) Hstep.
  unfold step in Hstep.
  destruct (stage st) eqn:Est; try discriminate.
  destruct l as [i|].
  - destruct (nth_error (running st) i) as [p|] eqn:Ep; try discriminate.
    destruct p as [| | |wt k|]; try discriminate.
    pose proof (advance_counters k (now st)) as Hc.
    pose proof (advance_returns k (now st)) as Hr.
    pose proof (advance_not_act k (now st)) as Ha.
    destruct (advance k (now st)) as [p w]. cbn [fst snd] in *.
    injection Hstep as <-.
    unfold balanced. cbn [now running queue stage].
    rewrite (sum_owed_replace _ _ _ _ Ep). cbn [owed].
    repeat split; try lia.
    apply Forall_replace_nth; [exact Hcalm|].
    rewrite Forall_forall in Hcalm.
    destruct (Hcalm _ (nth_error_In _ _ Ep)) as [Hk _].
    split; [rewrite Hr; exact Hk | exact Ha].
  - rewrite (first_rejection_calm _ Hcalm) in Hstep.
    destruct (forallb fulfilled (running st)) eqn:Efull; try discriminate.
    destruct (queue st) as [|batch rest] eqn:Eq.
    + injection Hstep as <-.
      unfold balanced. cbn [now running queue stage].
      repeat split; auto.
    + destruct (launch os cfg env (launched st) 0 batch (now st) (marks st))
        as [[ps w] ms] eqn:El.
      injection Hstep as <-.
      destruct (launch_facts _ _ _ _ _ _ _ _ El) as (Hl & Hfc & Hu' & Hf' & Hs' & _).
      unfold balanced. cbn [now running queue stage].
      rewrite (sum_owed_fulfilled _ Efull) in Hsum.
      cbn [List.concat] in Hsum. rewrite length_app in Hsum.
      repeat split; try lia. exact Hfc.
Qed.

Lemma exec_balanced total turns :
  forall st st',
    balanced total st -> exec os cfg env st turns = Some st' -> balanced total st'.
Proof.
  induction turns as [|l turns IH]; intros st st' Hb H; cbn in H.
  - now inversion H; subst.
  - destruct (step os cfg env st l) as [st1|] eqn:E; [|discriminate].
    eapply IH; [eapply step_balanced; eauto | exact H].
Qed.

Lemma processBatch_balanced files w st0 :
  processBatch cfg files w = Some st0 ->
  balanced (uploadedFiles w + failedFiles w
            + Z.of_nat (List.length (List.concat (queue st0)))) st0
  /\ now st0 = w.
Proof.
  intros H. unfold processBatch in H.
  destruct (make_batches cfg files) as [batches|] eqn:E; [|discriminate].
  inversion H; subst; clear H.
  unfold balanced. cbn [now running queue stage sum_owed fold_right].
  repeat split; try lia. constructor.
Qed.

(** The queue [processBatch] starts with: all the files when
    [concurrency] is an integer, never more than the files. *)
Lemma processBatch_queue files w st0 c :
  concurrency cfg = Int c ->
  processBatch cfg files w = Some st0 -> List.concat (queue st0) = files.
Proof.
  intros Hcfg H. unfold processBatch in H.
  destruct (make_batches cfg files) as [batches|] eqn:E; [|discriminate].
  injection H as <-. exact (make_batches_concat cfg _ c _ Hcfg E).
Qed.

Lemma processBatch_queue_nan files w st0 :
  concurrency cfg = Nan ->
  processBatch cfg files w = Some st0 -> List.concat (queue st0) = [].
Proof.
  intros Hcfg H. unfold processBatch in H.
  destruct (make_batches cfg files) as [batches|] eqn:E; [|discriminate].
  injection H as <-. exact (make_batches_nan_concat cfg _ _ Hcfg E).
Qed.

Lemma processBatch_queue_within files w st0 :
  processBatch cfg files w = Some st0 ->
  (List.length (List.concat (queue st0)) <= List.length files)%nat.
Proof.
  intros H. unfold processBatch in H.
  destruct (make_batches cfg files) as [batches|] eqn:E; [|discriminate].
  injection H as <-. exact (make_batches_within cfg _ _ E).
Qed.

(** The counters never go down. *)
Lemma step_mono st l st' :
  step os cfg env st l = Some st' ->
  uploadedFiles (now st) <= uploadedFiles (now st')
  /\ failedFiles (now st) <= failedFiles (now st').
Proof.
  unfold step. intros Hstep.
  destruct (stage st); try discriminate.
  destruct l as [i|].
  - destruct (nth_error (running st) i) as [[| | |wt k|]|]; try discriminate.
    pose proof (advance_counters k (now st)) as Hc.
    destruct (advance k (now st)) as [p w]. cbn [fst snd] in Hc.
    injection Hstep as <-. cbn [now]. lia.
  - destruct (first_rejection (running st)).
    + injection Hstep as <-. cbn [now]. lia.
    + destruct (forallb fulfilled (running st)); try discriminate.
      destruct (queue st) as [|batch rest].
      * injection Hstep as <-. cbn [now]. lia.
      * destruct (launch os cfg env (launched st) 0 batch (now st) (marks st))
          as [[ps w] ms] eqn:El.
        destruct (launch_facts _ _ _ _ _ _ _ _ El) as (_ & _ & Hu & Hf & _).
        injection Hstep as <-. cbn [now]. lia.
Qed.

Lemma exec_mono turns :
  forall st st',
    exec os cfg env st turns = Some st' ->
    uploadedFiles (now st) <= uploadedFiles (now st')
    /\ failedFiles (now st) <= failedFiles (now st').
Proof.
  induction turns as [|l turns IH]; intros st st' H; cbn in H.
  - injection H as <-. lia.
  - destruct (step os cfg env st l) as [st1|] eqn:E; [|discriminate].
    pose proof (step_mono _ _ _ E). pose proof (IH _ _ H). lia.
Qed.

(** What [balanced] gives. *)
Lemma balanced_bound total st :
  balanced total st ->
  uploadedFiles (now st) + failedFiles (now st) <= total.
Proof.
  intros (Hsum & _).
  pose proof (sum_owed_nonneg (running st)). lia.
Qed.

Lemma balanced_returned total st :
  balanced total st -> stage st = Returned ->
  uploadedFiles (now st) + failedFiles (now st) = total.
Proof.
  intros (Hsum & _ & Hstage) E. rewrite E in Hstage.
  destruct Hstage as [Hq Hfull].
  rewrite Hq, (sum_owed_fulfilled _ Hfull) in Hsum. cbn in Hsum. lia.
Qed.

Lemma balanced_not_thrown total st e :
  balanced total st -> stage st <> Threw e.
Proof.
  intros (_ & _ & Hstage) E. now rewrite E in Hstage.
Qed.

End LaunchFacts.

(* ------------------------------------------------------------------ *)
(** ** Every batch run ends *)

Lemma forallb_false_nth {A : Type} (f : A -> bool) (l : list A) :
  forallb f l = false -> exists i x, nth_error l i = Some x /\ f x = false.
Proof.
  induction l as [|y l IH]; cbn; [discriminate|].
  destruct (f y) eqn:E; cbn.
  - intros H. destruct (IH H) as (i & x & Hi & Hx). exists (S i), x. auto.
  - intros _. exists O, y. auto.
Qed.

Section Progress.

Variable os : platform.
Variable cfg : config.
Variable env : environment.

Lemma step_progress total st :
  balanced total st -> stage st = Looping ->
  exists l st',
    step os cfg env st l = Some st' /\ (todo os cfg env st' < todo os cfg env st)%nat.
Proof.
  intros (Hsum & Hcalm & _) Est.
  destruct (forallb fulfilled (running st)) eqn:Efull.
  - exists Next. unfold step. rewrite Est, (first_rejection_calm _ Hcalm), Efull.
    pose proof (sum_waits_fulfilled _ Efull) as Hz.
    destruct (queue st) as [|batch rest] eqn:Eq.
    + eexists. split; [reflexivity|].
      unfold todo. cbn [running queue stage fold_right]. rewrite Est, Eq, Hz.
      cbn. lia.
    + destruct (launch os cfg env (launched st) 0 batch (now st) (marks st))
        as [[ps w] ms] eqn:El.
      destruct (launch_facts _ _ _ _ _ _ _ _ _ _ _ El) as (_ & _ & _ & _ & _ & Hw).
      eexists. split; [reflexivity|].
      unfold todo. cbn [running queue stage fold_right]. rewrite Est, Eq, Hz, Hw.
      cbn [fold_right]. lia.
  - destruct (forallb_false_nth _ _ Efull) as (i & p & Hi & Hp).
    rewrite Forall_forall in Hcalm.
    destruct (Hcalm _ (nth_error_In _ _ Hi)) as [Hr Ha].
    destruct p as [b|e|a k|wt k|]; try discriminate.
    exists (Wake i). unfold step. rewrite Est, Hi.
    pose proof (advance_waits k (now st)) as Hw.
    destruct (advance k (now st)) as [p w]. cbn [fst] in Hw.
    eexists. split; [reflexivity|].
    unfold todo. cbn [running queue stage].
    pose proof (sum_waits_replace _ i p _ Hi) as Hs. cbn [waits_left] in Hs.
    rewrite Est. lia.
Qed.

Lemma completes_within total n :
  forall st,
    (todo os cfg env st <= n)%nat -> balanced total st -> stage st = Looping ->
    exists turns st',
      exec os cfg env st turns = Some st' /\ stage st' = Returned.
Proof.
  induction n as [|n IH]; intros st Hn Hb Est.
  - unfold todo in Hn. rewrite Est in Hn. lia.
  - destruct (step_progress total st Hb Est) as (l & st1 & Hstep & Hlt).
    pose proof (step_balanced os cfg env total st l st1 Hb Hstep) as Hb1.
    destruct (stage st1) eqn:E1.
    + destruct (IH st1) as (turns & st' & Hexec & Hret); [lia | exact Hb1 | exact E1 |].
      exists (l :: turns), st'. cbn [exec]. rewrite Hstep. auto.
    + exists [l], st1. cbn [exec]. rewrite Hstep. auto.
    + exfalso. exact (balanced_not_thrown total st1 e Hb1 E1).
Qed.

(** From a state inside the loop there are turns that bring
    [processBatch] to its end. *)
Lemma completes total st :
  balanced total st -> stage st = Looping ->
  exists turns st', exec os cfg env st turns = Some st' /\ stage st' = Returned.
Proof. intros Hb Est. exact (completes_within total _ st (le_n _) Hb Est). Qed.

End Progress.

(* ------------------------------------------------------------------ *)
(** ** The barrier between batches *)

Section Barrier.

Variable batches : list (list abspath).

Lemma barrier_nil : barrier_ok batches [].
Proof. intros [|m pre] post b slot H; discriminate. Qed.

Lemma barrier_snoc_settled ms b slot :
  barrier_ok batches ms -> barrier_ok batches (ms ++ [Settled b slot]).
Proof.
  intros Hok pre post b0 slot0 H b' slot' Hb Hs.
  destruct post as [|m post] using rev_ind.
  - apply app_inj_tail in H. destruct H as [_ H]. discriminate.
  - clear IHpost.
    rewrite app_comm_cons, app_assoc in H.
    apply app_inj_tail in H. destruct H as [H _].
    exact (Hok _ _ _ _ H b' slot' Hb Hs).
Qed.

Lemma barrier_snoc_started ms b slot :
  barrier_ok batches ms -> all_settled batches b ms ->
  barrier_ok batches (ms ++ [Started b slot]).
Proof.
  intros Hok Hall pre post b0 slot0 H b' slot' Hb Hs.
  destruct post as [|m post] using rev_ind.
  - apply app_inj_tail in H. destruct H as [Hpre Hm].
    inversion Hm; subst. apply Hall; assumption.
  - clear IHpost.
    rewrite app_comm_cons, app_assoc in H.
    apply app_inj_tail in H. destruct H as [H _].
    exact (Hok _ _ _ _ H b' slot' Hb Hs).
Qed.

Lemma all_settled_mono upto ms ms' :
  (forall m, In m ms -> In m ms') ->
  all_settled batches upto ms -> all_settled batches upto ms'.
Proof. intros Hin Hall b slot Hb Hs. apply Hin, Hall; assumption. Qed.

Variable os : platform.
Variable cfg : config.
Variable env : environment.

Lemma launch_marks files :
  forall b slot w ms ps w' ms',
    launch os cfg env b slot files w ms = (ps, w', ms') ->
    (forall m, In m ms -> In m ms')
    /\ (forall j p, nth_error ps j = Some p -> settled p = true ->
                    In (Settled b (slot + j)) ms')
    /\ (barrier_ok batches ms -> all_settled batches b ms -> barrier_ok batches ms').
Proof.
  induction files as [|file rest IH]; intros b slot w ms ps w' ms' H.
  - cbn in H. injection H as <- <- <-.
    repeat split; auto. intros [|j] p Hj; discriminate.
  - cbn [launch] in H.
    destruct (advance (uploadFile os cfg env file 0) w) as [p w1].
    destruct (launch os cfg env b (S slot) rest w1 _) as [[ps2 w2] ms2] eqn:E.
    injection H as <- <- <-.
    destruct (IH _ _ _ _ _ _ _ E) as (Hin & Hset & Hbar).
    repeat split.
    + intros m Hm. apply Hin, in_or_app. now left.
    + intros [|j] q Hj Hq; cbn in Hj.
      * injection Hj as <-. apply Hin. rewrite Hq.
        rewrite Nat.add_0_r. apply in_or_app. right. cbn. auto.
      * replace (slot + S j)%nat with (S slot + j)%nat by lia. eauto.
    + intros Hok Hall. apply Hbar.
      * destruct (settled p).
        -- change (ms ++ [Started b slot; Settled b slot])%list
             with (ms ++ [Started b slot] ++ [Settled b slot])%list.
           rewrite app_assoc.
           apply barrier_snoc_settled, barrier_snoc_started; assumption.
        -- apply barrier_snoc_started; assumption.
      * eapply all_settled_mono; [|exact Hall].
        intros m Hm. apply in_or_app. now left.
Qed.

Lemma skipn_cons_nth {A : Type} (l : list A) : forall n x r d,
  skipn n l = x :: r ->
  nth n l d = x /\ skipn (S n) l = r /\ (n < List.length l)%nat.
Proof.
  induction l as [|y l IH]; intros [|n] x r d H; cbn in *; try discriminate.
  - injection H as <- <-. repeat split. lia.
  - destruct (IH n x r d H) as (H1 & H2 & H3). repeat split; auto. lia.
Qed.

Lemma step_aligned st l st' :
  aligned batches st -> step os cfg env st l = Some st' -> aligned batches st'.
Proof.
  intros (Hq & Hle & Hall & Hlen & Hset & Hbar) Hstep.
  unfold step in Hstep.
  destruct (stage st) eqn:Est; try discriminate.
  destruct l as [i|].
  - destruct (nth_error (running st) i) as [p|] eqn:Ep; try discriminate.
    destruct p as [| | |wt k|]; try discriminate.
    destruct (advance k (now st)) as [p w].
    injection Hstep as <-.
    unfold aligned. cbn [now launched running queue marks].
    rewrite length_replace_nth.
    repeat split; auto.
    + eapply all_settled_mono; [|exact Hall].
      intros m Hm. apply in_or_app. now left.
    + intros slot q Hslot Hsettled.
      destruct (Nat.eq_dec i slot) as [<-|Hne].
      * rewrite (nth_error_replace_same _ _ _ _ Ep) in Hslot.
        injection Hslot as <-. rewrite Hsettled.
        apply in_or_app. right. cbn. auto.
      * rewrite nth_error_replace_other in Hslot by exact Hne.
        apply in_or_app. left. eauto.
    + destruct (settled p).
      * now apply barrier_snoc_settled.
      * now rewrite app_nil_r.
  - destruct (first_rejection (running st)).
    + injection Hstep as <-. unfold aligned. cbn [launched running queue marks].
      repeat split; auto.
    + destruct (forallb fulfilled (running st)) eqn:Efull; try discriminate.
      destruct (queue st) as [|batch rest] eqn:Eq.
      * injection Hstep as <-. unfold aligned. cbn [launched running queue marks].
        repeat split; auto.
      * destruct (launch os cfg env (launched st) 0 batch (now st) (marks st))
          as [[ps w] ms] eqn:El.
        injection Hstep as <-.
        symmetry in Hq.
        destruct (skipn_cons_nth _ _ _ _ [] Hq) as (Hnth & Hskip & Hlt).
        destruct (launch_facts _ _ _ _ _ _ _ _ _ _ _ El) as (Hlps & _).
        destruct (launch_marks _ _ _ _ _ _ _ _ El) as (Hin & Hnew & Hb).
        assert (Hdone : all_settled batches (launched st) (marks st)).
        { intros b slot Hlb Hslot.
          destruct (launched st) as [|n] eqn:En; [lia|]. cbn [pred] in *.
          destruct (Nat.eq_dec b n) as [->|Hne].
          - rewrite <- Hlen in Hslot.
            destruct (nth_error (running st) slot) as [q|] eqn:Eslot.
            + apply (Hset _ _ Eslot).
              rewrite forallb_forall in Efull.
              specialize (Efull _ (nth_error_In _ _ Eslot)).
              destruct q; try discriminate; reflexivity.
            + apply nth_error_None in Eslot. lia.
          - apply Hall; [lia | exact Hslot]. }
        unfold aligned. cbn [now launched running queue marks pred].
        repeat split; auto.
        -- eapply all_settled_mono; [exact Hin | exact Hdone].
        -- now rewrite Hlps, Hnth.
Qed.

Lemma exec_aligned turns :
  forall st st',
    aligned batches st -> exec os cfg env st turns = Some st' -> aligned batches st'.
Proof.
  induction turns as [|l turns IH]; intros st st' Ha H; cbn in H.
  - now injection H as <-.
  - destruct (step os cfg env st l) as [st1|] eqn:E; [|discriminate].
    eapply IH; [eapply step_aligned; eauto | exact H].
Qed.

Lemma processBatch_aligned files w st0 :
  make_batches cfg files = Some batches ->
  processBatch cfg files w = Some st0 -> aligned batches st0.
Proof.
  intros Hb H. unfold processBatch in H. rewrite Hb in H. injection H as <-.
  unfold aligned. cbn [now launched running queue marks pred skipn List.length].
  repeat split; auto.
  - lia.
  - intros b slot Hlt. lia.
  - intros [|slot] p Hp; discriminate.
  - apply barrier_nil.
Qed.

Lemma in_flight_bound st c :
  aligned batches st ->
  Forall (fun g => (List.length g <= c)%nat) batches ->
  (in_flight_count (running st) <= c)%nat.
Proof.
  intros (_ & _ & _ & Hlen & _) Hsize.
  unfold in_flight_count.
  pose proof (filter_length_le in_flight (running st)) as Hle.
  rewrite Hlen in Hle.
  destruct (launched st) as [|b]; [lia|].
  destruct (nth_in_or_default b batches []) as [Hin|Hd].
  - rewrite Forall_forall in Hsize. specialize (Hsize _ Hin). lia.
  - rewrite Hd in Hle. cbn in Hle. lia.
Qed.

End Barrier.

(* ------------------------------------------------------------------ *)
(** ** [main] *)

Section MainFacts.

Variable os : platform.
Variable cfg : config.
Variable disk : filesystem.
Variable env : environment.

(** [main] goes on past its first test as soon as one folder exists. *)
Lemma existing_folders folders folder :
  In folder folders -> existsSync disk folder = true ->
  (List.length (filter (existsSync disk) folders) =? 0)%nat = false.
Proof.
  intros Hin Hex.
  assert (H : In folder (filter (existsSync disk) folders))
    by (apply filter_In; auto).
  destruct (filter (existsSync disk) folders); [contradiction | reflexivity].
Qed.

(** [main] once the scan is resolved. *)
Lemma main_equation turns elapsedMs :
  let w0 := snd (run (getAllFiles os cfg disk FOLDERS_TO_UPLOAD) world0) in
  main os cfg disk env turns elapsedMs =
  if (List.length (filter (existsSync disk) FOLDERS_TO_UPLOAD) =? 0)%nat then
    Exit 1 (perform (ConsoleError "Error: None of the specified folders exist") world0)
  else if Z.of_nat (List.length (allFiles w0)) =? 0 then Exit 0 w0
  else
    match processBatch cfg (allFiles w0) w0 with
    | None => Unending
    | Some st0 =>
        match exec os cfg env st0 turns with
        | None => Unfinished
        | Some st =>
            match stage st with
            | Looping => Unfinished
            | Threw error =>
                Exit 1 (perform (ConsoleError ("Error: " ++ message error)) (now st))
            | Returned =>
                Completed (summary (Z.of_nat (List.length (allFiles w0))) (now st) elapsedMs)
                          (now st)
            end
        end
    end.
Proof.
  intros w0. unfold main. subst w0.
  destruct (run_getAllFiles os cfg disk FOLDERS_TO_UPLOAD) as (w & Hrun & _).
  rewrite Hrun. reflexivity.
Qed.

Lemma main_completed turns elapsedMs r w :
  main os cfg disk env turns elapsedMs = Completed r w ->
  let w0 := snd (run (getAllFiles os cfg disk FOLDERS_TO_UPLOAD) world0) in
  exists st0 st,
    processBatch cfg (allFiles w0) w0 = Some st0
    /\ exec os cfg env st0 turns = Some st
    /\ stage st = Returned
    /\ w = now st
    /\ r = summary (Z.of_nat (List.length (allFiles w0))) (now st) elapsedMs
    /\ 0 < Z.of_nat (List.length (allFiles w0)).
Proof.
  rewrite main_equation. cbn zeta.
  destruct (_ =? _)%nat; [discriminate|].
  destruct (_ =? _) eqn:Ezero; [discriminate|].
  apply Z.eqb_neq in Ezero.
  destruct (processBatch _ _ _) as [st0|] eqn:E0; [|discriminate].
  destruct (exec _ _ _ _ _) as [st|] eqn:E1; [|discriminate].
  destruct (stage st) eqn:Est; try discriminate.
  intros H. injection H as <- <-. exists st0, st. repeat split; auto. lia.
Qed.

End MainFacts.

(** C1.  The counters never exceed the number of files found by the scan,
    whatever turns the event loop takes, and a run that reaches the end of
    [main] with a [concurrency] that is a number reports
    [uploaded + failed = total = number of files found]. *)
Theorem counters_account (os : platform) (cfg : config) (disk : filesystem)
    (env : environment) (turns : list label) (elapsedMs : Z) :
  let w0 := snd (run (getAllFiles os cfg disk FOLDERS_TO_UPLOAD) world0) in
  let found := Z.of_nat (List.length (allFiles w0)) in
  (forall st0 st,
     processBatch cfg (allFiles w0) w0 = Some st0 ->
     exec os cfg env st0 turns = Some st ->
     0 <= uploadedFiles (now st)
     /\ 0 <= failedFiles (now st)
     /\ uploadedFiles (now st) + failedFiles (now st) <= found)
  /\ (forall c r w,
        concurrency cfg = Int c ->
        main os cfg disk env turns elapsedMs = Completed r w ->
        uploaded r + failed r = totalFiles r /\ totalFiles r = found).
Proof.
  intros w0 found.
  destruct (run_getAllFiles os cfg disk FOLDERS_TO_UPLOAD) as (w & Hrun & _ & Hu & Hf & _).
  assert (Hw : w0 = w) by (unfold w0; now rewrite Hrun).
  assert (Hinit : forall st0,
             processBatch cfg (allFiles w0) w0 = Some st0 ->
             balanced (Z.of_nat (List.length (List.concat (queue st0)))) st0
             /\ now st0 = w0).
  { intros st0 H. destruct (processBatch_balanced cfg _ _ _ H) as [Hb Hn].
    rewrite Hw, Hu, Hf in Hb. split; [exact Hb | exact Hn]. }
  split.
  - intros st0 st H0 Hexec.
    destruct (Hinit st0 H0) as [Hb Hn].
    pose proof (exec_balanced os cfg env _ turns st0 st Hb Hexec) as Hb'.
    pose proof (exec_mono os cfg env turns st0 st Hexec) as [Hmu Hmf].
    pose proof (balanced_bound _ st Hb').
    pose proof (processBatch_queue_within cfg _ _ _ H0).
    rewrite Hn, Hw, Hu, Hf in *. unfold found. rewrite Hw. lia.
  - intros c r wf Hcfg Hmain.
    destruct (main_completed os cfg disk env turns elapsedMs r wf Hmain)
      as (st0 & st & H0 & Hexec & Hret & _ & -> & _).
    destruct (Hinit st0 H0) as [Hb _].
    rewrite (processBatch_queue cfg _ _ _ c Hcfg H0) in Hb.
    pose proof (exec_balanced os cfg env found turns st0 st Hb Hexec) as Hb'.
    pose proof (balanced_returned found st Hb' Hret).
    cbn [summary uploaded failed totalFiles]. split; [assumption | reflexivity].
Qed.

(** C3.  With a positive [concurrency] the files are cut into consecutive
    groups of [concurrency] files, the last group alone being possibly
    shorter; no call of a group is made before every call of the groups
    before it has settled; and at most [concurrency] requests are in flight
    at any time. *)
Theorem batch_barrier (os : platform) (cfg : config) (env : environment)
    (files : list abspath) (w : world) (c : Z) :
  concurrency cfg = Int c -> 0 < c ->
  exists batches,
    make_batches cfg files = Some batches
    /\ List.concat batches = files
    /\ Forall (fun g => (1 <= List.length g <= Z.to_nat c)%nat) batches
    /\ (forall i, (S i < List.length batches)%nat ->
                  List.length (nth i batches []) = Z.to_nat c)
    /\ (List.length files = 5%nat -> c = 2 ->
        map (@List.length abspath) batches = [2; 2; 1]%nat)
    /\ (forall turns st0 st,
          processBatch cfg files w = Some st0 ->
          exec os cfg env st0 turns = Some st ->
          (forall pre post b slot,
             marks st = (pre ++ Started b slot :: post)%list ->
             forall b' slot',
               (b' < b)%nat -> (slot' < List.length (nth b' batches []))%nat ->
               In (Settled b' slot') pre)
          /\ (in_flight_count (running st) <= Z.to_nat c)%nat).
Proof.
  intros Hcfg Hc.
  pose proof (make_batches_chunks cfg files c Hcfg Hc) as Hb.
  eexists. split; [exact Hb|].
  split; [apply concat_chunks; lia|].
  split; [apply chunks_sizes; lia|].
  split; [intros i; apply chunks_full|].
  split.
  - intros Hlen Hc2. rewrite Hlen, Hc2.
    destruct files as [|f1 [|f2 [|f3 [|f4 [|f5 [|f6 rest]]]]]]; try discriminate.
    reflexivity.
  - intros turns st0 st H0 Hexec.
    pose proof (processBatch_aligned _ cfg files w st0 Hb H0) as Ha.
    pose proof (exec_aligned _ os cfg env turns st0 st Ha Hexec) as Ha'.
    split.
    + destruct Ha' as (_ & _ & _ & _ & _ & Hbar). exact Hbar.
    + apply (in_flight_bound _ st _ Ha').
      eapply Forall_impl; [|apply chunks_sizes; lia].
      cbn. intros g Hg. lia.
Qed.

(** C8.  A call of [uploadFile] settles with [true] or [false] whatever is
    thrown inside its [try] block, and its [catch] block does not throw; so
    no promise given to [Promise.all] is ever rejected,
    [processBatch] never throws, and a pending call can be resumed whatever
    happened to the other calls of its batch, which a turn leaves as they
    are. *)
Theorem unit_failures_isolated (os : platform) (cfg : config) (env : environment) :
  (forall filePath retryCount w,
     exists ok,
       fst (run (uploadFile os cfg env filePath retryCount) w) = Some (Normal ok))
  /\ (forall filePath retryCount error,
        exists ok,
          ending (on_error os cfg env filePath retryCount error) = Some (Normal ok))
  /\ (forall files w st0 turns st,
        processBatch cfg files w = Some st0 ->
        exec os cfg env st0 turns = Some st ->
        (forall e, stage st <> Threw e)
        /\ (forall slot p,
              nth_error (running st) slot = Some p ->
              rejected p = None /\ returns p = true)
        /\ (forall slot p,
              stage st = Looping ->
              nth_error (running st) slot = Some p -> settled p = false ->
              exists st', step os cfg env st (Wake slot) = Some st')
        /\ (forall slot st',
              step os cfg env st (Wake slot) = Some st' ->
              forall other,
                other <> slot ->
                nth_error (running st') other = nth_error (running st) other)).
Proof.
  split.
  - intros filePath retryCount w. rewrite run_replay. cbn [fst].
    apply returns_ending, uploadFile_returns.
  - split.
    { intros filePath retryCount error. unfold on_error.
      destruct (retryCount <? retryAttempts cfg).
      - cbn [ending]. apply returns_ending, uploadFile_returns.
      - eexists. reflexivity. }
    intros files w st0 turns st H0 Hexec.
    destruct (processBatch_balanced cfg _ _ _ H0) as [Hb _].
    pose proof (exec_balanced os cfg env _ turns st0 st Hb Hexec) as Hb'.
    assert (Hcalm : forall slot p,
               nth_error (running st) slot = Some p -> calm p).
    { intros slot p Hp. destruct Hb' as (_ & Hcalm & _).
      rewrite Forall_forall in Hcalm. exact (Hcalm _ (nth_error_In _ _ Hp)). }
    repeat split.
    + intros e. exact (balanced_not_thrown _ st e Hb').
    + destruct (Hcalm _ _ H) as [Hr _]. destruct p; try discriminate; reflexivity.
    + now destruct (Hcalm _ _ H).
    + intros slot p Est Hp Hs.
      destruct (Hcalm _ _ Hp) as [Hr Ha].
      destruct p as [b|e|a k|wt k|]; try discriminate.
      unfold step. rewrite Est, Hp.
      destruct (advance k (now st)) as [p' w']. eexists. reflexivity.
    + intros slot st' Hstep other Hne. unfold step in Hstep.
      destruct (stage st); try discriminate.
      destruct (nth_error (running st) slot) as [[| | |wt k|]|] eqn:Ep;
        try discriminate.
      destruct (advance k (now st)) as [p' w'].
      injection Hstep as <-. cbn [running].
      apply nth_error_replace_other. congruence.
Qed.

(** C9.  A directory that cannot be listed is logged and passed over: the
    scan never throws, it returns every regular file of the directories it
    can list, and it logs one line for each directory it cannot. *)
Theorem unreadable_directory_skipped (os : platform) (cfg : config)
    (disk : filesystem) (n : node) (dir : abspath) (w : world) :
  let found := fun t => allFiles (snd (run (scanDir os t dir) world0)) in
  let logged := fun t => errors (trace (snd (run (scanDir os t dir) world0))) in
  fst (run (scanDir os n dir) w) = Some (Normal tt)
  /\ allFiles (snd (run (scanDir os n dir) w)) = (allFiles w ++ files_below n dir)%list
  /\ errors (trace (snd (run (scanDir os n dir) w)))
     = (errors (trace w) ++ scan_errors os n dir)%list
  /\ (forall e, found (Denied e) = [] /\ logged (Denied e) = [scan_error os dir e])
  /\ (forall before name e after,
        found (Dir (before ++ (name, Denied e) :: after))
        = (found (Dir before) ++ found (Dir after))%list
        /\ logged (Dir (before ++ (name, Denied e) :: after))
           = (logged (Dir before) ++ scan_error os (join dir name) e
                :: logged (Dir after))%list)
  /\ (forall folders,
        fst (run (getAllFiles os cfg disk folders) world0) = Some (Normal tt)).
Proof.
  intros found logged.
  assert (Hrun : forall t w',
             fst (run (scanDir os t dir) w') = Some (Normal tt)
             /\ allFiles (snd (run (scanDir os t dir) w'))
                = (allFiles w' ++ files_below t dir)%list
             /\ errors (trace (snd (run (scanDir os t dir) w')))
                = (errors (trace w') ++ scan_errors os t dir)%list).
  { intros t w'. destruct (scanDir_facts os t dir) as (Hr & Hp & He & _).
    rewrite run_replay. cbn [fst snd].
    rewrite allFiles_replay, trace_replay, Hp.
    unfold errors in *. rewrite flat_map_app, He.
    repeat split. now apply ending_unit. }
  destruct (Hrun n w) as (H1 & H2 & H3).
  do 3 (split; [assumption|]).
  split; [|split].
  - intros e. split; reflexivity.
  - intros before name e after. unfold found, logged.
    rewrite !(proj1 (proj2 (Hrun _ _))), !(proj2 (proj2 (Hrun _ _))).
    rewrite !files_below_Dir, !scan_errors_Dir, !flat_map_app.
    split; reflexivity.
  - intros folders. rewrite run_replay. cbn [fst].
    apply ending_unit. apply (getAllFiles_facts os cfg disk folders).
Qed.

(** C7.  A folder of the list that does not exist adds no file to the
    scan and one warning to the console; when another folder of the list
    exists, [main] does not exit with code 1 and there are turns of the
    event loop that bring it to its end. *)
Theorem missing_root_skipped (os : platform) (cfg : config) (disk : filesystem)
    (env : environment) (folder : string) :
  existsSync disk folder = false ->
  let scan := fun folders => snd (run (getAllFiles os cfg disk folders) world0) in
  (forall before after,
     allFiles (scan (before ++ folder :: after)%list)
     = (allFiles (scan before) ++ allFiles (scan after))%list
     /\ warnings (trace (scan (before ++ folder :: after)%list))
        = (warnings (trace (scan before)) ++ skip_warning folder
             :: warnings (trace (scan after)))%list)
  /\ (forall other c,
        In folder FOLDERS_TO_UPLOAD -> In other FOLDERS_TO_UPLOAD ->
        existsSync disk other = true -> concurrency cfg = Int c -> 0 < c ->
        (forall turns elapsedMs w,
           main os cfg disk env turns elapsedMs <> Exit 1 w)
        /\ (forall turns elapsedMs,
              main os cfg disk env turns elapsedMs <> Unending)
        /\ exists turns,
             forall elapsedMs,
               (exists w, main os cfg disk env turns elapsedMs = Exit 0 w)
               \/ (exists r w, main os cfg disk env turns elapsedMs = Completed r w)).
Proof.
  intros Hmissing scan.
  assert (Hscan : forall folders,
             allFiles (scan folders) = flat_map (files_of cfg disk) folders
             /\ warnings (trace (scan folders))
                = map skip_warning
                    (filter (fun f => negb (existsSync disk f)) folders)).
  { intros folders. unfold scan.
    destruct (run_getAllFiles os cfg disk folders) as (w & Hrun & Hfiles & _ & _ & Ht).
    rewrite Hrun. cbn [snd]. rewrite Hfiles, Ht.
    split; [reflexivity | apply (getAllFiles_facts os cfg disk folders)]. }
  split.
  - intros before after.
    rewrite !(proj1 (Hscan _)), !(proj2 (Hscan _)).
    rewrite flat_map_app, filter_app, map_app. cbn [flat_map filter map].
    rewrite Hmissing. cbn [negb map].
    assert (Hnone : files_of cfg disk folder = []).
    { unfold files_of. unfold existsSync in Hmissing.
      destruct (find_entry folder disk); [discriminate | reflexivity]. }
    rewrite Hnone. split; reflexivity.
  - intros other c _ Hother Hex Hcfg Hc.
    pose proof (existing_folders disk _ _ Hother Hex) as Hfirst.
    assert (Hmain := main_equation os cfg disk env).
    cbn zeta in Hmain.
    set (w0 := snd (run (getAllFiles os cfg disk FOLDERS_TO_UPLOAD) world0)) in *.
    destruct (Z.of_nat (List.length (allFiles w0)) =? 0) eqn:Ezero.
    { repeat split.
      - intros turns ms w. rewrite Hmain, Hfirst. discriminate.
      - intros turns ms. rewrite Hmain, Hfirst. discriminate.
      - exists []. intros ms. left. exists w0. now rewrite Hmain, Hfirst. }
    destruct (processBatch cfg (allFiles w0) w0) as [st0|] eqn:E0.
    2:{ unfold processBatch in E0.
        rewrite (make_batches_chunks cfg _ c Hcfg Hc) in E0. discriminate. }
    destruct (processBatch_balanced cfg _ _ _ E0) as [Hb _].
    assert (Est0 : stage st0 = Looping).
    { unfold processBatch in E0.
      destruct (make_batches cfg (allFiles w0)); [|discriminate].
      now injection E0 as <-. }
    repeat split.
    + intros turns ms w. rewrite Hmain, Hfirst.
      destruct (exec os cfg env st0 turns) as [st|] eqn:Eexec; [|discriminate].
      pose proof (exec_balanced os cfg env _ turns st0 st Hb Eexec) as Hb'.
      destruct (stage st) eqn:Est; try discriminate.
      exfalso. exact (balanced_not_thrown _ st e Hb' Est).
    + intros turns ms. rewrite Hmain, Hfirst.
      destruct (exec os cfg env st0 turns) as [st|]; [|discriminate].
      destruct (stage st); discriminate.
    + destruct (completes os cfg env _ st0 Hb Est0) as (turns & st & Hexec & Hret).
      exists turns. intros ms. right.
      rewrite Hmain, Hfirst, Hexec, Hret. eauto.
Qed.

(* ------------------------------------------------------------------ *)
(** ** The summary *)

Lemma nearest_even_floor n d : 0 < d -> n / d <= nearest_even n d.
Proof.
  intros Hd. unfold nearest_even.
  destruct (2 * (n mod d) ?= d); [destruct (Z.even (n / d))|..]; lia.
Qed.

Lemma exponent_le n d : exponent n d <= Z.log2 n - Z.log2 d.
Proof.
  unfold exponent. destruct (scale _ n d) as [n' d'].
  destruct (d' <=? n'); lia.
Qed.

(** A power of two below [n / d]. *)
Lemma scale_below k n d :
  0 < n -> 0 < d -> k <= Z.log2 n - Z.log2 d - 1 ->
  snd (scale (- k) n d) <= fst (scale (- k) n d)
  /\ 0 < snd (scale (- k) n d).
Proof.
  intros Hn Hd Hk.
  destruct (Z.log2_spec n Hn) as [Hn1 _].
  destruct (Z.log2_spec d Hd) as [_ Hd2].
  pose proof (Z.log2_nonneg n) as Ha. pose proof (Z.log2_nonneg d) as Hb.
  unfold scale. destruct (0 <=? - k) eqn:E; cbn [fst snd].
  - apply Z.leb_le in E. split; [|exact Hd].
    assert (H : 2 ^ Z.succ (Z.log2 d) <= 2 ^ Z.log2 n * 2 ^ (- k)).
    { rewrite <- Z.pow_add_r by lia. apply Z.pow_le_mono_r; lia. }
    assert (0 < 2 ^ (- k)) by (apply Z.pow_pos_nonneg; lia).
    nia.
  - apply Z.leb_gt in E. rewrite Z.opp_involutive.
    assert (0 < 2 ^ k) by (apply Z.pow_pos_nonneg; lia).
    split; [|nia].
    assert (H0 : 2 ^ Z.succ (Z.log2 d) * 2 ^ k <= 2 ^ Z.log2 n).
    { rewrite <- Z.pow_add_r by lia. apply Z.pow_le_mono_r; lia. }
    nia.
Qed.

(** The Number nearest to a positive rational is positive. *)
Lemma nearest_double_pos n d : 0 < n -> 0 < d -> 0 < Qnum (nearest_double n d).
Proof.
  intros Hn Hd. unfold nearest_double.
  pose proof (exponent_le n d) as He.
  destruct (scale_below (exponent n d - 52) n d Hn Hd) as [Hle Hpos]; [lia|].
  replace (- (exponent n d - 52)) with (52 - exponent n d) in * by lia.
  destruct (scale (52 - exponent n d) n d) as [n' d']. cbn [fst snd] in *.
  assert (Hm : 1 <= nearest_even n' d').
  { pose proof (nearest_even_floor n' d' Hpos).
    assert (1 <= n' / d') by (apply Z.div_le_lower_bound; lia). lia. }
  assert (Hq : forall num den, 0 < num -> 0 < Qnum (Qred (num # den))).
  { intros num den Hnum.
    pose proof (Qred_correct (num # den)) as Heq.
    unfold Qeq in Heq. cbn [Qnum Qden] in Heq.
    destruct (Qnum (Qred (num # den))) as [|q|q]; lia. }
  unfold scale. destruct (0 <=? exponent n d - 52) eqn:E.
  - apply Z.leb_le in E. apply Hq.
    assert (0 < 2 ^ (exponent n d - 52)) by (apply Z.pow_pos_nonneg; lia).
    nia.
  - apply Hq. lia.
Qed.

Lemma duration_zero ms : Qeq_bool (duration ms) 0 = (ms =? 0).
Proof.
  unfold duration, to_double.
  destruct ms as [|p|p]; [reflexivity|..];
    cbn [inject_Z Qdiv Qmult Qinv Qnum Qden Z.mul Z.eqb];
    pose proof (nearest_double_pos (Z.pos (p * 1)) (Z.pos (1 * 1000))
                  ltac:(lia) ltac:(lia)) as H;
    unfold Qeq_bool;
    destruct (nearest_double (Z.pos (p * 1)) (Z.pos (1 * 1000))) as [num den];
    cbn [Qnum Qden Qopp] in *; destruct num; cbn; try reflexivity; lia.
Qed.
Lemma inject_Z_zero u : Qeq_bool (inject_Z u) 0 = (u =? 0).
Proof. unfold Qeq_bool, inject_Z. cbn. destruct u; reflexivity. Qed.

Lemma inject_Z_nonneg u : Qle_bool 0 (inject_Z u) = (0 <=? u).
Proof. unfold Qle_bool, inject_Z. cbn. destruct u; reflexivity. Qed.

(** C4, amended.  The division is not guarded.  A run without files exits
    before it; otherwise the average speed is a finite number when the two
    readings of the clock differ, and [Infinity] (some file uploaded) or
    [NaN] (none) when they are equal. *)
Theorem throughput_division (os : platform) (cfg : config) (disk : filesystem)
    (env : environment) (turns : list label) (elapsedMs : Z) (r : report) (w : world) :
  main os cfg disk env turns elapsedMs = Completed r w ->
  0 < totalFiles r
  /\ 0 <= uploaded r
  /\ averageSpeed r = math_round (js_div (inject_Z (uploaded r)) (duration elapsedMs))
  /\ (elapsedMs <> 0 -> is_finite (averageSpeed r) = true)
  /\ (elapsedMs = 0 ->
      averageSpeed r = if uploaded r =? 0 then NaN else PosInfinity).
Proof.
  intros Hmain.
  destruct (main_completed os cfg disk env turns elapsedMs r w Hmain)
    as (st0 & st & H0 & Hexec & Hret & _ & -> & Hpos).
  destruct (run_getAllFiles os cfg disk FOLDERS_TO_UPLOAD) as (w0 & Hrun & _ & Hu & _).
  rewrite Hrun in *. cbn [snd] in *.
  destruct (processBatch_balanced cfg _ _ _ H0) as [_ Hnow].
  pose proof (exec_mono os cfg env turns st0 st Hexec) as [Hmono _].
  rewrite Hnow, Hu in Hmono.
  cbn [summary totalFiles uploaded averageSpeed].
  split; [exact Hpos|]. split; [exact Hmono|]. split; [reflexivity|].
  unfold js_div. rewrite duration_zero, inject_Z_zero, inject_Z_nonneg.
  split.
  - intros Hne. apply Z.eqb_neq in Hne. rewrite Hne. reflexivity.
  - intros ->. cbn [Z.eqb].
    destruct (uploadedFiles (now st) =? 0); [reflexivity|].
    replace (0 <=? uploadedFiles (now st)) with true
      by (symmetry; apply Z.leb_le; exact Hmono).
    reflexivity.
Qed.

(* ------------------------------------------------------------------ *)
(** ** Object keys *)

Lemma seg_eqb_refl os a : seg_eqb os a a = true.
Proof. destruct os; cbn; apply String.eqb_refl. Qed.

Lemma strip_common_below os base : forall rest,
  strip_common os base (base ++ rest) = ([], rest).
Proof.
  induction base as [|b base IH]; intros rest; cbn.
  - now destruct rest.
  - now rewrite seg_eqb_refl, IH.
Qed.

Lemma replace_backslashes_app a : forall b,
  replace_backslashes (a ++ b) = replace_backslashes a ++ replace_backslashes b.
Proof. induction a as [|c a IH]; intros b; cbn; [reflexivity | now rewrite IH]. Qed.

(** C5, amended.  [resolveKey] has no failure case.  For a path that is not
    below [baseDir] it returns the relative path that climbs out of
    [baseDir], which begins with [..], or, on Windows and for a path on
    another drive, the path itself. *)
Theorem resolveKey_outside_base (os : platform) (base p : abspath) :
  under os base p = false ->
  exists key,
    resolveKey os base p = Normal key
    /\ (seg_eqb os (drive base) (drive p) = true -> String.prefix ".." key = true)
    /\ (seg_eqb os (drive base) (drive p) = false ->
        key = replace_backslashes (render os p)).
Proof.
  unfold under, resolveKey, relative. intros Hout.
  eexists. split; [reflexivity|].
  destruct (seg_eqb os (drive base) (drive p)); cbn [andb] in Hout.
  - split; [intros _ | discriminate].
    destruct (strip_common os (segs base) (segs p)) as [up down].
    cbn [fst] in Hout. destruct up as [|u up]; [discriminate|].
    cbn [List.length repeat app String.concat].
    destruct (repeat ".." (List.length up) ++ down)%list; [reflexivity|].
    cbn. destruct (replace_backslashes _); reflexivity.
  - split; [discriminate | reflexivity].
Qed.

Lemma replace_backslashes_clean s :
  has_backslash s = false -> replace_backslashes s = s.
Proof.
  induction s as [|c s IH]; cbn; [reflexivity|].
  intros H. apply orb_false_iff in H. destruct H as [Hc Hs].
  now rewrite Hc, IH.
Qed.

Lemma replace_backslashes_sep os : replace_backslashes (sep os) = "/".
Proof. destruct os; reflexivity. Qed.

Lemma replace_backslashes_concat os names :
  Forall (fun name => has_backslash name = false) names ->
  replace_backslashes (String.concat (sep os) names) = String.concat "/" names.
Proof.
  induction 1 as [|name rest Hname Hrest IH]; [reflexivity|].
  destruct rest as [|name' rest].
  - cbn. now apply replace_backslashes_clean.
  - change (String.concat (sep os) (name :: name' :: rest))
      with (name ++ sep os ++ String.concat (sep os) (name' :: rest)).
    change (String.concat "/" (name :: name' :: rest))
      with (name ++ "/" ++ String.concat "/" (name' :: rest)).
    rewrite !replace_backslashes_app, IH, replace_backslashes_sep.
    now rewrite replace_backslashes_clean.
Qed.

(** The key of a file below [baseDir] whose names hold no backslash is its
    relative path, the names joined by [/]. *)
Lemma resolveKey_below os base rest :
  Forall (fun name => has_backslash name = false) rest ->
  resolveKey os base (AbsPath (drive base) (segs base ++ rest))
  = Normal (String.concat "/" rest).
Proof.
  intros Hclean. unfold resolveKey, relative. cbn [drive segs].
  rewrite seg_eqb_refl, strip_common_below. cbn [List.length repeat app].
  now rewrite replace_backslashes_concat.
Qed.

(** The files a scan returns lie below the directory it started from. *)
Lemma files_below_under n :
  forall dir f,
    In f (files_below n dir) ->
    exists rest, rest <> [] /\ f = AbsPath (drive dir) (segs dir ++ rest).
Proof.
  induction n as [|entries IH|e|] using node_induction; intros dir f Hin;
    try contradiction.
  rewrite files_below_Dir in Hin. apply in_flat_map in Hin.
  destruct Hin as ([name entry] & Hentry & Hf). cbn [fst snd] in Hf.
  rewrite Forall_forall in IH. specialize (IH _ Hentry). cbn [snd] in IH.
  destruct (isDirectory entry).
  - destruct (IH _ _ Hf) as (rest & _ & ->).
    exists (name :: rest). split; [discriminate|].
    cbn [join drive segs]. now rewrite <- app_assoc.
  - destruct (isFile entry); [|contradiction].
    destruct Hf as [<-|[]]. exists [name]. split; [discriminate | reflexivity].
Qed.

(** C6 at a file whose name holds a backslash (POSIX): the relative path is
    [Grand/a\b.txt], the key that is sent is [Grand/a/b.txt], which is
    also the key of the file [b.txt] of the folder [Grand/a]. *)
Theorem backslash_name_key :
  allFiles (snd (run (getAllFiles Posix sample_cfg odd_disk ["Grand"]) world0))
  = [odd_file; plain_file]
  /\ relative Posix site odd_file = "Grand/a\b.txt"
  /\ resolveKey Posix site odd_file = Normal "Grand/a/b.txt"
  /\ resolveKey Posix site plain_file = Normal "Grand/a/b.txt"
  /\ map Key (sink_calls (trace (snd (run (uploadFile Posix sample_cfg always_ok
                                             odd_file 0) world0))))
     = ["Grand/a/b.txt"]
  /\ "Grand/a/b.txt" <> String.concat "/" ["Grand"; "a\b.txt"].
Proof. repeat split; try reflexivity. discriminate. Qed.

(* ------------------------------------------------------------------ *)
(** ** The theorems at the sample runs *)

(** The sample run ends with the three files counted. *)
Lemma counters_account_witness :
  exists r w,
    main Posix sample_cfg sample_disk always_ok sample_turns 1000 = Completed r w
    /\ uploaded r + failed r = totalFiles r
    /\ totalFiles r = 3.
Proof.
  destruct (counters_account Posix sample_cfg sample_disk always_ok sample_turns 1000)
    as [_ Hfinal].
  destruct (main Posix sample_cfg sample_disk always_ok sample_turns 1000)
    as [code w|r w| |] eqn:E; try (vm_compute in E; discriminate).
  destruct (Hfinal 2 r w eq_refl eq_refl) as [Hsum Htotal].
  exists r, w. split; [reflexivity|]. split; [exact Hsum|].
  rewrite Htotal. vm_compute. reflexivity.
Defined.

(** C2 as the specification states it fails for a file that cannot be
    read: each of the four calls fails, the file is counted as failed, and
    nothing was sent, whereas [retryAttempts + 1 = 4]. *)
Lemma retry_bound_unread_file :
  let out := run (uploadFile Posix sample_cfg unreadable sample_file 0) world0 in
  (forall i, attempt_error unreadable sample_file i <> None)
  /\ fst out = Some (Normal false)
  /\ List.length (reads (trace (snd out))) = 4%nat
  /\ sink_calls (trace (snd out)) = []
  /\ Z.of_nat (List.length (sink_calls (trace (snd out)))) <> retryAttempts sample_cfg + 1.
Proof.
  cbv zeta. split; [intros i; discriminate|].
  repeat split; try reflexivity. vm_compute. discriminate.
Defined.

Lemma retry_bound_witness :
  exists t,
    fst (run (uploadFile Posix sample_cfg sink_down sample_file 0) world0)
    = Some (Normal false)
    /\ Z.of_nat (List.length (sink_calls t)) = 4
    /\ sleeps t = [1000; 1000; 1000]
    /\ gains t = [false].
Proof.
  assert (Hr : 0 <= retryAttempts sample_cfg) by (cbn; lia).
  assert (Hread : forall i, 0 <= i <= retryAttempts sample_cfg ->
                            exists content, readResult sink_down sample_file i = Normal content)
    by (intros i _; eexists; reflexivity).
  destruct (proj1 (retry_bound Posix sample_cfg sink_down sample_file world0 Hr Hread))
    as (t & H1 & _ & H3 & H4 & _ & H6 & _).
  { intros i _. eexists. reflexivity. }
  exists t. repeat split; assumption.
Defined.

Lemma read_failure_retried_witness :
  exists t,
    fst (run (uploadFile Posix sample_cfg unreadable sample_file 0) world0)
    = Some (Normal false)
    /\ reads t = [sample_file; sample_file; sample_file; sample_file]
    /\ sink_calls t = []
    /\ sleeps t = [1000; 1000; 1000]
    /\ gains t = [false].
Proof.
  assert (Hr : 0 <= retryAttempts sample_cfg) by (cbn; lia).
  destruct (read_failure_retried Posix sample_cfg unreadable sample_file world0 Hr)
    as (_ & _ & _ & _ & H).
  destruct H as (t & H1 & _ & H3 & H4 & H5 & H6 & _).
  { intros i _. eexists. reflexivity. }
  exists t. repeat split; assumption.
Defined.

Lemma batch_barrier_witness :
  exists batches,
    make_batches sample_cfg [1; 2; 3; 4; 5]%nat = Some [[1; 2]; [3; 4]; [5]]%nat
    /\ make_batches sample_cfg
         (allFiles (snd (run (getAllFiles Posix sample_cfg sample_disk
                                FOLDERS_TO_UPLOAD) world0)))
       = Some batches
    /\ Forall (fun g => (1 <= List.length g <= 2)%nat) batches.
Proof.
  assert (Hc : 0 < 2) by lia.
  destruct (batch_barrier Posix sample_cfg always_ok
              (allFiles (snd (run (getAllFiles Posix sample_cfg sample_disk
                                     FOLDERS_TO_UPLOAD) world0)))
              world0 2 eq_refl Hc)
    as (batches & H1 & _ & H3 & _).
  exists batches. split; [reflexivity|]. split; assumption.
Defined.

Lemma unit_failures_isolated_witness :
  exists ok,
    fst (run (uploadFile Posix sample_cfg unreadable sample_file 0) world0)
    = Some (Normal ok).
Proof.
  exact (proj1 (unit_failures_isolated Posix sample_cfg unreadable)
           sample_file 0 world0).
Defined.

(** C4 as the specification states it fails when the two readings of the
    clock are equal: the sample run then reports [Infinity], and a run whose
    only file cannot be read reports [NaN]. *)
Lemma throughput_unguarded :
  (exists r w,
     main Posix sample_cfg sample_disk always_ok sample_turns 0 = Completed r w
     /\ averageSpeed r = PosInfinity
     /\ is_finite (averageSpeed r) = false)
  /\ (exists r w,
        main Posix hasty_cfg [("Grand", Dir [("a.txt", File)])] unreadable
             [Next; Next] 0 = Completed r w
        /\ averageSpeed r = NaN
        /\ is_finite (averageSpeed r) = false).
Proof.
  split; eexists; eexists; (split; [vm_compute; reflexivity|]);
    split; reflexivity.
Defined.

Lemma throughput_division_witness :
  exists r w,
    main Posix sample_cfg sample_disk always_ok sample_turns 1000 = Completed r w
    /\ 0 < totalFiles r
    /\ is_finite (averageSpeed r) = true.
Proof.
  destruct (main Posix sample_cfg sample_disk always_ok sample_turns 1000)
    as [code w|r w| |] eqn:E; try (vm_compute in E; discriminate).
  destruct (throughput_division _ _ _ _ _ _ _ _ E) as (Hpos & _ & _ & Hfin & _).
  exists r, w. split; [reflexivity|]. split; [exact Hpos|]. apply Hfin. lia.
Defined.

(** C5 as the specification states it fails: for a path that is not below
    [baseDir] a key is returned. *)
Lemma resolveKey_outside_returns :
  under Posix site outside_file = false
  /\ resolveKey Posix site outside_file = Normal "../../etc/passwd"
  /\ (forall e, resolveKey Posix site outside_file <> Throw e).
Proof. repeat split; try reflexivity. discriminate. Defined.

Lemma resolveKey_outside_base_witness :
  exists key,
    resolveKey Posix site outside_file = Normal key
    /\ String.prefix ".." key = true.
Proof.
  destruct (resolveKey_outside_base Posix site outside_file eq_refl)
    as (key & Hkey & Hup & _).
  exists key. split; [exact Hkey|]. apply Hup. reflexivity.
Defined.

Lemma missing_root_skipped_witness :
  let scan := fun folders =>
    snd (run (getAllFiles Posix sample_cfg sample_disk folders) world0) in
  existsSync sample_disk "ExamGenrator" = false
  /\ allFiles (scan FOLDERS_TO_UPLOAD) = allFiles (scan ["Grand"; "Keylinks"])
  /\ warnings (trace (scan FOLDERS_TO_UPLOAD)) = [skip_warning "ExamGenrator"]
  /\ exists turns,
       forall elapsedMs,
         (exists w, main Posix sample_cfg sample_disk always_ok turns elapsedMs = Exit 0 w)
         \/ (exists r w, main Posix sample_cfg sample_disk always_ok turns elapsedMs
                         = Completed r w).
Proof.
  cbv zeta.
  destruct (missing_root_skipped Posix sample_cfg sample_disk always_ok
              "ExamGenrator" eq_refl) as [Hscan Hmain].
  split; [reflexivity|].
  destruct (Hscan [] ["Grand"; "Keylinks"]) as [Hfiles Hwarn].
  split; [exact Hfiles|]. split; [exact Hwarn|].
  destruct (Hmain "Grand" 2) as (_ & _ & Hends).
  - cbn. auto.
  - cbn. auto.
  - reflexivity.
  - reflexivity.
  - lia.
  - exact Hends.
Defined.

(* ------------------------------------------------------------------ *)
(** ** Unit checks *)

Example resolveKey_posix :
  resolveKey Posix site (AbsPath no_drive ["srv"; "site"; "Grand"; "img"; "a.PNG"])
  = Normal "Grand/img/a.PNG".
Proof. reflexivity. Qed.

Example resolveKey_win32 :
  resolveKey Win32 (AbsPath "C" ["Site"])
                   (AbsPath "c" ["site"; "Grand"; "img"; "a.png"])
  = Normal "Grand/img/a.png".
Proof. reflexivity. Qed.

Example resolveKey_other_drive :
  resolveKey Win32 (AbsPath "C" ["Site"]) (AbsPath "D" ["x"; "y.txt"])
  = Normal "D:/x/y.txt".
Proof. reflexivity. Qed.

Example getContentType_png :
  getContentType (AbsPath no_drive ["srv"; "Grand"; "a.PNG"]) = "image/png".
Proof. reflexivity. Qed.

Example getContentType_dotfile :
  getContentType (AbsPath no_drive ["srv"; "Grand"; ".txt"])
  = "application/octet-stream".
Proof. reflexivity. Qed.

Example scan_sample :
  allFiles (snd (run (getAllFiles Posix sample_cfg sample_disk FOLDERS_TO_UPLOAD)
                     world0))
  = [ AbsPath no_drive ["srv"; "site"; "Grand"; "a.txt"];
      AbsPath no_drive ["srv"; "site"; "Grand"; "img"; "b.png"];
      AbsPath no_drive ["srv"; "site"; "Keylinks"; "k.json"] ].
Proof. reflexivity. Qed.

Example batches_of_five :
  make_batches sample_cfg [1; 2; 3; 4; 5]%nat = Some [[1; 2]; [3; 4]; [5]]%nat.
Proof. reflexivity. Qed.

Example no_batches_without_concurrency :
  make_batches (Config "assets" "us-east-1" site (Int 0) 3 1000) [1; 2; 3]%nat = None.
Proof. reflexivity. Qed.

(** The line printed for a file that could not be uploaded. *)
Example upload_error_line :
  upload_error Posix sample_file (JsError "Error" "socket hang up")
  = String line_feed "Failed to upload /srv/site/Grand/a.txt: socket hang up".
Proof. reflexivity. Qed.

Example one_empty_batch_for_nan :
  make_batches (Config "assets" "us-east-1" site Nan 3 1000) [1; 2; 3]%nat
  = Some [[]].
Proof. reflexivity. Qed.

(** [0.1] and [0.56] as Numbers; seven files in 560 milliseconds are
    [12.499999999999998] files a second, which [Math.round] brings to 12. *)
Example tenth_as_double :
  to_double (1 # 10) = 3602879701896397 # 36028797018963968.
Proof. reflexivity. Qed.

Example seven_files_in_560_ms :
  duration 560 = 1261007895663739 # 2251799813685248
  /\ js_div (inject_Z 7) (duration 560)
     = Finite (7036874417766399 # 562949953421312)
  /\ math_round (js_div (inject_Z 7) (duration 560)) = Finite (inject_Z 12).
Proof. repeat split; vm_compute; reflexivity. Qed.

(** The request succeeds at the third call: three requests, two pauses. *)
Example third_call_succeeds :
  let env := {| readResult := fun _ _ => Normal "contents";
                sendResult := fun _ retryCount =>
                  if retryCount <? 2 then Throw (JsError "Error" "timeout")
                  else Normal tt |} in
  let out := run (uploadFile Posix sample_cfg env sample_file 0) world0 in
  fst out = Some (Normal true)
  /\ List.length (sink_calls (trace (snd out))) = 3%nat
  /\ sleeps (trace (snd out)) = [1000; 1000]
  /\ uploadedFiles (snd out) = 1 /\ failedFiles (snd out) = 0.
Proof. repeat split; reflexivity. Qed.

(** The read of the first call fails: two calls, one request. *)
Example late_read_one_request :
  let out := run (uploadFile Posix sample_cfg late_read sample_file 0) world0 in
  fst out = Some (Normal true)
  /\ List.length (reads (trace (snd out))) = 2%nat
  /\ List.length (sink_calls (trace (snd out))) = 1%nat.
Proof. repeat split; reflexivity. Qed.

(* ------------------------------------------------------------------ *)
(** ** More on one call of [uploadFile] *)

Section UploadShape.

Variable os : platform.
Variable cfg : config.
Variable env : environment.
Variable filePath : abspath.

Lemma progress_steps_app t1 t2 :
  progress_steps (t1 ++ t2) = (progress_steps t1 ++ progress_steps t2)%list.
Proof. apply flat_map_app. Qed.

Lemma errors_app t1 t2 : errors (t1 ++ t2) = (errors t1 ++ errors t2)%list.
Proof. apply flat_map_app. Qed.

Lemma readings_attempt_events rc :
  reads (attempt_events os cfg env filePath rc) = [filePath]
  /\ sleeps (attempt_events os cfg env filePath rc) = []
  /\ errors (attempt_events os cfg env filePath rc) = []
  /\ progress_steps (attempt_events os cfg env filePath rc) = []
  /\ (List.length (sink_calls (attempt_events os cfg env filePath rc)) <= 1)%nat.
Proof.
  unfold attempt_events.
  destruct (readResult env filePath rc); repeat split; cbn; lia.
Qed.

Lemma readings_failure_events error :
  let t := failure_events os filePath error in
  reads t = [] /\ sleeps t = [] /\ sink_calls t = [] /\ gains t = [false]
  /\ progress_steps t = [tt] /\ errors t = [upload_error os filePath error].
Proof. repeat split. Qed.

Lemma readings_success_events :
  let t := success_events in
  reads t = [] /\ sleeps t = [] /\ sink_calls t = [] /\ gains t = [true]
  /\ progress_steps t = [tt] /\ errors t = [].
Proof. repeat split. Qed.

Lemma readings_after_sleep ms t :
  reads (Awaited (Sleep ms) :: t) = reads t
  /\ sleeps (Awaited (Sleep ms) :: t) = ms :: sleeps t
  /\ sink_calls (Awaited (Sleep ms) :: t) = sink_calls t
  /\ gains (Awaited (Sleep ms) :: t) = gains t
  /\ progress_steps (Awaited (Sleep ms) :: t) = progress_steps t
  /\ errors (Awaited (Sleep ms) :: t) = errors t.
Proof. repeat split. Qed.

(** The calls made for a file, from the call with [retryCount] on: [k]
    reads, [k - 1] pauses, at most [k] requests, one counter increment, one
    step of the progress bar, and one error line exactly when the file is
    counted as failed. *)
Lemma uploadFile_shape :
  forall n retryCount,
    Z.to_nat (retryAttempts cfg - retryCount) = n ->
    let t := events (uploadFile os cfg env filePath retryCount) in
    exists k ok,
      (1 <= k <= n + 1)%nat
      /\ ending (uploadFile os cfg env filePath retryCount) = Some (Normal ok)
      /\ reads t = repeat filePath k
      /\ sleeps t = repeat (retryDelay cfg) (k - 1)
      /\ (List.length (sink_calls t) <= k)%nat
      /\ gains t = [ok]
      /\ progress_steps t = [tt]
      /\ (if ok then errors t = []
          else exists error, errors t = [upload_error os filePath error]).
Proof.
  assert (Hwin : exists k ok,
             (1 <= k <= 1)%nat
             /\ Some (Normal true) = Some (Normal ok)
             /\ ([filePath] ++ reads success_events)%list = repeat filePath k
             /\ ([] ++ sleeps success_events)%list = repeat (retryDelay cfg) (k - 1)
             /\ True
             /\ ([] ++ gains success_events)%list = [ok]
             /\ ([] ++ progress_steps success_events)%list = [tt]
             /\ (if ok then ([] ++ errors success_events)%list = []
                 else exists error,
                        ([] ++ errors success_events)%list
                        = [upload_error os filePath error])).
  { exists 1%nat, true. repeat split; lia. }
  assert (Hlose : forall error, exists k ok,
             (1 <= k <= 1)%nat
             /\ Some (Normal false) = Some (Normal ok)
             /\ ([filePath] ++ reads (failure_events os filePath error))%list
                = repeat filePath k
             /\ ([] ++ sleeps (failure_events os filePath error))%list
                = repeat (retryDelay cfg) (k - 1)
             /\ True
             /\ ([] ++ gains (failure_events os filePath error))%list = [ok]
             /\ ([] ++ progress_steps (failure_events os filePath error))%list = [tt]
             /\ (if ok then ([] ++ errors (failure_events os filePath error))%list = []
                 else exists error',
                        ([] ++ errors (failure_events os filePath error))%list
                        = [upload_error os filePath error'])).
  { intros error. exists 1%nat, false. repeat split; try lia. eexists. reflexivity. }
  induction n as [|n IH]; intros retryCount Hn t; subst t;
    rewrite (events_uploadFile os cfg env filePath retryCount),
            (ending_uploadFile os cfg env filePath retryCount);
    destruct (readings_attempt_events retryCount) as (Hr & Hs & He & Hp & Hk);
    pose proof (gains_attempt_events os cfg env filePath retryCount) as Hg;
    rewrite reads_app, sleeps_app, errors_app, progress_steps_app, sink_calls_app,
      gains_app, length_app, Hr, Hs, He, Hp, Hg;
    destruct (attempt_error env filePath retryCount) as [error|].
  - replace (retryCount <? retryAttempts cfg) with false
      by (symmetry; apply Z.ltb_ge; lia).
    destruct (Hlose error) as (k & ok & H1 & H2 & H3 & H4 & _ & H6 & H7 & H8).
    exists k, ok. repeat split; try assumption; try lia;
      replace k with 1%nat by lia;
      change (sink_calls (failure_events os filePath error)) with (@nil putObject);
      cbn [List.length]; lia.
  - destruct Hwin as (k & ok & H1 & H2 & H3 & H4 & _ & H6 & H7 & H8).
    exists k, ok. repeat split; try assumption; try lia;
      replace k with 1%nat by lia;
      change (sink_calls success_events) with (@nil putObject);
      cbn [List.length]; lia.
  - destruct (retryCount <? retryAttempts cfg) eqn:E.
    + apply Z.ltb_lt in E.
      destruct (IH (retryCount + 1))
        as (k & ok & Hk1 & Hend & Hr' & Hs' & Hk' & Hg' & Hp' & He'); [lia|].
      destruct (readings_after_sleep (retryDelay cfg)
                  (events (uploadFile os cfg env filePath (retryCount + 1))))
        as (Ar & As & Ak & Ag & Ap & Ae).
      rewrite Ar, As, Ak, Ag, Ap, Ae, Hr', Hs', Hg', Hp'.
      exists (S k), ok.
      replace (S k - 1)%nat with (S (k - 1)) by lia.
      repeat split; try lia; try reflexivity; try assumption.
    + destruct (Hlose error) as (k & ok & H1 & H2 & H3 & H4 & _ & H6 & H7 & H8).
    exists k, ok. repeat split; try assumption; try lia;
        replace k with 1%nat by lia;
        change (sink_calls (failure_events os filePath error)) with (@nil putObject);
        cbn [List.length]; lia.
  - destruct Hwin as (k & ok & H1 & H2 & H3 & H4 & _ & H6 & H7 & H8).
    exists k, ok. repeat split; try assumption; try lia;
      replace k with 1%nat by lia;
      change (sink_calls success_events) with (@nil putObject);
      cbn [List.length]; lia.
Qed.

End UploadShape.

Section Requests.

Variable os : platform.
Variable cfg : config.
Variable env : environment.
Variable filePath : abspath.

Lemma sink_calls_uploadFile params :
  forall n retryCount,
    Z.to_nat (retryAttempts cfg - retryCount) = n ->
    In params (sink_calls (events (uploadFile os cfg env filePath retryCount))) ->
    exists rc,
      retryCount <= rc
      /\ readResult env filePath rc = Normal (Body params)
      /\ params = putParams cfg (key_of os cfg filePath) (Body params) filePath.
Proof.
  induction n as [|n IH]; intros retryCount Hn;
    rewrite (events_uploadFile os cfg env filePath retryCount), sink_calls_app;
    intros Hin; apply in_app_or in Hin;
    (destruct Hin as [Hin|Hin];
     [unfold attempt_events in Hin;
      destruct (readResult env filePath retryCount) as [content|] eqn:Hread;
      [destruct Hin as [<-|[]]; exists retryCount; repeat split; [lia | exact Hread]
      | contradiction]
     |]);
    destruct (attempt_error env filePath retryCount) as [error|];
    try contradiction;
    destruct (retryCount <? retryAttempts cfg) eqn:E; try contradiction.
  - apply Z.ltb_lt in E. lia.
  - apply Z.ltb_lt in E.
    destruct (IH (retryCount + 1)) as (rc & Hrc & Hbody & Hp); [lia | exact Hin |].
    exists rc. repeat split; [lia | exact Hbody | exact Hp].
Qed.

End Requests.

(** X1.  Whatever the outside world answers, the calls made for a file read
    it between once and [retryAttempts + 1] times (once when [retryAttempts]
    is zero or negative), pause for [retryDelay] between two reads, and send
    at most one request per read. *)
Theorem attempts_bounded (os : platform) (cfg : config) (env : environment)
    (filePath : abspath) :
  let out := run (uploadFile os cfg env filePath 0) world0 in
  exists k ok,
    (1 <= k <= Z.to_nat (retryAttempts cfg) + 1)%nat
    /\ fst out = Some (Normal ok)
    /\ reads (trace (snd out)) = repeat filePath k
    /\ sleeps (trace (snd out)) = repeat (retryDelay cfg) (k - 1)
    /\ (List.length (sink_calls (trace (snd out))) <= k)%nat.
Proof.
  cbv zeta. rewrite run_replay. cbn [fst snd]. rewrite trace_replay. cbn [trace world0 app].
  destruct (uploadFile_shape os cfg env filePath _ 0 eq_refl)
    as (k & ok & Hk & Hend & Hr & Hs & Hc & _).
  exists k, ok. rewrite Z.sub_0_r in Hk. repeat split; try assumption; lia.
Qed.

(** X2.  A call of [uploadFile(file)] counts the file once, as uploaded or
    as failed, moves the progress bar by one step, and logs one line
    [Failed to upload ...] exactly when it returns [false]. *)
Theorem outcome_reported_once (os : platform) (cfg : config) (env : environment)
    (filePath : abspath) :
  let out := run (uploadFile os cfg env filePath 0) world0 in
  exists ok,
    fst out = Some (Normal ok)
    /\ uploadedFiles (snd out) = (if ok then 1 else 0)
    /\ failedFiles (snd out) = (if ok then 0 else 1)
    /\ progress_steps (trace (snd out)) = [tt]
    /\ (if ok then errors (trace (snd out)) = []
        else exists error,
               errors (trace (snd out)) = [upload_error os filePath error]).
Proof.
  cbv zeta. rewrite run_replay. cbn [fst snd].
  rewrite trace_replay, uploadedFiles_replay, failedFiles_replay.
  cbn [trace uploadedFiles failedFiles world0 app].
  destruct (uploadFile_shape os cfg env filePath _ 0 eq_refl)
    as (k & ok & _ & Hend & _ & _ & _ & Hg & Hp & He).
  exists ok. rewrite Hg. repeat split; try assumption;
    destruct ok; reflexivity.
Qed.

(** X3.  Every request sent for a file goes to the configured bucket with
    the ACL [public-read], the key and the content type of that file, and
    carries what one of the reads of the file returned. *)
Theorem requests_wellformed (os : platform) (cfg : config) (env : environment)
    (filePath : abspath) (params : putObject) :
  In params (sink_calls (trace (snd (run (uploadFile os cfg env filePath 0) world0)))) ->
  Bucket params = bucketName cfg
  /\ Key params = replace_backslashes (relative os (baseDir cfg) filePath)
  /\ ContentType params = getContentType filePath
  /\ ACL params = "public-read"
  /\ exists retryCount,
       0 <= retryCount /\ readResult env filePath retryCount = Normal (Body params).
Proof.
  rewrite run_replay. cbn [snd]. rewrite trace_replay. cbn [trace world0 app].
  intros Hin.
  destruct (sink_calls_uploadFile os cfg env filePath params _ 0 eq_refl Hin)
    as (rc & Hrc & Hbody & Hp).
  rewrite Hp. cbn [putParams Bucket Key ContentType ACL Body].
  repeat split. exists rc. rewrite Hp in Hbody. cbn [Body putParams] in Hbody. auto.
Qed.

Lemma requests_wellformed_witness :
  exists params,
    In params (sink_calls (trace (snd (run (uploadFile Posix sample_cfg always_ok
                                            sample_file 0) world0))))
    /\ Bucket params = "assets"
    /\ Key params = "Grand/a.txt"
    /\ ContentType params = "text/plain".
Proof.
  eexists. split; [left; reflexivity|].
  destruct (requests_wellformed Posix sample_cfg always_ok sample_file _
              (or_introl eq_refl)) as (Hb & Hk & Hc & _).
  repeat split; assumption.
Defined.

(* ------------------------------------------------------------------ *)
(** ** The report does not depend on the order of the turns *)

Section Wins.

Variable os : platform.
Variable cfg : config.
Variable env : environment.

Lemma wins_uploadFile filePath :
  forall n retryCount,
    Z.to_nat (retryAttempts cfg - retryCount) = n ->
    wins (uploadFile os cfg env filePath retryCount)
    = match ending (uploadFile os cfg env filePath retryCount) with
      | Some (Normal true) => 1
      | _ => 0
      end.
Proof.
  induction n as [|n IH]; intros retryCount Hn;
    rewrite (uploadFile_equation os cfg env filePath retryCount); unfold on_error;
    destruct (retryCount <? retryAttempts cfg) eqn:E;
    try (apply Z.ltb_lt in E; lia);
    try (destruct (readResult env filePath retryCount);
         [destruct (sendResult env filePath retryCount)|]; reflexivity).
  specialize (IH (retryCount + 1)).
  destruct (readResult env filePath retryCount);
    [destruct (sendResult env filePath retryCount)|];
    cbn [wins ending]; try reflexivity; apply IH; apply Z.ltb_lt in E; lia.
Qed.

Lemma wins_first_call filePath :
  wins (uploadFile os cfg env filePath 0)
  = if succeeds os cfg env filePath then 1 else 0.
Proof.
  rewrite (wins_uploadFile filePath _ 0 eq_refl). unfold succeeds.
  destruct (ending (uploadFile os cfg env filePath 0)) as [[[]|]|]; reflexivity.
Qed.

Lemma advance_wins {A : Type} (p : proc A) :
  forall w,
    uploadedFiles (snd (advance p w)) + wins (fst (advance p w))
    = uploadedFiles w + wins p.
Proof.
  induction p as [a|e|a k IH|wt k IH|]; intros w;
    try (cbn [advance fst snd wins record uploadedFiles]; lia).
  specialize (IH (perform a w)).
  destruct a; cbn [advance fst snd wins perform record uploadedFiles] in *; lia.
Qed.

Lemma sum_wins_replace (l : list (proc bool)) : forall i x y,
  nth_error l i = Some y ->
  sum_wins (replace_nth i x l) = sum_wins l - wins y + wins x.
Proof.
  unfold sum_wins.
  induction l as [|z l IH]; intros [|i] x y H; cbn in *; try discriminate.
  - injection H as <-. lia.
  - rewrite (IH i x y H). lia.
Qed.

Lemma sum_wins_fulfilled (l : list (proc bool)) :
  forallb fulfilled l = true -> sum_wins l = 0.
Proof.
  unfold sum_wins.
  induction l as [|p l IH]; cbn; [reflexivity|].
  intros H. apply andb_prop in H. destruct H as [Hp Hl].
  rewrite (IH Hl). destruct p; try discriminate. reflexivity.
Qed.

Lemma successes_cons filePath files :
  successes os cfg env (filePath :: files)
  = (if succeeds os cfg env filePath then 1 else 0) + successes os cfg env files.
Proof.
  unfold successes. cbn [filter].
  destruct (succeeds os cfg env filePath); cbn [List.length]; lia.
Qed.

Lemma successes_app files files' :
  successes os cfg env (files ++ files')
  = successes os cfg env files + successes os cfg env files'.
Proof.
  unfold successes. rewrite filter_app, length_app. lia.
Qed.

Lemma launch_wins files :
  forall b slot w ms ps w' ms',
    launch os cfg env b slot files w ms = (ps, w', ms') ->
    uploadedFiles w' + sum_wins ps = uploadedFiles w + successes os cfg env files.
Proof.
  induction files as [|file rest IH]; intros b slot w ms ps w' ms' H.
  - cbn in H. injection H as <- <- <-. cbn. lia.
  - cbn [launch] in H.
    pose proof (advance_wins (uploadFile os cfg env file 0) w) as Hw.
    destruct (advance (uploadFile os cfg env file 0) w) as [p w1].
    cbn [fst snd] in Hw.
    destruct (launch os cfg env b (S slot) rest w1 _) as [[ps2 w2] ms2] eqn:E.
    injection H as <- <- <-.
    specialize (IH _ _ _ _ _ _ _ E).
    rewrite wins_first_call in Hw. rewrite successes_cons.
    unfold sum_wins in *. cbn [fold_right]. lia.
Qed.

Lemma step_won total st l st' :
  won os cfg env total st -> step os cfg env st l = Some st' ->
  won os cfg env total st'.
Proof.
  unfold won. intros Hsum Hstep. unfold step in Hstep.
  destruct (stage st); try discriminate.
  destruct l as [i|].
  - destruct (nth_error (running st) i) as [p|] eqn:Ep; try discriminate.
    destruct p as [| | |wt k|]; try discriminate.
    pose proof (advance_wins k (now st)) as Hw.
    destruct (advance k (now st)) as [p w]. cbn [fst snd] in Hw.
    injection Hstep as <-. cbn [now running queue].
    rewrite (sum_wins_replace _ _ _ _ Ep). cbn [wins]. lia.
  - destruct (first_rejection (running st)).
    + injection Hstep as <-. exact Hsum.
    + destruct (forallb fulfilled (running st)) eqn:Efull; try discriminate.
      destruct (queue st) as [|batch rest].
      * injection Hstep as <-. exact Hsum.
      * destruct (launch os cfg env (launched st) 0 batch (now st) (marks st))
          as [[ps w] ms] eqn:El.
        injection Hstep as <-. cbn [now running queue].
        pose proof (launch_wins _ _ _ _ _ _ _ _ El) as Hl.
        rewrite (sum_wins_fulfilled _ Efull) in Hsum.
        cbn [List.concat] in Hsum. rewrite successes_app in Hsum. lia.
Qed.

Lemma exec_won total turns :
  forall st st',
    won os cfg env total st -> exec os cfg env st turns = Some st' ->
    won os cfg env total st'.
Proof.
  induction turns as [|l turns IH]; intros st st' Hw H; cbn in H.
  - now injection H as <-.
  - destruct (step os cfg env st l) as [st1|] eqn:E; [|discriminate].
    eapply IH; [eapply step_won; eauto | exact H].
Qed.

Lemma processBatch_won files w st0 :
  processBatch cfg files w = Some st0 ->
  won os cfg env
      (uploadedFiles w + successes os cfg env (List.concat (queue st0))) st0.
Proof.
  intros H. unfold processBatch in H.
  destruct (make_batches cfg files) as [batches|] eqn:E; [|discriminate].
  injection H as <-.
  unfold won. cbn [now running queue]. cbn. lia.
Qed.

(** The counts of a run that reaches the end of [main], from the files the
    batches hold. *)
Lemma completed_counts (disk : filesystem) turns elapsedMs r w :
  main os cfg disk env turns elapsedMs = Completed r w ->
  let ws := snd (run (getAllFiles os cfg disk FOLDERS_TO_UPLOAD) world0) in
  exists st0,
    processBatch cfg (allFiles ws) ws = Some st0
    /\ uploaded r = successes os cfg env (List.concat (queue st0))
    /\ failed r = Z.of_nat (List.length (List.concat (queue st0)))
                  - successes os cfg env (List.concat (queue st0))
    /\ totalFiles r = Z.of_nat (List.length (allFiles ws)).
Proof.
  intros Hmain ws.
  destruct (main_completed os cfg disk env turns elapsedMs r w Hmain)
    as (st0 & st & Hinit & Hexec & Hret & _ & Hr & _).
  fold ws in Hinit, Hr.
  destruct (run_getAllFiles os cfg disk FOLDERS_TO_UPLOAD) as (w0 & Hrun & _ & Hu & Hf & _).
  assert (Hws : ws = w0) by (unfold ws; now rewrite Hrun).
  pose proof (processBatch_won _ _ _ Hinit) as Hw.
  pose proof (exec_won _ turns st0 st Hw Hexec) as Hw'.
  destruct (processBatch_balanced cfg _ _ _ Hinit) as [Hb _].
  pose proof (exec_balanced os cfg env _ turns st0 st Hb Hexec) as Hb'.
  pose proof (balanced_returned _ st Hb' Hret) as Hsum.
  destruct Hb' as (_ & _ & Hstage). rewrite Hret in Hstage.
  destruct Hstage as [Hq Hfull].
  unfold won in Hw'. rewrite Hq, (sum_wins_fulfilled _ Hfull) in Hw'.
  cbn [List.concat] in Hw'. unfold successes at 1 in Hw'.
  cbn [filter List.length] in Hw'.
  rewrite Hws, Hu in Hw'. rewrite Hws, Hu, Hf in Hsum.
  exists st0. split; [exact Hinit|].
  rewrite Hr. cbn [summary uploaded failed totalFiles].
  repeat split; lia.
Qed.

End Wins.

(** X4.  The report of a run that reaches the end of [main] does not depend
    on the order in which the event loop resumes the calls.  With a
    [concurrency] that is a number, [uploaded] is the number of scanned
    files whose calls, run alone, end with [true], and [failed] is the
    number of the others; with [NaN] both are zero.  So two such runs
    report the same counts. *)
Theorem report_independent_of_turns (os : platform) (cfg : config)
    (disk : filesystem) (env : environment) (turns : list label) (elapsedMs : Z)
    (r : report) (w : world) :
  main os cfg disk env turns elapsedMs = Completed r w ->
  let files := allFiles (snd (run (getAllFiles os cfg disk FOLDERS_TO_UPLOAD) world0)) in
  match concurrency cfg with
  | Int _ =>
      uploaded r = successes os cfg env files
      /\ failed r = Z.of_nat (List.length files) - successes os cfg env files
  | Nan => uploaded r = 0 /\ failed r = 0
  end
  /\ (forall turns' elapsedMs' r' w',
        main os cfg disk env turns' elapsedMs' = Completed r' w' ->
        uploaded r' = uploaded r /\ failed r' = failed r
        /\ totalFiles r' = totalFiles r).
Proof.
  intros Hmain files.
  assert (Hall : forall turns0 ms0 r0 w0,
             main os cfg disk env turns0 ms0 = Completed r0 w0 ->
             match concurrency cfg with
             | Int _ =>
                 uploaded r0 = successes os cfg env files
                 /\ failed r0
                    = Z.of_nat (List.length files) - successes os cfg env files
             | Nan => uploaded r0 = 0 /\ failed r0 = 0
             end
             /\ totalFiles r0 = Z.of_nat (List.length files)).
  { intros turns0 ms0 r0 w0 H0.
    destruct (completed_counts os cfg env disk turns0 ms0 r0 w0 H0)
      as (st0 & Hinit & Hu & Hf & Ht).
    split; [|exact Ht].
    destruct (concurrency cfg) as [c|] eqn:Hcfg.
    - rewrite (processBatch_queue cfg _ _ _ c Hcfg Hinit) in Hu, Hf.
      split; assumption.
    - rewrite (processBatch_queue_nan cfg _ _ _ Hcfg Hinit) in Hu, Hf.
      split; assumption. }
  destruct (Hall _ _ _ _ Hmain) as (Hc & Ht).
  split; [exact Hc|].
  intros turns' ms' r' w' H'. destruct (Hall _ _ _ _ H') as (Hc' & Ht').
  destruct (concurrency cfg); destruct Hc as [Hu Hf]; destruct Hc' as [Hu' Hf'];
    repeat split; congruence.
Qed.

Lemma report_independent_of_turns_witness :
  exists r w r' w',
    main Posix sample_cfg sample_disk always_ok sample_turns 1000 = Completed r w
    /\ main Posix sample_cfg sample_disk always_ok
            [Next; Wake 1; Wake 0; Next; Wake 0; Next] 2000 = Completed r' w'
    /\ uploaded r = 3 /\ uploaded r' = uploaded r /\ failed r' = failed r.
Proof.
  destruct (main Posix sample_cfg sample_disk always_ok sample_turns 1000)
    as [code w|r w| |] eqn:E; try (vm_compute in E; discriminate).
  destruct (main Posix sample_cfg sample_disk always_ok
              [Next; Wake 1; Wake 0; Next; Wake 0; Next]%nat 2000)
    as [code' w'|r' w'| |] eqn:E'; try (vm_compute in E'; discriminate).
  destruct (report_independent_of_turns _ _ _ _ _ _ _ _ E) as ([Hu _] & Hsame).
  destruct (Hsame _ _ _ _ E') as (Hu' & Hf' & _).
  exists r, w, r', w'. repeat split; assumption.
Defined.

(* ------------------------------------------------------------------ *)
(** ** How [main] ends *)

Section ScanQuiet.

Variable os : platform.

Lemma scanDir_quiet n :
  forall dir, forallb scan_event (events (scanDir os n dir)) = true.
Proof.
  induction n as [|entries IH|e|] using node_induction; intros dir;
    try reflexivity.
  destruct (scanDir_facts os (Dir entries) dir) as (Hr & _).
  rewrite scanDir_Dir in *.
  set (body := fold_right _ _ entries) in *.
  assert (Hbody : returns body = true /\ forallb scan_event (events body) = true).
  { subst body. clear Hr.
    induction IH as [|[name entry] rest Hentry _ IHrest]; [split; reflexivity|].
    destruct IHrest as [Hr Hq].
    assert (Hv : returns (visit os dir (name, entry)) = true
                 /\ forallb scan_event (events (visit os dir (name, entry))) = true).
    { unfold visit. cbn [fst snd].
      destruct (isDirectory entry).
      - split; [apply (scanDir_facts os entry) | apply Hentry].
      - destruct (isFile entry); split; reflexivity. }
    destruct Hv as [Hvr Hvq].
    cbn [fold_right]. split; [apply returns_bind; auto|].
    rewrite (events_bind _ _ tt) by (now apply ending_unit).
    rewrite forallb_app, Hvq, Hq. reflexivity. }
  destruct Hbody as [Hb Hq].
  rewrite try_catch_returns by exact Hb. exact Hq.
Qed.

Lemma getAllFiles_quiet cfg disk folders :
  forallb scan_event (events (getAllFiles os cfg disk folders)) = true.
Proof.
  induction folders as [|folder rest IH]; [reflexivity|].
  cbn [getAllFiles].
  destruct (find_entry folder disk) as [n|].
  - rewrite (events_bind _ _ tt)
      by (apply ending_unit; apply (scanDir_facts os n)).
    rewrite forallb_app, scanDir_quiet, IH. reflexivity.
  - cbn. exact IH.
Qed.

Lemma quiet_reads_nothing t :
  forallb scan_event t = true -> reads t = [] /\ sink_calls t = [].
Proof.
  induction t as [|e t IH]; [split; reflexivity|].
  cbn [forallb]. intros H. apply andb_prop in H. destruct H as [He Ht].
  destruct (IH Ht) as [Hr Hs].
  unfold reads, sink_calls in *. cbn [flat_map]. rewrite Hr, Hs.
  destruct e as [[]|[]]; try discriminate; split; reflexivity.
Qed.

End ScanQuiet.

Section MainEnds.

Variable os : platform.
Variable cfg : config.
Variable disk : filesystem.
Variable env : environment.

Lemma no_folder_iff :
  (List.length (filter (existsSync disk) FOLDERS_TO_UPLOAD) =? 0)%nat = true
  <-> (forall folder, In folder FOLDERS_TO_UPLOAD -> existsSync disk folder = false).
Proof.
  split.
  - intros H folder Hin.
    destruct (existsSync disk folder) eqn:E; [|reflexivity].
    rewrite (existing_folders disk _ _ Hin E) in H. discriminate.
  - intros H.
    assert (Hnil : filter (existsSync disk) FOLDERS_TO_UPLOAD = []).
    { destruct (filter (existsSync disk) FOLDERS_TO_UPLOAD) as [|f l] eqn:E;
        [reflexivity|].
      assert (Hin : In f (filter (existsSync disk) FOLDERS_TO_UPLOAD))
        by (rewrite E; now left).
      apply filter_In in Hin. destruct Hin as [Hin Hex].
      rewrite (H f Hin) in Hex. discriminate. }
    now rewrite Hnil.
Qed.

Lemma found_file_folder_exists folders :
  flat_map (files_of cfg disk) folders <> [] ->
  exists folder, In folder folders /\ existsSync disk folder = true.
Proof.
  induction folders as [|folder rest IH]; cbn [flat_map]; [congruence|].
  intros H. unfold existsSync.
  destruct (files_of cfg disk folder) as [|f l] eqn:E.
  - destruct (IH H) as (f' & Hin & Hex). exists f'. split; [now right | exact Hex].
  - exists folder. split; [now left|].
    unfold files_of in E. destruct (find_entry folder disk); [reflexivity | discriminate].
Qed.

End MainEnds.

(** X5.  [main] exits with code 1 exactly when none of the folders of
    [FOLDERS_TO_UPLOAD] exists; it has then logged one error and has
    scanned, read and sent nothing. *)
Theorem exit_one_iff_no_folder (os : platform) (cfg : config) (disk : filesystem)
    (env : environment) (turns : list label) (elapsedMs : Z) :
  ((exists w, main os cfg disk env turns elapsedMs = Exit 1 w)
   <-> (forall folder, In folder FOLDERS_TO_UPLOAD -> existsSync disk folder = false))
  /\ (forall w,
        main os cfg disk env turns elapsedMs = Exit 1 w ->
        trace w = [Did (ConsoleError "Error: None of the specified folders exist")]
        /\ allFiles w = [] /\ uploadedFiles w = 0 /\ failedFiles w = 0).
Proof.
  assert (Hcases : forall w,
             main os cfg disk env turns elapsedMs = Exit 1 w ->
             (List.length (filter (existsSync disk) FOLDERS_TO_UPLOAD) =? 0)%nat = true
             /\ w = perform (ConsoleError "Error: None of the specified folders exist")
                      world0).
  { intros w. rewrite main_equation. cbv zeta.
    destruct (_ =? _)%nat; [intros H; injection H as <-; auto|].
    destruct (_ =? _); [discriminate|].
    destruct (processBatch _ _ _) as [st0|] eqn:E0; [|discriminate].
    destruct (exec _ _ _ _ _) as [st|] eqn:E1; [|discriminate].
    destruct (processBatch_balanced cfg _ _ _ E0) as [Hb _].
    pose proof (exec_balanced os cfg env _ turns st0 st Hb E1) as Hb'.
    destruct (stage st) eqn:Est; try discriminate.
    exfalso. exact (balanced_not_thrown _ st e Hb' Est). }
  split; [split|].
  - intros [w H]. apply no_folder_iff. apply (Hcases w H).
  - intros H. apply no_folder_iff in H. rewrite main_equation. cbv zeta.
    rewrite H. eexists. reflexivity.
  - intros w H. destruct (Hcases w H) as [_ ->]. repeat split.
Qed.

(** X6.  [main] exits with code 0 before any upload exactly when a folder
    of the list exists and the scan finds no file; the counters are then
    still zero. *)
Theorem exit_zero_iff_no_file (os : platform) (cfg : config) (disk : filesystem)
    (env : environment) (turns : list label) (elapsedMs : Z) :
  let scan := snd (run (getAllFiles os cfg disk FOLDERS_TO_UPLOAD) world0) in
  ((exists w, main os cfg disk env turns elapsedMs = Exit 0 w)
   <-> (exists folder, In folder FOLDERS_TO_UPLOAD /\ existsSync disk folder = true)
       /\ allFiles scan = [])
  /\ (forall w,
        main os cfg disk env turns elapsedMs = Exit 0 w ->
        w = scan /\ uploadedFiles w = 0 /\ failedFiles w = 0
        /\ reads (trace w) = [] /\ sink_calls (trace w) = []).
Proof.
  intros scan.
  assert (Hcases : forall w,
             main os cfg disk env turns elapsedMs = Exit 0 w ->
             (List.length (filter (existsSync disk) FOLDERS_TO_UPLOAD) =? 0)%nat = false
             /\ allFiles scan = [] /\ w = scan).
  { intros w. rewrite main_equation. cbv zeta. fold scan.
    destruct (_ =? _)%nat; [discriminate|].
    destruct (Z.of_nat (List.length (allFiles scan)) =? 0) eqn:Ez.
    - intros H. injection H as <-. apply Z.eqb_eq in Ez.
      destruct (allFiles scan); [auto | cbn in Ez; lia].
    - destruct (processBatch _ _ _) as [st0|] eqn:E0; [|discriminate].
      destruct (exec _ _ _ _ _) as [st|] eqn:E1; [|discriminate].
      destruct (stage st) eqn:Est; discriminate. }
  split; [split|].
  - intros [w H]. destruct (Hcases w H) as (Hf & Hnil & _). split; [|exact Hnil].
    destruct (filter (existsSync disk) FOLDERS_TO_UPLOAD) as [|f l] eqn:E;
      [discriminate|].
    assert (Hin : In f (filter (existsSync disk) FOLDERS_TO_UPLOAD))
      by (rewrite E; now left).
    apply filter_In in Hin. exists f. exact Hin.
  - intros [(folder & Hin & Hex) Hnil].
    rewrite main_equation. cbv zeta. fold scan.
    rewrite (existing_folders disk _ _ Hin Hex), Hnil. cbn. eexists. reflexivity.
  - intros w H. destruct (Hcases w H) as (_ & _ & ->).
    unfold scan.
    destruct (run_getAllFiles os cfg disk FOLDERS_TO_UPLOAD)
      as (ws & Hrun & _ & Hu & Hf & Ht).
    rewrite Hrun. cbn [snd]. rewrite Ht.
    repeat split; try assumption.
    + apply quiet_reads_nothing, getAllFiles_quiet.
    + apply quiet_reads_nothing, getAllFiles_quiet.
Qed.

Lemma exit_one_iff_no_folder_witness :
  exists w,
    main Posix sample_cfg [("Other", Dir [("a.txt", File)])] always_ok [] 0 = Exit 1 w.
Proof.
  apply (proj1 (exit_one_iff_no_folder Posix sample_cfg
                  [("Other", Dir [("a.txt", File)])] always_ok [] 0)).
  intros folder [<-|[<-|[<-|[]]]]; reflexivity.
Defined.

Lemma exit_zero_iff_no_file_witness :
  exists w,
    main Posix sample_cfg [("Grand", Dir [("empty", Dir [])])] always_ok [] 0 = Exit 0 w.
Proof.
  apply (proj1 (exit_zero_iff_no_file Posix sample_cfg
                  [("Grand", Dir [("empty", Dir [])])] always_ok [] 0)).
  split; [|reflexivity].
  exists "Grand". split; [cbn; auto | reflexivity].
Defined.

(** X7.  With a [concurrency] of zero or less and at least one file found,
    the first loop of [processBatch] never ends: however long it is run it
    has not returned, and [main] neither exits nor reports.  (Memory is not
    bounded in the model; an engine leaves this loop only by running out of
    it.) *)
Theorem no_concurrency_no_end (os : platform) (cfg : config) (disk : filesystem)
    (env : environment) (c : Z) :
  concurrency cfg = Int c -> c <= 0 ->
  allFiles (snd (run (getAllFiles os cfg disk FOLDERS_TO_UPLOAD) world0)) <> [] ->
  (forall fuel,
     batches_loop fuel
       (allFiles (snd (run (getAllFiles os cfg disk FOLDERS_TO_UPLOAD) world0)))
       (concurrency cfg) (Int 0) [] = None)
  /\ (forall turns elapsedMs, main os cfg disk env turns elapsedMs = Unending).
Proof.
  intros Hcfg Hc Hfiles. split.
  - intros fuel. rewrite Hcfg.
    apply batches_loop_stuck; [exact Hc | lia | exact Hfiles].
  - intros turns ms. rewrite main_equation. cbv zeta.
    destruct (run_getAllFiles os cfg disk FOLDERS_TO_UPLOAD) as (w & Hrun & Hf & _).
    rewrite Hrun in *. cbn [snd] in *.
    rewrite Hf in Hfiles.
    destruct (found_file_folder_exists cfg disk _ Hfiles) as (folder & Hin & Hex).
    rewrite (existing_folders disk _ _ Hin Hex).
    rewrite <- Hf in Hfiles.
    destruct (allFiles w) as [|f l] eqn:E; [congruence|].
    replace (Z.of_nat (List.length (f :: l)) =? 0) with false
      by (symmetry; apply Z.eqb_neq; cbn [List.length]; lia).
    unfold processBatch, make_batches. rewrite Hcfg.
    rewrite batches_loop_stuck; [reflexivity | exact Hc | lia | discriminate].
Qed.

Lemma no_concurrency_no_end_witness :
  main Posix (Config "assets" "us-east-1" site (Int 0) 3 1000) sample_disk always_ok
       [Next] 0 = Unending.
Proof.
  assert (Hc : 0 <= 0) by lia.
  assert (Hfiles : allFiles (snd (run (getAllFiles Posix
                      (Config "assets" "us-east-1" site (Int 0) 3 1000) sample_disk
                      FOLDERS_TO_UPLOAD) world0)) <> [])
    by (vm_compute; discriminate).
  exact (proj2 (no_concurrency_no_end Posix
                  (Config "assets" "us-east-1" site (Int 0) 3 1000)
                  sample_disk always_ok 0 eq_refl Hc Hfiles)
           [Next] 0).
Defined.

(* ------------------------------------------------------------------ *)
(** ** More on the scan *)

Section ScanMore.

Variable os : platform.

Lemma events_scanDir_Dir entries dir :
  events (scanDir os (Dir entries) dir)
  = flat_map (fun ne => events (visit os dir ne)) entries.
Proof.
  destruct (scanDir_facts os (Dir entries) dir) as (Hr & _).
  assert (Hvisit : forall ne, returns (visit os dir ne) = true).
  { intros [name entry]. unfold visit. cbn [fst snd].
    destruct (isDirectory entry); [apply (scanDir_facts os entry)|].
    destruct (isFile entry); reflexivity. }
  rewrite scanDir_Dir in *.
  assert (Hbody : forall l,
             returns (fold_right (fun ne rest => bind (visit os dir ne) (fun _ => rest))
                        (Ret tt) l) = true
             /\ events (fold_right (fun ne rest => bind (visit os dir ne) (fun _ => rest))
                          (Ret tt) l)
                = flat_map (fun ne => events (visit os dir ne)) l).
  { induction l as [|ne l [IHr IHe]]; [split; reflexivity|].
    cbn [fold_right flat_map]. split; [apply returns_bind; auto|].
    rewrite (events_bind _ _ tt) by (apply ending_unit, Hvisit). now rewrite IHe. }
  destruct (Hbody entries) as [Hb He].
  rewrite try_catch_returns by exact Hb. exact He.
Qed.

Lemma events_getAllFiles_app cfg disk folders folders' :
  events (getAllFiles os cfg disk (folders ++ folders'))
  = (events (getAllFiles os cfg disk folders)
     ++ events (getAllFiles os cfg disk folders'))%list.
Proof.
  induction folders as [|folder rest IH]; [reflexivity|].
  cbn [app getAllFiles].
  assert (Hr : returns (match find_entry folder disk with
                        | Some n => scanDir os n (join (baseDir cfg) folder)
                        | None => act (ConsoleWarn (skip_warning folder))
                        end) = true).
  { destruct (find_entry folder disk) as [n|]; [apply (scanDir_facts os n) | reflexivity]. }
  rewrite !(events_bind _ _ tt) by (now apply ending_unit).
  now rewrite IH, app_assoc.
Qed.

End ScanMore.

(** X8.  Every file the scan returns lies below [baseDir], in one of the
    folders of the list: its relative path does not climb out of [baseDir],
    and when none of its names holds a backslash its key is these names
    joined by [/], the folder first. *)
Theorem scanned_files_below_base (os : platform) (cfg : config) (disk : filesystem)
    (folders : list string) (f : abspath) :
  In f (allFiles (snd (run (getAllFiles os cfg disk folders) world0))) ->
  exists folder rest,
    In folder folders
    /\ rest <> []
    /\ f = AbsPath (drive (baseDir cfg)) (segs (baseDir cfg) ++ folder :: rest)
    /\ under os (baseDir cfg) f = true
    /\ relative os (baseDir cfg) f = String.concat (sep os) (folder :: rest)
    /\ (Forall (fun name => has_backslash name = false) (folder :: rest) ->
        resolveKey os (baseDir cfg) f = Normal (String.concat "/" (folder :: rest))).
Proof.
  destruct (run_getAllFiles os cfg disk folders) as (w & Hrun & Hfiles & _).
  rewrite Hrun. cbn [snd]. rewrite Hfiles. intros Hin.
  apply in_flat_map in Hin. destruct Hin as (folder & Hfolder & Hf).
  unfold files_of in Hf. destruct (find_entry folder disk) as [n|]; [|contradiction].
  destruct (files_below_under n _ _ Hf) as (rest & Hrest & ->).
  exists folder, rest. cbn [join drive segs]. rewrite <- app_assoc. cbn [app].
  repeat split; try assumption.
  - unfold under. cbn [drive segs].
    now rewrite seg_eqb_refl, strip_common_below.
  - unfold relative. cbn [drive segs].
    now rewrite seg_eqb_refl, strip_common_below.
  - intros Hclean. now apply resolveKey_below.
Qed.

Lemma scanned_files_below_base_witness :
  exists folder rest,
    In folder FOLDERS_TO_UPLOAD
    /\ AbsPath no_drive ["srv"; "site"; "Grand"; "img"; "b.png"]
       = AbsPath no_drive (["srv"; "site"] ++ folder :: rest)
    /\ under Posix site (AbsPath no_drive ["srv"; "site"; "Grand"; "img"; "b.png"]) = true.
Proof.
  destruct (scanned_files_below_base Posix sample_cfg sample_disk FOLDERS_TO_UPLOAD
              (AbsPath no_drive ["srv"; "site"; "Grand"; "img"; "b.png"]))
    as (folder & rest & Hin & _ & Hf & Hunder & _).
  { vm_compute. auto. }
  exists folder, rest. repeat split; assumption.
Defined.

(** X9.  An entry of a listing that is neither a directory nor a regular
    file (a symbolic link, a device, a socket) leaves no trace: the scan
    does what it does without the entry. *)
Theorem other_entries_ignored (os : platform) (dir : abspath)
    (before after : list (string * node)) (name : string) (w : world) :
  run (scanDir os (Dir (before ++ (name, Other) :: after)) dir) w
  = run (scanDir os (Dir (before ++ after)) dir) w.
Proof.
  rewrite !run_replay.
  destruct (scanDir_facts os (Dir (before ++ (name, Other) :: after)) dir) as (Hr & _).
  destruct (scanDir_facts os (Dir (before ++ after)) dir) as (Hr' & _).
  rewrite !ending_unit by assumption.
  rewrite !events_scanDir_Dir, !flat_map_app. reflexivity.
Qed.

(** X10.  The folders are scanned in the order of the list and one after
    the other: the scan of a list is the scan of its first part followed by
    the scan of the rest, for the files returned and for what is logged. *)
Theorem scan_in_list_order (os : platform) (cfg : config) (disk : filesystem)
    (folders folders' : list string) :
  let scan := fun l => snd (run (getAllFiles os cfg disk l) world0) in
  allFiles (scan (folders ++ folders')%list)
  = (allFiles (scan folders) ++ allFiles (scan folders'))%list
  /\ trace (scan (folders ++ folders')%list)
     = (trace (scan folders) ++ trace (scan folders'))%list
  /\ run (getAllFiles os cfg disk (folders ++ folders')) world0
     = run (getAllFiles os cfg disk folders') (scan folders).
Proof.
  cbv zeta. rewrite !run_replay. cbn [snd].
  rewrite !allFiles_replay, !trace_replay, events_getAllFiles_app. cbn [allFiles trace world0 app].
  unfold pushes. rewrite flat_map_app, replay_app.
  repeat split.
  rewrite !ending_unit by apply getAllFiles_facts. reflexivity.
Qed.

(* ------------------------------------------------------------------ *)
(** ** More on the batches *)

Lemma length_chunks {A : Type} c :
  (1 <= c)%nat ->
  forall fuel (l : list A),
    (List.length l <= fuel)%nat ->
    List.length (chunks fuel c l) = ((List.length l + c - 1) / c)%nat.
Proof.
  intros Hc. induction fuel as [|fuel IH]; intros l Hl.
  - destruct l; [|cbn in Hl; lia]. cbn [chunks List.length].
    symmetry. apply Nat.div_small. lia.
  - destruct l as [|x l'].
    + cbn [chunks List.length]. symmetry. apply Nat.div_small. lia.
    + cbn [chunks]. cbn [List.length] in Hl |- *.
      rewrite IH by (rewrite length_skipn; cbn [List.length]; lia).
      rewrite length_skipn. cbn [List.length].
      destruct (Nat.le_gt_cases c (S (List.length l'))) as [Hge|Hlt].
      * replace (S (List.length l') + c - 1)%nat
          with ((S (List.length l') - c + c - 1) + 1 * c)%nat by lia.
        rewrite Nat.div_add by lia. lia.
      * replace (S (List.length l') - c)%nat with 0%nat by lia.
        rewrite (Nat.div_small (0 + c - 1) c) by lia.
        apply (Nat.div_unique _ c 1 (List.length l')); lia.
Qed.

(** X11.  With a positive [concurrency] the files are cut into
    [ceil(n / concurrency)] groups: none for no file, and a single group
    holding all the files when there are at most [concurrency] of them. *)
Theorem batch_count (cfg : config) (files : list abspath) (c : Z) :
  concurrency cfg = Int c -> 0 < c ->
  exists batches,
    make_batches cfg files = Some batches
    /\ Z.of_nat (List.length batches)
       = (Z.of_nat (List.length files) + c - 1) / c
    /\ (files = [] -> batches = [])
    /\ (files <> [] -> Z.of_nat (List.length files) <= c ->
        batches = [files]).
Proof.
  intros Hcfg Hc. rewrite (make_batches_chunks cfg _ c Hcfg Hc).
  eexists. split; [reflexivity|]. split; [|split].
  - rewrite length_chunks by lia.
    rewrite Nat2Z.inj_div, Nat2Z.inj_sub, Nat2Z.inj_add by lia.
    rewrite Z2Nat.id by lia. reflexivity.
  - intros ->. reflexivity.
  - intros Hne Hle. destruct files as [|f l]; [congruence|].
    cbn [List.length chunks].
    rewrite firstn_all2 by (cbn [List.length] in *; lia).
    rewrite skipn_all2 by (cbn [List.length] in *; lia).
    destruct (List.length l); reflexivity.
Qed.

Lemma batch_count_witness :
  exists batches,
    make_batches sample_cfg [1; 2; 3; 4; 5]%nat = Some [[1; 2]; [3; 4]; [5]]%nat
    /\ make_batches sample_cfg [site; sample_file; odd_file] = Some batches
    /\ Z.of_nat (List.length batches) = 2.
Proof.
  assert (Hc : 0 < 2) by lia.
  destruct (batch_count sample_cfg [site; sample_file; odd_file] 2 eq_refl Hc)
    as (batches & Hb & Hlen & _).
  exists batches. split; [reflexivity|]. split; [exact Hb|].
  rewrite Hlen. reflexivity.
Defined.

(* ------------------------------------------------------------------ *)
(** ** [getContentType] *)

Lemma lower_ascii_idem c : lower_ascii (lower_ascii c) = lower_ascii c.
Proof. destruct c as [[] [] [] [] [] [] [] []]; reflexivity. Qed.

Lemma lower_ascii_dot c : Ascii.eqb (lower_ascii c) "." = Ascii.eqb c ".".
Proof. destruct c as [[] [] [] [] [] [] [] []]; reflexivity. Qed.

Lemma toLowerCase_idem s : toLowerCase (toLowerCase s) = toLowerCase s.
Proof.
  induction s as [|c s IH]; [reflexivity|].
  cbn [toLowerCase]. now rewrite lower_ascii_idem, IH.
Qed.

Lemma from_last_dot_lower s :
  from_last_dot (toLowerCase s) = option_map toLowerCase (from_last_dot s).
Proof.
  induction s as [|c s IH]; [reflexivity|].
  cbn [toLowerCase from_last_dot]. rewrite IH, lower_ascii_dot.
  destruct (from_last_dot s); [reflexivity|].
  destruct (Ascii.eqb c "."); reflexivity.
Qed.

Lemma toLowerCase_dots s :
  String.eqb (toLowerCase s) ".." = String.eqb s "..".
Proof.
  destruct s as [|c1 [|c2 [|c3 s]]]; try reflexivity;
    cbn [toLowerCase String.eqb]; rewrite ?lower_ascii_dot; reflexivity.
Qed.

Lemma extname_lower name :
  extname (toLowerCase name) = toLowerCase (extname name).
Proof.
  destruct name as [|c rest]; [reflexivity|].
  unfold extname. cbn [toLowerCase].
  rewrite from_last_dot_lower.
  change (String (lower_ascii c) (toLowerCase rest)) with (toLowerCase (String c rest)).
  rewrite toLowerCase_dots.
  destruct (from_last_dot rest); [|reflexivity].
  cbn [option_map]. destruct (String.eqb (String c rest) ".."); reflexivity.
Qed.

Lemma basename_last d dir name : basename (AbsPath d (dir ++ [name])) = name.
Proof. unfold basename. cbn [segs]. apply last_last. Qed.

Lemma getContentType_lower d dir name :
  getContentType (AbsPath d (dir ++ [name]))
  = getContentType (AbsPath d (dir ++ [toLowerCase name])).
Proof.
  unfold getContentType. rewrite !basename_last.
  now rewrite extname_lower, toLowerCase_idem.
Qed.

(** X12.  The content type does not depend on the case of the file name:
    [a.PNG] and [a.png] get the same type. *)
Theorem content_type_ignores_case (d : string) (dir : list string) (name : string) :
  getContentType (AbsPath d (dir ++ [name]))
  = getContentType (AbsPath d (dir ++ [toLowerCase name])).
Proof.
  unfold getContentType. rewrite !basename_last.
  now rewrite extname_lower, toLowerCase_idem.
Qed.

Lemma from_last_dot_none s :
  ~ In "."%char (list_ascii_of_string s) -> from_last_dot s = None.
Proof.
  induction s as [|c s IH]; [reflexivity|].
  cbn [list_ascii_of_string In from_last_dot]. intros H.
  rewrite IH by tauto.
  destruct (Ascii.eqb_spec c "."); [|reflexivity].
  exfalso. apply H. left. congruence.
Qed.

(** X13.  A file whose name has no dot after its first character, a
    dotfile such as [.html] included, gets [application/octet-stream]. *)
Theorem content_type_without_extension (d : string) (dir : list string)
    (c : ascii) (rest : string) :
  ~ In "."%char (list_ascii_of_string rest) ->
  getContentType (AbsPath d (dir ++ [String c rest])) = "application/octet-stream".
Proof.
  intros H. unfold getContentType. rewrite basename_last.
  unfold extname. rewrite (from_last_dot_none rest H). reflexivity.
Qed.

Lemma content_type_without_extension_witness :
  getContentType (AbsPath no_drive ["srv"; "site"; "Grand"; ".html"])
  = "application/octet-stream"
  /\ getContentType (AbsPath no_drive ["srv"; "site"; "Grand"; "Makefile"])
     = "application/octet-stream".
Proof.
  split.
  - apply (content_type_without_extension no_drive ["srv"; "site"; "Grand"] "." "html").
    cbn. intros [H|[H|[H|[H|[]]]]]; discriminate.
  - apply (content_type_without_extension no_drive ["srv"; "site"; "Grand"] "M" "akefile").
    cbn. intuition discriminate.
Defined.

Lemma from_last_dot_suffix ext :
  from_last_dot ext = Some ext ->
  forall stem, from_last_dot (stem ++ ext) = Some ext.
Proof.
  intros Hext. induction stem as [|c stem IH]; [exact Hext|].
  cbn [append from_last_dot]. now rewrite IH.
Qed.

Lemma table_entries :
  Forall (fun kv =>
            lookup (fst kv) contentTypes = Some (snd kv)
            /\ from_last_dot (fst kv) = Some (fst kv)
            /\ toLowerCase (fst kv) = fst kv
            /\ (2 <= String.length (fst kv))%nat) contentTypes.
Proof. repeat constructor. Qed.

Lemma length_append s : forall s',
  String.length (s ++ s') = (String.length s + String.length s')%nat.
Proof. induction s as [|c s IH]; intros s'; cbn; [reflexivity | now rewrite IH]. Qed.

(** X14.  A file whose name is a stem followed by an extension of the
    table gets the type the table gives for it, in whatever case the name
    is written. *)
Theorem content_type_of_known_extension (d : string) (dir : list string)
    (stem ext type name : string) :
  In (ext, type) contentTypes ->
  stem <> EmptyString ->
  toLowerCase name = toLowerCase (stem ++ ext) ->
  getContentType (AbsPath d (dir ++ [name])) = type.
Proof.
  intros Hin Hstem Hname.
  pose proof table_entries as Htable. rewrite Forall_forall in Htable.
  destruct (Htable _ Hin) as (Hlookup & Hdot & Hlow & Hlen). cbn [fst snd] in *.
  rewrite getContentType_lower, Hname, <- getContentType_lower.
  unfold getContentType. rewrite basename_last.
  destruct stem as [|c stem]; [congruence|].
  assert (Hext : extname (String c stem ++ ext) = ext).
  { unfold extname. cbn [append]. rewrite (from_last_dot_suffix ext Hdot).
    destruct (String.eqb_spec (String c (stem ++ ext)) ".."); [|reflexivity].
    exfalso. apply (f_equal String.length) in e.
    cbn [String.length] in e. rewrite length_append in e. lia. }
  rewrite Hext, Hlow, Hlookup. reflexivity.
Qed.

Lemma content_type_of_known_extension_witness :
  getContentType (AbsPath no_drive ["srv"; "site"; "Grand"; "Logo.final.PNG"])
  = "image/png".
Proof.
  apply (content_type_of_known_extension no_drive ["srv"; "site"; "Grand"]
           "logo.final" ".png" "image/png" "Logo.final.PNG").
  - cbn. tauto.
  - discriminate.
  - reflexivity.
Defined.

(* ------------------------------------------------------------------ *)
(** ** The settings read from the environment *)

Lemma leading_digits_end tail acc :
  no_digit_ahead tail -> leading_digits tail acc true = Some acc.
Proof.
  destruct tail as [|c tail]; [reflexivity|].
  cbn [no_digit_ahead leading_digits]. now intros ->.
Qed.

Lemma leading_digits_acc tail :
  no_digit_ahead tail ->
  forall u acc,
    leading_digits (NilEmpty.string_of_uint u ++ tail) (Z.pos acc) true
    = Some (Z.pos (Pos.of_uint_acc u acc)).
Proof.
  intros Htail.
  induction u as [|u IH|u IH|u IH|u IH|u IH|u IH|u IH|u IH|u IH|u IH]; intros acc;
    [apply leading_digits_end; exact Htail|..];
    cbn [NilEmpty.string_of_uint append leading_digits Pos.of_uint_acc];
    match goal with
    | |- context [digit_of ?c] =>
        let d := eval cbv in (digit_of c) in change (digit_of c) with d
    end;
    cbv iota; rewrite <- IH; f_equal; lia.
Qed.

Lemma leading_digits_zero tail :
  no_digit_ahead tail ->
  forall u,
    leading_digits (NilEmpty.string_of_uint u ++ tail) 0 true
    = Some (Z.of_N (N.of_uint u)).
Proof.
  intros Htail. unfold N.of_uint.
  induction u as [|u IH|u IH|u IH|u IH|u IH|u IH|u IH|u IH|u IH|u IH];
    [apply leading_digits_end; exact Htail|..];
    cbn [NilEmpty.string_of_uint append leading_digits Pos.of_uint];
    match goal with
    | |- context [digit_of ?c] =>
        let d := eval cbv in (digit_of c) in change (digit_of c) with d
    end;
    cbv iota; [exact IH|..]; apply (leading_digits_acc tail Htail).
Qed.

(** The digits of a decimal writing are read back, whatever non-digit
    follows. *)
Lemma leading_digits_decimal n tail :
  no_digit_ahead tail ->
  leading_digits (decimal n ++ tail) 0 false = Some (Z.of_N n)
  /\ exists c rest, (decimal n ++ tail)%string = String c rest /\ digit_of c <> None.
Proof.
  intros Htail. unfold decimal.
  rewrite <- (DecimalN.Unsigned.of_to n) at 2. unfold N.of_uint.
  destruct (N.to_uint n) as [|u|u|u|u|u|u|u|u|u|u];
    cbn [NilZero.string_of_uint NilEmpty.string_of_uint append leading_digits
         Pos.of_uint Z.of_N];
    match goal with
    | |- context [digit_of ?c] =>
        let d := eval cbv in (digit_of c) in change (digit_of c) with d
    end;
    cbv iota; rewrite Z.mul_0_r, Z.add_0_l;
    (split; [| eexists; eexists; split; [reflexivity | discriminate]]);
    first [ apply leading_digits_end; exact Htail
          | apply (leading_digits_zero tail Htail)
          | apply (leading_digits_acc tail Htail) ].
Qed.

Lemma trimStart_digit c rest :
  digit_of c <> None -> trimStart (String c rest) = String c rest.
Proof.
  destruct c as [[] [] [] [] [] [] [] []]; intros H;
    try (exfalso; apply H; reflexivity);
    destruct rest as [|c2 [|c3 rest3]]; reflexivity.
Qed.

Lemma digit_not_sign c :
  digit_of c <> None -> Ascii.eqb c "-" = false /\ Ascii.eqb c "+" = false.
Proof.
  destruct c as [[] [] [] [] [] [] [] []]; intros H;
    try (exfalso; apply H; reflexivity); split; reflexivity.
Qed.

(** [parseInt] reads a decimal writing back, with or without a minus sign
    before it and whatever non-digit follows it. *)
Lemma parseInt_decimal n tail :
  no_digit_ahead tail -> Z.of_N n <= 2 ^ 53 ->
  parseInt (decimal n ++ tail) = Integer (Z.of_N n)
  /\ parseInt ("-" ++ decimal n ++ tail) = Integer (- Z.of_N n).
Proof.
  intros Htail Hn.
  destruct (leading_digits_decimal n tail Htail) as (Hd & c & rest & Hs & Hc).
  apply Z.leb_le in Hn. split.
  - unfold parseInt. rewrite Hs, (trimStart_digit c rest Hc).
    destruct (digit_not_sign c Hc) as [-> ->].
    rewrite <- Hs, Hd, Hn. reflexivity.
  - unfold parseInt.
    change (trimStart ("-" ++ decimal n ++ tail))
      with (trimStart (String "-" (decimal n ++ tail))).
    assert (Ht : trimStart (String "-" (decimal n ++ tail))
                 = String "-" (decimal n ++ tail)).
    { rewrite Hs. destruct rest as [|c3 rest3]; reflexivity. }
    rewrite Ht. cbn [Ascii.eqb Bool.eqb]. cbv iota.
    rewrite Hd, Hn. reflexivity.
Qed.

Lemma or_else_decimal n tail fallback :
  no_digit_ahead tail ->
  or_else (Some (decimal n ++ tail)) fallback = (decimal n ++ tail)%string.
Proof.
  intros Htail.
  destruct (leading_digits_decimal n tail Htail) as (_ & c & rest & -> & _).
  reflexivity.
Qed.

(** X15.  A setting whose variable is undefined or empty gets its default:
    20 for [CONCURRENCY], 3 for [RETRY_ATTEMPTS], 1000 for [RETRY_DELAY] and
    [us-east-1] for [AWS_REGION]. *)
Theorem settings_defaults (env : getenv) (cwd : abspath) :
  (falsy (env "CONCURRENCY") = true ->
   env_concurrency (loadConfig env) = Integer 20)
  /\ (falsy (env "RETRY_ATTEMPTS") = true ->
      env_retryAttempts (loadConfig env) = Integer 3)
  /\ (falsy (env "RETRY_DELAY") = true ->
      env_retryDelay (loadConfig env) = Integer 1000)
  /\ (falsy (env "AWS_REGION") = true -> env_region (loadConfig env) = "us-east-1")
  /\ (falsy (env "CONCURRENCY") = true -> falsy (env "RETRY_ATTEMPTS") = true ->
      falsy (env "RETRY_DELAY") = true ->
      exists cfg,
        to_config (loadConfig env) cwd = Some cfg
        /\ concurrency cfg = Int 20 /\ retryAttempts cfg = 3
        /\ retryDelay cfg = 1000 /\ baseDir cfg = cwd).
Proof.
  unfold loadConfig, to_config. cbn [env_concurrency env_retryAttempts env_retryDelay
                                     env_region env_bucketName].
  repeat split.
  - destruct (env "CONCURRENCY") as [[|c s]|]; try discriminate; reflexivity.
  - destruct (env "RETRY_ATTEMPTS") as [[|c s]|]; try discriminate; reflexivity.
  - destruct (env "RETRY_DELAY") as [[|c s]|]; try discriminate; reflexivity.
  - destruct (env "AWS_REGION") as [[|c s]|]; try discriminate; reflexivity.
  - intros Hc Hr Hd.
    destruct (env "CONCURRENCY") as [[|c s]|]; try discriminate;
      destruct (env "RETRY_ATTEMPTS") as [[|c' s']|]; try discriminate;
      destruct (env "RETRY_DELAY") as [[|c'' s'']|]; try discriminate;
      eexists; repeat split.
Qed.

Lemma settings_defaults_witness :
  exists cfg,
    to_config (loadConfig (fun _ => None)) site = Some cfg
    /\ concurrency cfg = Int 20 /\ retryAttempts cfg = 3 /\ retryDelay cfg = 1000.
Proof.
  destruct (settings_defaults (fun _ => None) site) as (_ & _ & _ & _ & H).
  destruct (H eq_refl eq_refl eq_refl) as (cfg & Hcfg & Hc & Hr & Hd & _).
  exists cfg. repeat split; assumption.
Defined.

(** X16.  A setting whose variable holds the decimal writing of a number
    [n] up to [2^53], followed by nothing or by text that starts with a
    non-digit, is [n] (also for [n = 0]: the default does not replace it),
    and [-n] when a minus sign comes first. *)
Theorem settings_read_back (env : getenv) (n : N) (tail : string) :
  no_digit_ahead tail -> Z.of_N n <= 2 ^ 53 ->
  (env "CONCURRENCY" = Some (decimal n ++ tail) ->
   env_concurrency (loadConfig env) = Integer (Z.of_N n))
  /\ (env "CONCURRENCY" = Some ("-" ++ decimal n ++ tail) ->
      env_concurrency (loadConfig env) = Integer (- Z.of_N n))
  /\ (env "RETRY_ATTEMPTS" = Some (decimal n ++ tail) ->
      env_retryAttempts (loadConfig env) = Integer (Z.of_N n))
  /\ (env "RETRY_ATTEMPTS" = Some ("-" ++ decimal n ++ tail) ->
      env_retryAttempts (loadConfig env) = Integer (- Z.of_N n))
  /\ (env "RETRY_DELAY" = Some (decimal n ++ tail) ->
      env_retryDelay (loadConfig env) = Integer (Z.of_N n))
  /\ (env "RETRY_DELAY" = Some ("-" ++ decimal n ++ tail) ->
      env_retryDelay (loadConfig env) = Integer (- Z.of_N n)).
Proof.
  intros Htail Hn.
  destruct (parseInt_decimal n tail Htail Hn) as [Hpos Hneg].
  unfold loadConfig.
  cbn [env_concurrency env_retryAttempts env_retryDelay].
  repeat split; intros ->;
    first [ rewrite (or_else_decimal n tail _ Htail); exact Hpos
          | exact Hneg ].
Qed.

Lemma settings_read_back_witness :
  env_concurrency
    (loadConfig (fun name => if String.eqb name "CONCURRENCY" then Some "0"
                             else if String.eqb name "RETRY_DELAY" then Some "250ms"
                             else None))
  = Integer 0
  /\ env_retryDelay
       (loadConfig (fun name => if String.eqb name "CONCURRENCY" then Some "0"
                                else if String.eqb name "RETRY_DELAY" then Some "250ms"
                                else None))
     = Integer 250.
Proof.
  assert (H0 : Z.of_N 0 <= 2 ^ 53) by (cbn; lia).
  assert (H250 : Z.of_N 250 <= 2 ^ 53) by (cbn; lia).
  split.
  - destruct (settings_read_back
                (fun name => if String.eqb name "CONCURRENCY" then Some "0"
                             else if String.eqb name "RETRY_DELAY" then Some "250ms"
                             else None) 0 EmptyString I H0) as (H & _).
    apply H. reflexivity.
  - destruct (settings_read_back
                (fun name => if String.eqb name "CONCURRENCY" then Some "0"
                             else if String.eqb name "RETRY_DELAY" then Some "250ms"
                             else None) 250 "ms" eq_refl H250)
      as (_ & _ & _ & _ & H & _).
    apply H. reflexivity.
Defined.

(* ------------------------------------------------------------------ *)
(** ** The events of a whole run *)

Section Accounted.

Variable os : platform.
Variable cfg : config.
Variable env : environment.

(** A count of events that adds up over concatenation. *)
Variable c : list event -> nat.
Hypothesis c_app : forall t t', c (t ++ t') = (c t + c t')%nat.

Lemma c_nil : c [] = 0%nat.
Proof. pose proof (c_app [] []) as H. cbn in H. lia. Qed.

Lemma advance_accounted {A : Type} (p : proc A) :
  forall w,
    (c (trace (snd (advance p w))) + c (remaining (fst (advance p w)))
     = c (trace w) + c (events p))%nat.
Proof.
  induction p as [a|e|a k IH|wt k IH|]; intros w;
    cbn [advance fst snd remaining events]; try lia.
  - rewrite IH, trace_perform, c_app.
    change (Did a :: events k) with ([Did a] ++ events k)%list. rewrite c_app. lia.
  - rewrite trace_record, c_app.
    change (Awaited wt :: events k) with ([Awaited wt] ++ events k)%list.
    rewrite c_app. lia.
Qed.

Lemma remaining_replace (l : list (proc bool)) : forall i x y,
  nth_error l i = Some y ->
  (c (flat_map remaining (replace_nth i x l)) + c (remaining y)
   = c (flat_map remaining l) + c (remaining x))%nat.
Proof.
  induction l as [|z l IH]; intros [|i] x y H; cbn [nth_error] in H;
    try discriminate; cbn [replace_nth flat_map]; rewrite !c_app.
  - injection H as <-. lia.
  - specialize (IH i x y H). lia.
Qed.

Lemma remaining_fulfilled (l : list (proc bool)) :
  forallb fulfilled l = true -> flat_map remaining l = [].
Proof.
  induction l as [|p l IH]; cbn [forallb flat_map]; [reflexivity|].
  intros H. apply andb_prop in H. destruct H as [Hp Hl].
  rewrite (IH Hl). destruct p; try discriminate. reflexivity.
Qed.

Lemma launch_accounted files :
  forall b slot w ms ps w' ms',
    launch os cfg env b slot files w ms = (ps, w', ms') ->
    (c (trace w') + c (flat_map remaining ps)
     = c (trace w) + c (alone os cfg env files))%nat.
Proof.
  unfold alone.
  induction files as [|file rest IH]; intros b slot w ms ps w' ms' H.
  - cbn in H. injection H as <- <- <-. cbn. lia.
  - cbn [launch] in H.
    pose proof (advance_accounted (uploadFile os cfg env file 0) w) as Ha.
    destruct (advance (uploadFile os cfg env file 0) w) as [p w1].
    cbn [fst snd] in Ha.
    destruct (launch os cfg env b (S slot) rest w1 _) as [[ps2 w2] ms2] eqn:E.
    injection H as <- <- <-.
    specialize (IH _ _ _ _ _ _ _ E).
    cbn [flat_map]. rewrite !c_app. lia.
Qed.

Lemma step_accounted total st l st' :
  accounted os cfg env c total st -> step os cfg env st l = Some st' ->
  accounted os cfg env c total st'.
Proof.
  unfold accounted. intros Hsum Hstep. unfold step in Hstep.
  destruct (stage st); try discriminate.
  destruct l as [i|].
  - destruct (nth_error (running st) i) as [p|] eqn:Ep; try discriminate.
    destruct p as [| | |wt k|]; try discriminate.
    pose proof (advance_accounted k (now st)) as Ha.
    destruct (advance k (now st)) as [p w]. cbn [fst snd] in Ha.
    injection Hstep as <-. cbn [now running queue].
    pose proof (remaining_replace _ i p _ Ep) as Hr. cbn [remaining] in Hr. lia.
  - destruct (first_rejection (running st)).
    + injection Hstep as <-. exact Hsum.
    + destruct (forallb fulfilled (running st)) eqn:Efull; try discriminate.
      destruct (queue st) as [|batch rest].
      * injection Hstep as <-. exact Hsum.
      * destruct (launch os cfg env (launched st) 0 batch (now st) (marks st))
          as [[ps w] ms] eqn:El.
        injection Hstep as <-. cbn [now running queue].
        pose proof (launch_accounted _ _ _ _ _ _ _ _ El) as Hl.
        rewrite (remaining_fulfilled _ Efull), c_nil in Hsum.
        cbn [List.concat] in Hsum. unfold alone in *.
        rewrite flat_map_app, c_app in Hsum. lia.
Qed.

Lemma exec_accounted total turns :
  forall st st',
    accounted os cfg env c total st -> exec os cfg env st turns = Some st' ->
    accounted os cfg env c total st'.
Proof.
  induction turns as [|l turns IH]; intros st st' Hw H; cbn in H.
  - now injection H as <-.
  - destruct (step os cfg env st l) as [st1|] eqn:E; [|discriminate].
    eapply IH; [eapply step_accounted; eauto | exact H].
Qed.

Lemma processBatch_accounted files w st0 :
  processBatch cfg files w = Some st0 ->
  accounted os cfg env c
    (c (trace w) + c (alone os cfg env (List.concat (queue st0)))) st0.
Proof.
  intros H. unfold processBatch in H.
  destruct (make_batches cfg files) as [batches|] eqn:E; [|discriminate].
  injection H as <-.
  unfold accounted. cbn [now running queue flat_map]. rewrite c_nil. lia.
Qed.

(** At the end of [processBatch] the count of the trace is the count of
    the trace it started from plus the count of the calls of the batches,
    run alone. *)
Lemma returned_accounted files w st0 turns st :
  processBatch cfg files w = Some st0 ->
  exec os cfg env st0 turns = Some st ->
  stage st = Returned ->
  c (trace (now st))
  = (c (trace w) + c (alone os cfg env (List.concat (queue st0))))%nat.
Proof.
  intros H0 Hexec Hret.
  pose proof (exec_accounted _ turns st0 st (processBatch_accounted _ _ _ H0) Hexec)
    as Ha.
  destruct (processBatch_balanced cfg _ _ _ H0) as [Hb _].
  destruct (exec_balanced os cfg env _ turns st0 st Hb Hexec) as (_ & _ & Hstage).
  rewrite Hret in Hstage. destruct Hstage as [Hq Hfull].
  unfold accounted in Ha.
  rewrite Hq, (remaining_fulfilled _ Hfull) in Ha.
  cbn [List.concat] in Ha. unfold alone at 1 in Ha. cbn [flat_map] in Ha.
  rewrite c_nil in Ha. lia.
Qed.

End Accounted.

Section AloneBounds.

Variable os : platform.
Variable cfg : config.
Variable env : environment.

Lemma alone_bounds files :
  let t := alone os cfg env files in
  (List.length files <= List.length (reads t)
   <= List.length files * (Z.to_nat (retryAttempts cfg) + 1))%nat
  /\ (List.length (sink_calls t) <= List.length (reads t))%nat
  /\ List.length (progress_steps t) = List.length files
  /\ List.length (gains t) = List.length files.
Proof.
  unfold alone.
  induction files as [|file rest (Hr & Hs & Hp & Hg)]; [cbn; lia|].
  cbn [flat_map List.length].
  rewrite reads_app, sink_calls_app, progress_steps_app, gains_app, !length_app.
  destruct (uploadFile_shape os cfg env file _ 0 eq_refl)
    as (k & ok & Hk & _ & Hr' & _ & Hc' & Hg' & Hp' & _).
  rewrite Z.sub_0_r in Hk.
  rewrite Hr', Hg', Hp', repeat_length. cbn [List.length]. nia.
Qed.

(** The calls for a file read that file, and no other. *)
Lemma reads_alone_one file :
  reads (events (uploadFile os cfg env file 0))
  = repeat file (attempts os cfg env file)
  /\ (1 <= attempts os cfg env file <= Z.to_nat (retryAttempts cfg) + 1)%nat.
Proof.
  unfold attempts.
  destruct (uploadFile_shape os cfg env file _ 0 eq_refl)
    as (k & ok & Hk & _ & Hr & _).
  rewrite Z.sub_0_r in Hk. rewrite Hr, repeat_length. split; [reflexivity | exact Hk].
Qed.

Lemma reads_alone_count files f :
  count_occ abspath_eq_dec (reads (alone os cfg env files)) f
  = (count_occ abspath_eq_dec files f * attempts os cfg env f)%nat.
Proof.
  unfold alone.
  induction files as [|file rest IH]; [reflexivity|].
  cbn [flat_map]. rewrite reads_app, count_occ_app, IH.
  rewrite (proj1 (reads_alone_one file)).
  destruct (abspath_eq_dec file f) as [->|Hne].
  - rewrite count_occ_cons_eq by reflexivity.
    rewrite count_occ_repeat_eq by reflexivity. lia.
  - rewrite count_occ_cons_neq by exact Hne.
    rewrite count_occ_repeat_neq by congruence. lia.
Qed.

End AloneBounds.

(** What a reading of the events finds in a run that reaches the end of
    [main] with a [concurrency] that is a number: what it finds in the
    calls run alone, each thing as often. *)
Lemma completed_readings {B : Type} (dec : forall x y : B, {x = y} + {x <> y})
    (g : event -> list B) (os : platform) (cfg : config) (disk : filesystem)
    (env : environment) (turns : list label) (elapsedMs : Z) (r : report)
    (w : world) (c : Z) :
  (forall e, scan_event e = true -> g e = []) ->
  concurrency cfg = Int c ->
  main os cfg disk env turns elapsedMs = Completed r w ->
  Permutation
    (flat_map g (trace w))
    (flat_map g (alone os cfg env
       (allFiles (snd (run (getAllFiles os cfg disk FOLDERS_TO_UPLOAD) world0))))).
Proof.
  intros Hg Hcfg Hmain.
  destruct (main_completed os cfg disk env turns elapsedMs r w Hmain)
    as (st0 & st & H0 & Hexec & Hret & -> & _).
  destruct (run_getAllFiles os cfg disk FOLDERS_TO_UPLOAD) as (ws & Hrun & _ & _ & _ & Ht).
  rewrite Hrun in *. cbn [snd] in *.
  pose proof (getAllFiles_quiet os cfg disk FOLDERS_TO_UPLOAD) as Hquiet.
  rewrite <- Ht in Hquiet.
  assert (Hscan : flat_map g (trace ws) = []).
  { revert Hquiet. generalize (trace ws) as l.
    induction l as [|e l IH]; [reflexivity|].
    cbn [forallb]. intros Hq. apply andb_prop in Hq. destruct Hq as [He Hl].
    cbn [flat_map]. rewrite (Hg e He), (IH Hl). reflexivity. }
  apply (Permutation_count_occ dec). intros x.
  pose proof (returned_accounted os cfg env
                (fun t => count_occ dec (flat_map g t) x)
                (fun a b => eq_trans
                   (f_equal (fun l => count_occ dec l x) (flat_map_app g a b))
                   (count_occ_app dec _ _ x))
                _ ws st0 turns st H0 Hexec Hret) as Hc.
  cbv beta in Hc.
  rewrite (processBatch_queue cfg _ _ _ c Hcfg H0), Hscan in Hc.
  exact Hc.
Qed.

(** X17.  In a run that reaches the end of [main] with a [concurrency] that
    is a number, every scanned file is read as often as its calls, run
    alone, read it: at least once and at most [retryAttempts + 1] times
    (once for a negative [retryAttempts]), and no other file is read.  The
    reads, the requests and the pauses of the run are those of the calls
    run alone, one file after the other, in another order; no request is
    sent without a read before it, and the progress bar has made one step
    for every file. *)
Theorem run_effects (os : platform) (cfg : config) (disk : filesystem)
    (env : environment) (turns : list label) (elapsedMs : Z)
    (r : report) (w : world) (c : Z) :
  concurrency cfg = Int c ->
  main os cfg disk env turns elapsedMs = Completed r w ->
  let files := allFiles (snd (run (getAllFiles os cfg disk FOLDERS_TO_UPLOAD) world0)) in
  let t := alone os cfg env files in
  (forall f,
     count_occ abspath_eq_dec (reads (trace w)) f
     = (count_occ abspath_eq_dec files f * attempts os cfg env f)%nat
     /\ (1 <= attempts os cfg env f <= Z.to_nat (retryAttempts cfg) + 1)%nat)
  /\ Permutation (reads (trace w)) (reads t)
  /\ Permutation (sink_calls (trace w)) (sink_calls t)
  /\ Permutation (sleeps (trace w)) (sleeps t)
  /\ (List.length (sink_calls (trace w)) <= List.length (reads (trace w)))%nat
  /\ List.length (progress_steps (trace w)) = List.length files.
Proof.
  intros Hcfg Hmain files t.
  assert (Hreads : Permutation (reads (trace w)) (reads t)).
  { apply (completed_readings abspath_eq_dec _ os cfg disk env turns elapsedMs r w c);
      try assumption.
    intros [[]|[]] He; try discriminate; reflexivity. }
  assert (Hsends : Permutation (sink_calls (trace w)) (sink_calls t)).
  { apply (completed_readings putObject_eq_dec _ os cfg disk env turns elapsedMs r w c);
      try assumption.
    intros [[]|[]] He; try discriminate; reflexivity. }
  assert (Hsleeps : Permutation (sleeps (trace w)) (sleeps t)).
  { apply (completed_readings Z.eq_dec _ os cfg disk env turns elapsedMs r w c);
      try assumption.
    intros [[]|[]] He; try discriminate; reflexivity. }
  assert (Hsteps : Permutation (progress_steps (trace w)) (progress_steps t)).
  { apply (completed_readings (fun x y : unit =>
             match x, y with tt, tt => left eq_refl end)
             _ os cfg disk env turns elapsedMs r w c);
      try assumption.
    intros [[]|[]] He; try discriminate; reflexivity. }
  destruct (alone_bounds os cfg env files) as (_ & Hs & Hp & _). fold t in Hs, Hp.
  split; [|split; [exact Hreads|]; split; [exact Hsends|]; split; [exact Hsleeps|]].
  - intros f. split.
    + rewrite (proj1 (Permutation_count_occ abspath_eq_dec _ _) Hreads f).
      apply reads_alone_count.
    + apply (reads_alone_one os cfg env f).
  - rewrite (Permutation_length Hreads), (Permutation_length Hsends),
      (Permutation_length Hsteps).
    split; assumption.
Qed.

Lemma run_effects_witness :
  exists r w,
    main Posix sample_cfg sample_disk always_ok sample_turns 1000 = Completed r w
    /\ count_occ abspath_eq_dec (reads (trace w)) sample_file = 1%nat
    /\ List.length (progress_steps (trace w)) = 3%nat.
Proof.
  destruct (main Posix sample_cfg sample_disk always_ok sample_turns 1000)
    as [code w|r w| |] eqn:E; try (vm_compute in E; discriminate).
  destruct (run_effects Posix sample_cfg sample_disk always_ok sample_turns 1000
              r w 2 eq_refl E) as (Hf & _ & _ & _ & _ & Hp).
  exists r, w. split; [reflexivity|]. split.
  - rewrite (proj1 (Hf sample_file)). vm_compute. reflexivity.
  - etransitivity; [exact Hp|]. vm_compute. reflexivity.
Defined.

(** X18.  When [concurrency] is [NaN] (a [CONCURRENCY] that does not start
    with a number) and the scan has found files, the first loop of
    [processBatch] makes one batch, which is empty.  [main] then reaches
    its end after two turns of the event loop without having called
    [uploadFile]: nothing is read or sent, and the report counts no file as
    uploaded and none as failed, out of the files found. *)
Theorem nan_concurrency_uploads_nothing (os : platform) (cfg : config)
    (disk : filesystem) (env : environment) :
  concurrency cfg = Nan ->
  let ws := snd (run (getAllFiles os cfg disk FOLDERS_TO_UPLOAD) world0) in
  allFiles ws <> [] ->
  make_batches cfg (allFiles ws) = Some [[]]
  /\ (forall elapsedMs,
        main os cfg disk env [Next; Next] elapsedMs
        = Completed (summary (Z.of_nat (List.length (allFiles ws))) ws elapsedMs) ws)
  /\ (forall turns elapsedMs r w,
        main os cfg disk env turns elapsedMs = Completed r w ->
        turns = [Next; Next] /\ w = ws
        /\ 0 < totalFiles r /\ uploaded r = 0 /\ failed r = 0
        /\ reads (trace w) = [] /\ sink_calls (trace w) = []).
Proof.
  intros Hcfg ws Hfiles.
  pose proof (make_batches_nan cfg (allFiles ws) Hcfg Hfiles) as Hb.
  assert (H0 : processBatch cfg (allFiles ws) ws
               = Some {| now := ws; launched := 0; running := [];
                         queue := [[]]; stage := Looping; marks := [] |}).
  { unfold processBatch. rewrite Hb. reflexivity. }
  destruct (run_getAllFiles os cfg disk FOLDERS_TO_UPLOAD)
    as (w0 & Hrun & Hf & Hu & Hfl & Ht).
  assert (Hws : ws = w0) by (unfold ws; now rewrite Hrun).
  split; [exact Hb|]. split.
  - intros ms. rewrite main_equation. cbv zeta. fold ws.
    rewrite Hws, Hf in Hfiles.
    destruct (found_file_folder_exists cfg disk _ Hfiles) as (folder & Hin & Hex).
    rewrite (existing_folders disk _ _ Hin Hex).
    rewrite <- Hf, <- Hws in Hfiles.
    replace (Z.of_nat (List.length (allFiles ws)) =? 0) with false
      by (symmetry; apply Z.eqb_neq; destruct (allFiles ws);
          [congruence | cbn [List.length]; lia]).
    rewrite H0. reflexivity.
  - intros turns ms r w Hmain.
    destruct (main_completed os cfg disk env turns ms r w Hmain)
      as (st0 & st & Hinit & Hexec & Hret & Hw & Hr & Hpos).
    fold ws in Hinit, Hr, Hpos.
    rewrite H0 in Hinit. injection Hinit as <-.
    assert (Hturns : turns = [Next; Next] /\ now st = ws).
    { destruct turns as [|[i|] turns]; cbn in Hexec.
      - injection Hexec as <-. discriminate.
      - destruct i; discriminate.
      - destruct turns as [|[i|] turns]; cbn in Hexec.
        + injection Hexec as <-. discriminate.
        + destruct i; discriminate.
        + destruct turns as [|l turns]; cbn in Hexec.
          * injection Hexec as <-. split; reflexivity.
          * destruct l; discriminate. }
    destruct Hturns as [-> Hnow].
    pose proof (getAllFiles_quiet os cfg disk FOLDERS_TO_UPLOAD) as Hquiet.
    rewrite <- Ht, <- Hws in Hquiet.
    destruct (quiet_reads_nothing _ Hquiet) as [Hreads Hsends].
    rewrite Hw, Hnow, Hr. cbn [summary totalFiles uploaded failed].
    rewrite Hnow, Hws, Hu, Hfl. rewrite <- Hws.
    repeat split; assumption.
Qed.

Lemma nan_concurrency_uploads_nothing_witness :
  exists cfg r w,
    to_config
      (loadConfig (fun name => if String.eqb name "CONCURRENCY" then Some "abc"
                               else if String.eqb name "AWS_S3_BUCKET_NAME"
                                    then Some "assets" else None))
      site = Some cfg
    /\ main Posix cfg sample_disk always_ok [Next; Next] 1000 = Completed r w
    /\ totalFiles r = 3 /\ uploaded r = 0 /\ failed r = 0.
Proof.
  exists (Config "assets" "us-east-1" site Nan 3 1000).
  assert (Hfiles : allFiles (snd (run (getAllFiles Posix
                      (Config "assets" "us-east-1" site Nan 3 1000) sample_disk
                      FOLDERS_TO_UPLOAD) world0)) <> [])
    by (vm_compute; discriminate).
  destruct (nan_concurrency_uploads_nothing Posix
              (Config "assets" "us-east-1" site Nan 3 1000) sample_disk always_ok
              eq_refl Hfiles) as (_ & Hrun & _).
  eexists. eexists. split; [reflexivity|]. split; [apply (Hrun 1000)|].
  repeat split.
Defined.
